(** * Composition layers of lingvo/core/builder_layers.py

    A shallow embedding of the layer composers (selectors, Sequential,
    Repeat, SoftCond, Graph, BatchParallel) together with the properties
    their forward pass (FProp), their shape and cost inference (FPropMeta)
    and their constructors satisfy.

    Conventions.  A Python value is a [value]; a function that may raise
    returns a [result]; a method that calls sub-layers runs in [M], which
    also keeps the log of those calls.  A sub-layer is the function its
    [FProp] (or [FPropMeta]) computes.  Python integers are in [Z].
    Tensors are those of a graph under construction: they have no length
    and cannot be iterated.  Helpers of other modules of the library
    ([CheckShapes], [CreateChild], the cluster, the splitting of batches)
    are variables of the sections that use them; [NestedMap] and
    [Recurrent] are modelled.  A NestedMap is a value, except in the module
    [Store], where the namespace of the Graph layer is given with NestedMaps
    as objects that two names can share.  The definitions come first, the
    properties after them. *)

From Stdlib Require Import String Ascii List ZArith Lia Bool Arith.
From Stdlib Require Import DecimalString Reals Lra.
From Stdlib Require DecimalNat.
Import ListNotations.

Set Implicit Arguments.
#[local] Set Warnings "-register-all".

(** ** Python values, exceptions and the call log *)

(** The exceptions the modelled code raises.  [assert] raises
    [AssertionError]; indexing a tuple out of range [IndexError]; a missing
    dictionary key [KeyError]; a missing attribute [AttributeError]; an
    operation on a value of the wrong kind [TypeError]; a tensor operation
    on incompatible shapes [ValueError]. *)
Inductive exn : Type :=
| AssertionError
| IndexError
| KeyError
| TypeError
| AttributeError
| ValueError.

Inductive result (A : Type) : Type :=
| Ok (a : A)
| Raise (e : exn).

Arguments Ok {A} a.
Arguments Raise {A} e.


(** The values that flow between layers: [None], a tensor (or, during
    shape inference, a shape descriptor), a string, a tuple, and a
    [py_utils.NestedMap], a dictionary from names to values.  A NestedMap
    is held as the list of its items. *)
Inductive value (T : Type) : Type :=
| VNone
| VTensor (t : T)
| VStr (s : string)
| VTuple (vs : list (value T))
| VMap (m : list (string * value T)).

Arguments VNone {T}.
Arguments VStr {T} s.

Abbreviation NestedMap T := (list (string * value T)).

(** [x if isinstance(x, tuple) else (x,)] *)
Definition _ToTuple {T} (x : value T) : list (value T) :=
  match x with
  | VTuple vs => vs
  | _ => [x]
  end.

Definition is_None {T} (x : value T) : bool :=
  match x with VNone => true | _ => false end.

Definition is_Tensor {T} (x : value T) : bool :=
  match x with VTensor _ => true | _ => false end.

(** What [FPropMeta] returns: [NestedMap(flops=..., out_shapes=...)]. *)
Record Meta (S : Type) : Type := mkMeta {
  flops : Z;
  out_shapes : list (value S)
}.

(** A computation that may raise and that records, in order, the calls it
    makes to sub-layers and to the host runtime. *)
Definition M (E A : Type) : Type := (list E * result A)%type.

Definition ret {E A} (a : A) : M E A := ([], Ok a).

Definition raise {E A} (e : exn) : M E A := ([], Raise e).

Definition bind {E A B} (m : M E A) (f : A -> M E B) : M E B :=
  match m with
  | (l, Ok a) => let (l', r) := f a in (l ++ l', r)
  | (l, Raise e) => (l, Raise e)
  end.

Definition emit {E} (ev : E) : M E unit := ([ev], Ok tt).

Definition lift {E A} (r : result A) : M E A := ([], r).

Definition assert_ {E} (b : bool) : M E unit :=
  if b then ret tt else raise AssertionError.

Declare Scope py_scope.
Delimit Scope py_scope with py.
Notation "x <- c1 ;; c2" := (bind c1 (fun x => c2))
  (at level 61, c1 at next level, right associativity) : py_scope.
Notation "c1 ;;; c2" := (bind c1 (fun _ => c2))
  (at level 61, right associativity) : py_scope.
Open Scope py_scope.

(** [for x in l: s = body(s, x)] *)
Fixpoint for_each {E A St} (l : list A) (body : St -> A -> M E St) (s : St)
  : M E St :=
  match l with
  | [] => ret s
  | x :: l' => s' <- body s x ;; for_each l' body s'
  end.

(** The same for code that makes no call. *)
Definition rbind {A B} (r : result A) (f : A -> result B) : result B :=
  match r with
  | Ok a => f a
  | Raise e => Raise e
  end.

(** [[f(x) for x in l]] *)
Fixpoint map_r {A B} (f : A -> result B) (l : list A) : result (list B) :=
  match l with
  | [] => Ok []
  | x :: l' => rbind (f x) (fun y => rbind (map_r f l') (fun ys => Ok (y :: ys)))
  end.

Definition rassert (b : bool) : result unit :=
  if b then Ok tt else Raise AssertionError.

(** [for x in l: s = body(s, x)] *)
Fixpoint fold_r {A St} (body : St -> A -> result St) (l : list A) (s : St)
  : result St :=
  match l with
  | [] => Ok s
  | x :: l' => rbind (body s x) (fold_r body l')
  end.

(** [enumerate(l)] *)
Definition enumerate {A} (l : list A) : list (nat * A) :=
  combine (seq 0 (length l)) l.

Definition len {A} (l : list A) : Z := Z.of_nat (length l).

(** [l[i]] for a Python integer [i] that the caller has checked to be
    non-negative. *)
Definition index {A} (l : list A) (i : Z) : result A :=
  match nth_error l (Z.to_nat i) with
  | Some a => Ok a
  | None => Raise IndexError
  end.

(** ** Dictionaries *)

Section Dict.

Context {T : Type}.

Fixpoint lookup (n : string) (m : NestedMap T) : option (value T) :=
  match m with
  | [] => None
  | (k, v) :: m' => if String.eqb n k then Some v else lookup n m'
  end.

(** [m[n] = v] on a dictionary. *)
Fixpoint set_item (n : string) (v : value T) (m : NestedMap T) : NestedMap T :=
  match m with
  | [] => [(n, v)]
  | (k, x) :: m' =>
      if String.eqb n k then (k, v) :: m' else (k, x) :: set_item n v m'
  end.

Definition is_VStr (n : string) (x : value T) : bool :=
  match x with VStr s => String.eqb s n | _ => false end.

(** [n in s] for two strings. *)
Fixpoint contains_str (n s : string) : bool :=
  prefix n s
  || match s with
     | EmptyString => false
     | String _ s' => contains_str n s'
     end.

(** [n in x] for a string [n]: a key of a dictionary, an element of a
    tuple, a substring of a string; a tensor of the graph being built is
    not iterable, and neither is [None]. *)
Definition py_contains (n : string) (x : value T) : result bool :=
  match x with
  | VMap m => Ok (match lookup n m with Some _ => true | None => false end)
  | VTuple vs => Ok (existsb (is_VStr n) vs)
  | VStr s => Ok (contains_str n s)
  | VTensor _ => Raise TypeError
  | VNone => Raise TypeError
  end.

(** [x[n]] for a string [n]. *)
Definition py_getitem (n : string) (x : value T) : result (value T) :=
  match x with
  | VMap m =>
      match lookup n m with
      | Some v => Ok v
      | None => Raise KeyError
      end
  | _ => Raise TypeError
  end.

(** [x.n] for a NestedMap [x]. *)
Definition py_getattr (n : string) (x : value T) : result (value T) :=
  match x with
  | VMap m =>
      match lookup n m with
      | Some v => Ok v
      | None => Raise AttributeError
      end
  | _ => Raise AttributeError
  end.

(** [x[n] = v] for a string [n]; the updated [x] is returned.
    Modelled from the spec: the write is [NestedMap.__setitem__] of
    py_utils.py, taken here as the assignment of a dictionary, which stores
    under any key.  What a run that writes does is therefore stated for the
    runs that return, which are the runs in which no key was refused. *)
Definition py_setitem (n : string) (v : value T) (x : value T)
  : result (value T) :=
  match x with
  | VMap m => Ok (VMap (set_item n v m))
  | _ => Raise TypeError
  end.

(** [len(x)] *)
Definition py_len (x : value T) : result Z :=
  match x with
  | VTuple vs => Ok (len vs)
  | VMap m => Ok (len m)
  | VStr s => Ok (Z.of_nat (String.length s))
  | VTensor _ => Raise TypeError
  | VNone => Raise TypeError
  end.

Fixpoint chars (s : string) : list (value T) :=
  match s with
  | EmptyString => []
  | String c s' => VStr (String c EmptyString) :: chars s'
  end.

(** [list(x)]: the elements of a tuple, the keys of a dictionary, the
    characters of a string. *)
Definition py_iter (x : value T) : result (list (value T)) :=
  match x with
  | VTuple vs => Ok vs
  | VMap m => Ok (map (fun kv => VStr (fst kv)) m)
  | VStr s => Ok (chars s)
  | VTensor _ => Raise TypeError
  | VNone => Raise TypeError
  end.

(** Modelled from the spec: [NestedMap.Flatten] of py_utils.py, the leaves
    of the parameter tree, one per path, the maps inside a map opened up.
    The items of a map are held in the order in which [Flatten] visits
    them. *)
Fixpoint Flatten (v : value T) : list (value T) :=
  match v with
  | VMap m => flat_map (fun kx => Flatten (snd kx)) m
  | _ => [v]
  end.

(** [key + '.' + k if key else k] *)
Definition dotted (key k : string) : string :=
  if (key =? EmptyString)%string then k else String.append key (String "." k).

(** The leaves below [v] with their dotted paths, [key] being the path of
    [v] itself. *)
Fixpoint flatten_items (key : string) (v : value T) : list (string * value T) :=
  match v with
  | VMap m =>
      flat_map (fun kx => flatten_items (dotted key (fst kx)) (snd kx)) m
  | _ => [(key, v)]
  end.

(** Modelled from the spec: [NestedMap.FlattenItems] of py_utils.py, the
    pairs of dotted path and leaf of the parameter tree, in the order of
    [Flatten]. *)
Definition FlattenItems (v : value T) : result (list (string * value T)) :=
  match v with
  | VMap _ => Ok (flatten_items EmptyString v)
  | _ => Raise AttributeError
  end.

(** The items of a map packed one after the other by [pack_value], each
    taking its values from the head of [values]. *)
Definition pack_items
    (pack_value : value T -> list (value T) -> option (value T * list (value T)))
  : NestedMap T -> list (value T) -> option (NestedMap T * list (value T)) :=
  fix items (m : NestedMap T) (values : list (value T)) :=
    match m with
    | [] => Some ([], values)
    | (k, x) :: m' =>
        match pack_value x values with
        | Some (x', values') =>
            match items m' values' with
            | Some (m'', values'') => Some ((k, x') :: m'', values'')
            | None => None
            end
        | None => None
        end
    end.

(** [v] with its leaves replaced, in the order of [Flatten], by the
    values at the head of [values]; the values left over are returned. *)
Fixpoint pack (v : value T) (values : list (value T))
  : option (value T * list (value T)) :=
  match v with
  | VMap m =>
      match pack_items pack m values with
      | Some (m', rest) => Some (VMap m', rest)
      | None => None
      end
  | _ =>
      match values with
      | y :: rest => Some (y, rest)
      | [] => None
      end
  end.

(** Modelled from the spec: [NestedMap.Pack] of py_utils.py, a tree of the
    same structure with one value of [values] per leaf; the number of
    values has to be the number of leaves. *)
Definition Pack (v : value T) (values : list (value T)) : result (value T) :=
  match v with
  | VMap _ =>
      match pack v values with
      | Some (v', []) => Ok v'
      | _ => Raise AssertionError
      end
  | _ => Raise AttributeError
  end.

Definition is_Map (x : value T) : bool :=
  match x with VMap _ => true | _ => false end.

End Dict.

(** ** Selector layers *)

Section Selectors.

Variable T : Type.

(** Shapes handed to [FPropMeta] are checked by [py_utils.CheckShapes],
    which lives outside this file. *)
Variable CheckShapes : list (value T) -> bool.

Record FirstNParams : Type := {
  firstn_name : string;
  firstn_n : Z
}.

(** [FirstNLayer.__init__] *)
Definition FirstNLayer_init (p : FirstNParams) : result unit :=
  rbind (rassert (negb (firstn_name p =? EmptyString)%string)) (fun _ =>
  rassert (firstn_n p >? 0)%Z).

(** [FirstNLayer.FProp] *)
Definition FirstNLayer_FProp (p : FirstNParams) (theta : value T)
    (args : list (value T)) : result (value T) :=
  rbind (rassert (len args >=? firstn_n p)%Z) (fun _ =>
  if (firstn_n p >? 1)%Z
  then Ok (VTuple (firstn (Z.to_nat (firstn_n p)) args))
  else index args 0).

(** [FirstNLayer.FPropMeta] *)
Definition FirstNLayer_FPropMeta (p : FirstNParams) (args : list (value T))
  : result (Meta T) :=
  rbind (rassert (CheckShapes args)) (fun _ =>
  rbind (if (firstn_n p >? 1)%Z
         then Ok (firstn (Z.to_nat (firstn_n p)) args)
         else rbind (index args 0) (fun a => Ok [a])) (fun out =>
  Ok (mkMeta 0 out))).

Record ArgIndexParams : Type := {
  argindex_name : string;
  argindex_idx : list Z
}.

(** The loop [for i in p.idx: assert 0 <= i <= len(args)]. *)
Definition ArgIndex_check (idx : list Z) (args : list (value T)) : bool :=
  forallb (fun i => (0 <=? i)%Z && (i <=? len args)%Z) idx.

(** [ArgIndexLayer.FProp] *)
Definition ArgIndexLayer_FProp (p : ArgIndexParams) (theta : value T)
    (args : list (value T)) : result (value T) :=
  rbind (rassert (negb (Nat.eqb (length (argindex_idx p)) 0))) (fun _ =>
  rbind (rassert (ArgIndex_check (argindex_idx p) args)) (fun _ =>
  rbind (map_r (index args) (argindex_idx p)) (fun r =>
  if (len r >? 1)%Z then Ok (VTuple r) else index r 0))).

End Selectors.

(** ** Calls to sub-layers *)

(** The class-level view of a sub-layer, as [FPropMeta] sees it: its
    parameters [sub], of which only the name matters here, and
    [sub.cls.FPropMeta(sub, *args)]. *)
Record LayerParams (S : Type) : Type := {
  lp_name : string;
  lp_FPropMeta : list (value S) -> result (Meta S)
}.

(** An instantiated sub-layer, as [FProp] sees it: [ch.FProp(th, *args)]. *)
Record Layer (T : Type) : Type := {
  layer_FProp : value T -> list (value T) -> result (value T)
}.

(** One entry of the log of a shape inference run. *)
Inductive meta_event (S : Type) : Type :=
| MetaCall (name : string) (args : list (value S)) (out : result (Meta S)).

(** One entry of the log of a forward run: a call of a sub-layer's
    [FProp], a summary written, a batch split or a concatenation. *)
Inductive fprop_event (T : Type) : Type :=
| FPropCall (name : string) (theta : value T) (args : list (value T))
            (out : result (value T))
| Histogram (dist : T)
| Split (args : list (value T)) (num : Z)
| OnDevice (i : nat)
| Concat (shards : nat).

Arguments OnDevice {T} i.
Arguments Concat {T} shards.

Definition call_meta {S} (sub : LayerParams S) (args : list (value S))
  : M (meta_event S) (Meta S) :=
  ([MetaCall (lp_name sub) args (lp_FPropMeta sub args)],
   lp_FPropMeta sub args).

Definition call_fprop {T} (name : string) (ch : Layer T) (th : value T)
    (args : list (value T)) : M (fprop_event T) (value T) :=
  ([FPropCall name th args (layer_FProp ch th args)], layer_FProp ch th args).

(** [range(n)] *)
Definition range (n : Z) : list Z := map Z.of_nat (seq 0 (Z.to_nat n)).

(** ** Shape and cost inference of Sequential, Repeat and ParallelRepeat *)

Section MetaComposers.

Variable S : Type.
Variable CheckShapes : list (value S) -> bool.

Record SequentialParams : Type := {
  seq_name : string;
  seq_sub : list (LayerParams S);
  seq_repeat : Z
}.

(** The body of the inner loop of [SequentialLayer.FPropMeta]; the loop
    state is the pair of [total] and [args]. *)
Definition Sequential_meta_step (st : Z * list (value S)) (sub : LayerParams S)
  : M (meta_event S) (Z * list (value S)) :=
  let '(total, args) := st in
  meta <- call_meta sub args ;;
  assert_ (CheckShapes (out_shapes meta)) ;;;
  ret ((total + flops meta)%Z, out_shapes meta).

(** [SequentialLayer.FPropMeta] *)
Definition SequentialLayer_FPropMeta (p : SequentialParams)
    (args : list (value S)) : M (meta_event S) (Meta S) :=
  assert_ (CheckShapes args) ;;;
  st <- for_each (range (seq_repeat p))
          (fun st _ => for_each (seq_sub p) Sequential_meta_step st)
          (0%Z, args) ;;
  ret (mkMeta (fst st) (snd st)).

(** The reading of the specification: the shape descriptors are handed
    through a chain of sub-layers by hand, one after the other, each
    sub-layer reporting its own record. *)
Inductive threads : list (LayerParams S) -> list (value S) ->
                    list (Meta S) -> list (value S) -> Prop :=
| threads_nil : forall args, threads [] args [] args
| threads_cons : forall sub subs args meta metas out,
    lp_FPropMeta sub args = Ok meta ->
    CheckShapes (out_shapes meta) = true ->
    threads subs (out_shapes meta) metas out ->
    threads (sub :: subs) args (meta :: metas) out.

(** The chain of a configuration: its list of sub-layers, [repeat] times. *)
Definition Sequential_chain (p : SequentialParams) : list (LayerParams S) :=
  concat (repeat (seq_sub p) (Z.to_nat (seq_repeat p))).

Definition total_flops (metas : list (Meta S)) : Z :=
  fold_right Z.add 0%Z (map (@flops S) metas).

(** The calls a threading makes, in order. *)
Fixpoint thread_calls (subs : list (LayerParams S)) (args : list (value S))
    (metas : list (Meta S)) : list (meta_event S) :=
  match subs, metas with
  | sub :: subs', meta :: metas' =>
      MetaCall (lp_name sub) args (Ok meta)
        :: thread_calls subs' (out_shapes meta) metas'
  | _, _ => []
  end.

Record RepeatParams : Type := {
  rep_name : string;
  rep_body : LayerParams S;
  rep_repeat : Z
}.

(** [RepeatLayer.FPropMeta] *)
Definition RepeatLayer_FPropMeta (p : RepeatParams) (args : list (value S))
  : M (meta_event S) (Meta S) :=
  assert_ (CheckShapes args) ;;;
  meta <- call_meta (rep_body p) args ;;
  assert_ (CheckShapes (out_shapes meta)) ;;;
  let total := (flops meta * rep_repeat p)%Z in
  ret (mkMeta total args).

(** [tshape.Shape(arg.get_shape().as_list()[1:])] and
    [tshape.Shape([p.repeat] + s[:])] rest on lingvo/core/tshape.py, which
    is outside this file: what they do to a descriptor that is not [None]
    is left open. *)
Variable Shape_unstack : value S -> result (value S).
Variable Shape_stack : Z -> value S -> result (value S).

Definition unstack_or_None (arg : value S) : result (value S) :=
  if is_None arg then Ok VNone else Shape_unstack arg.

Definition stack_or_None (n : Z) (s : value S) : result (value S) :=
  if is_None s then Ok VNone else Shape_stack n s.

(** [ParallelRepeatLayer.FPropMeta] *)
Definition ParallelRepeatLayer_FPropMeta (p : RepeatParams)
    (args : list (value S)) : M (meta_event S) (Meta S) :=
  assert_ (CheckShapes args) ;;;
  input_shapes <- lift (map_r unstack_or_None args) ;;
  meta <- call_meta (rep_body p) input_shapes ;;
  assert_ (CheckShapes (out_shapes meta)) ;;;
  let total := (flops meta * rep_repeat p)%Z in
  out <- lift (map_r (stack_or_None (rep_repeat p)) (out_shapes meta)) ;;
  ret (mkMeta total out).

End MetaComposers.

(** ** Strings: [strip], [split] and the identifier pattern *)

(** Strings hold code points below 256.  [str.strip()] removes the white
    space of Python 3 at both ends: tab to carriage return, the four
    separators 28 to 31, the space, and the code points 133 and 160. *)
Definition is_space (c : ascii) : bool :=
  let n := nat_of_ascii c in
  ((9 <=? n) && (n <=? 13)) || ((28 <=? n) && (n <=? 32))
  || (n =? 133) || (n =? 160).

Fixpoint lstrip (s : string) : string :=
  match s with
  | EmptyString => EmptyString
  | String c s' => if is_space c then lstrip s' else s
  end.

Fixpoint rstrip (s : string) : string :=
  match s with
  | EmptyString => EmptyString
  | String c s' =>
      match rstrip s' with
      | EmptyString => if is_space c then EmptyString else String c EmptyString
      | r => String c r
      end
  end.

(** [s.strip()] *)
Definition strip (s : string) : string := rstrip (lstrip s).

(** [s.split(sep)] for a separator that is not empty: the pieces between
    the occurrences of [sep], found from the left.  [skip] counts the
    characters of an occurrence still to be passed over, [cur] is the piece
    being read. *)
Fixpoint split_go (sep : string) (skip : nat) (cur : string) (s : string)
  : list string :=
  match s with
  | EmptyString => [cur]
  | String c s' =>
      match skip with
      | Datatypes.S k => split_go sep k cur s'
      | O =>
          if prefix sep s
          then cur :: split_go sep (String.length sep - 1) EmptyString s'
          else split_go sep 0 (String.append cur (String c EmptyString)) s'
      end
  end.

Definition split (sep s : string) : list string := split_go sep 0 EmptyString s.

(** Regular expressions, as far as the pattern of [ParseSignature] needs
    them, matched by derivatives. *)
Inductive regex : Type :=
| Void
| Eps
| Cls (f : ascii -> bool)
| Alt (r1 r2 : regex)
| Seq (r1 r2 : regex)
| Star (r : regex).

Fixpoint nullable (r : regex) : bool :=
  match r with
  | Void => false
  | Eps => true
  | Cls _ => false
  | Alt r1 r2 => nullable r1 || nullable r2
  | Seq r1 r2 => nullable r1 && nullable r2
  | Star _ => true
  end.

Fixpoint deriv (c : ascii) (r : regex) : regex :=
  match r with
  | Void => Void
  | Eps => Void
  | Cls f => if f c then Eps else Void
  | Alt r1 r2 => Alt (deriv c r1) (deriv c r2)
  | Seq r1 r2 =>
      if nullable r1
      then Alt (Seq (deriv c r1) r2) (deriv c r2)
      else Seq (deriv c r1) r2
  | Star r1 => Seq (deriv c r1) (Star r1)
  end.

Fixpoint matches (r : regex) (s : string) : bool :=
  match s with
  | EmptyString => nullable r
  | String c s' => matches (deriv c r) s'
  end.

(** [s] without a final line feed, when it has one. *)
Fixpoint chop_newline (s : string) : option string :=
  match s with
  | EmptyString => None
  | String c s' =>
      match s' with
      | EmptyString => if Ascii.eqb c "010" then Some EmptyString else None
      | _ => option_map (String c) (chop_newline s')
      end
  end.

(** [re.compile(r + '$').match(x)]: some prefix of [x] matches [r] and
    ends where [$] holds, at the end of [x] or before a line feed that
    ends [x]. *)
Definition re_match_dollar (r : regex) (x : string) : bool :=
  matches r x
  || match chop_newline x with
     | Some y => matches r y
     | None => false
     end.

Definition in_range (lo hi c : ascii) : bool :=
  (nat_of_ascii lo <=? nat_of_ascii c) && (nat_of_ascii c <=? nat_of_ascii hi).

(** [[_a-zA-Z]] *)
Definition id_head (c : ascii) : bool :=
  Ascii.eqb c "_" || in_range "a" "z" c || in_range "A" "Z" c.

(** [[_a-zA-Z0-9]] *)
Definition id_tail (c : ascii) : bool :=
  Ascii.eqb c "_" || in_range "a" "z" c || in_range "A" "Z" c
  || in_range "0" "9" c.

(** [[_a-zA-Z][_a-zA-Z0-9]*] *)
Definition sub_regex : regex := Seq (Cls id_head) (Star (Cls id_tail)).

(** The pattern of [ParseSignature] up to its final [$]: one [sub_regex],
    then any number of times a dot and a [sub_regex]. *)
Definition id_regex : regex :=
  Seq (Cls id_head)
      (Seq (Star (Cls id_tail))
           (Star (Seq (Cls (Ascii.eqb ".")) sub_regex))).

(** [id_regex.match(x)] *)
Definition id_regex_match (x : string) : bool := re_match_dollar id_regex x.

(** The grammar of the specification: an identifier is a letter or an
    underscore followed by letters, digits and underscores; a dotted
    identifier is one identifier or several joined by dots. *)
Inductive all_chars (P : ascii -> bool) : string -> Prop :=
| all_chars_nil : all_chars P EmptyString
| all_chars_cons : forall c s,
    P c = true -> all_chars P s -> all_chars P (String c s).

Inductive identifier : string -> Prop :=
| identifier_intro : forall c s,
    id_head c = true -> all_chars id_tail s -> identifier (String c s).

Inductive dotted_identifier : string -> Prop :=
| dotted_one : forall s, identifier s -> dotted_identifier s
| dotted_more : forall s d,
    identifier s -> dotted_identifier d ->
    dotted_identifier (String.append s (String "." d)).

(** [ParseSignature] *)
Definition ParseSignature (s : string) : result (list string * list string) :=
  rbind (rassert (Nat.eqb (length (split "->" s)) 2)) (fun _ =>
  match split "->" s with
  | [i; o] =>
      let i_tensors := map strip (split "," i) in
      let o_tensors := map strip (split "," o) in
      rbind (rassert (negb (Nat.eqb (length i_tensors) 0))) (fun _ =>
      rbind (rassert (negb (Nat.eqb (length o_tensors) 0))) (fun _ =>
      rbind (rassert (forallb id_regex_match i_tensors)) (fun _ =>
      rbind (rassert (forallb id_regex_match o_tensors)) (fun _ =>
      Ok (i_tensors, o_tensors)))))
  | _ => Raise ValueError
  end).

(** What the specification asks of a signature: exactly one [->], and on
    either side a list, separated by commas, of dotted identifiers (so
    neither side is empty). *)
Definition valid_signature (s : string) : Prop :=
  exists i o,
    split "->" s = [i; o] /\
    Forall dotted_identifier (map strip (split "," i)) /\
    Forall dotted_identifier (map strip (split "," o)).

(** The language of a regular expression. *)
Inductive lang : regex -> string -> Prop :=
| lang_eps : lang Eps EmptyString
| lang_cls : forall f c, f c = true -> lang (Cls f) (String c EmptyString)
| lang_alt_l : forall r1 r2 s, lang r1 s -> lang (Alt r1 r2) s
| lang_alt_r : forall r1 r2 s, lang r2 s -> lang (Alt r1 r2) s
| lang_seq : forall r1 r2 s1 s2,
    lang r1 s1 -> lang r2 s2 -> lang (Seq r1 r2) (String.append s1 s2)
| lang_star_nil : forall r, lang (Star r) EmptyString
| lang_star_more : forall r s1 s2,
    lang r s1 -> lang (Star r) s2 -> lang (Star r) (String.append s1 s2).

(** A dot and an identifier, any number of times. *)
Inductive dotted_rest : string -> Prop :=
| dotted_rest_nil : dotted_rest EmptyString
| dotted_rest_more : forall s d,
    identifier s -> dotted_rest d ->
    dotted_rest (String "." (String.append s d)).

(** [sep.join(pieces)] *)
Fixpoint join (sep : string) (pieces : list string) : string :=
  match pieces with
  | [] => EmptyString
  | [x] => x
  | x :: rest => String.append x (String.append sep (join sep rest))
  end.


(** ** The Graph layer *)

Section Namespace.

Context {T : Type}.

(** The loops of [AddNamedTensor] over [names], [cur] being the map
    reached so far.  The source updates the maps in place; here the updated
    map is handed back and stored again in the map above it, which comes to
    the same as long as no NestedMap is held under two names.  The module
    [Store] further down follows the source where one is. *)
Fixpoint add_names (names : list string) (t : value T) (cur : value T)
  : result (value T) :=
  match names with
  | [] => Raise IndexError
  | [n] =>
      rbind (py_contains n cur) (fun c =>
      rbind (rassert (negb c)) (fun _ =>
      py_setitem n t cur))
  | n :: rest =>
      rbind (py_contains n cur) (fun c =>
      rbind (if negb c then py_setitem n (VMap []) cur else Ok cur) (fun cur1 =>
      rbind (py_getitem n cur1) (fun sub =>
      rbind (add_names rest t sub) (fun sub' =>
      py_setitem n sub' cur1))))
  end.

(** The components of a path: [path.strip().split('.')]. *)
Definition path_names (path : string) : list string := split "." (strip path).

(** [GraphLayer.AddNamedTensor] *)
Definition AddNamedTensor (path : string) (t : value T) (named_tensors : value T)
  : result (value T) :=
  add_names (path_names path) t named_tensors.

(** The loop of [GetNamedTensor]. *)
Fixpoint get_names (names : list string) (cur : value T) : result (value T) :=
  match names with
  | [] => Ok cur
  | n :: rest =>
      match cur with
      | VMap m =>
          match lookup n m with
          | Some v => get_names rest v
          | None => Raise AssertionError
          end
      | _ => Raise AssertionError
      end
  end.

(** [GraphLayer.GetNamedTensor] *)
Definition GetNamedTensor (named_tensors : value T) (path : string)
  : result (value T) :=
  get_names (path_names path) named_tensors.

(** [for n, t in items: AddNamedTensor(p, n, t, named_tensors)] *)
Definition add_all (items : list (string * value T)) (named_tensors : value T)
  : result (value T) :=
  fold_r (fun nt nt_item => AddNamedTensor (fst nt_item) (snd nt_item) nt)
         items named_tensors.

(** What it means for a namespace to hold something under a list of
    names: every name but the last leads to a map, and the last one is a
    key of the map reached. *)
Inductive bound : value T -> list string -> value T -> Prop :=
| bound_here : forall v, bound v [] v
| bound_step : forall m n v rest w,
    lookup n m = Some v -> bound v rest w -> bound (VMap m) (n :: rest) w.

Definition exists_in (ns : value T) (names : list string) : Prop :=
  exists v, bound ns names v.

End Namespace.

(** One list of names continues the other. *)
Fixpoint comparable (a b : list string) : Prop :=
  match a, b with
  | x :: a', y :: b' => x = y /\ comparable a' b'
  | _, _ => True
  end.


Record GraphParams (S : Type) : Type := {
  graph_name : string;
  input_endpoints : list string;
  output_endpoints : list string;
  graph_sub : list (string * LayerParams S)
}.

(** A constructed GraphLayer: its parameters and [self._seq]. *)
Record GraphLayer (T S : Type) : Type := {
  graph_params : GraphParams S;
  graph_seq : list (string * Layer T)
}.

Section Graph.

Variables T S : Type.
Variable CheckShapes : list (value S) -> bool.

(** [self.CreateChild(name, sub)] followed by [self.children[name]]; it
    belongs to base_layer.py and may refuse a child.  It is given the
    children made so far. *)
Variable CreateChild :
  list (string * Layer T) -> string -> LayerParams S -> result (Layer T).

(** ['%02d' % i] *)
Definition two_digits (i : nat) : string :=
  let d := NilEmpty.string_of_uint (Nat.to_uint i) in
  if i <? 10 then String "0" d else d.

(** ['%s_%02d' % (signature.split('->')[1].split(',')[0], i)] *)
Definition default_name (signature : string) (i : nat) : result string :=
  rbind (index (split "->" signature) 1) (fun o =>
  rbind (index (split "," o) 0) (fun first =>
  Ok (String.append first (String "_" (two_digits i))))).

Definition set_name (name : string) (sub : LayerParams S) : LayerParams S :=
  {| lp_name := name; lp_FPropMeta := lp_FPropMeta sub |}.

(** The body of the loop of [GraphLayer.__init__]; the state is [p.sub],
    whose unnamed entries receive their name, and [self._seq]. *)
Definition GraphLayer_init_step
    (st : list (string * LayerParams S) * list (string * Layer T))
    (entry : nat * (string * LayerParams S))
  : result (list (string * LayerParams S) * list (string * Layer T)) :=
  let '(subs, _seq) := st in
  let '(i, (signature, sub)) := entry in
  rbind (rassert (negb (signature =? EmptyString)%string)) (fun _ =>
  rbind (if (lp_name sub =? EmptyString)%string
         then rbind (default_name signature i) (fun name =>
              Ok (set_name name sub))
         else Ok sub) (fun sub =>
  let name := lp_name sub in
  rbind (CreateChild _seq name sub) (fun child =>
  Ok (subs ++ [(signature, sub)], _seq ++ [(name, child)])))).

(** [GraphLayer.__init__] *)
Definition GraphLayer_init (p : GraphParams S) : result (GraphLayer T S) :=
  rbind (rassert (negb (graph_name p =? EmptyString)%string)) (fun _ =>
  rbind (rassert (negb (Nat.eqb (length (input_endpoints p)) 0))) (fun _ =>
  rbind (fold_r GraphLayer_init_step (enumerate (graph_sub p)) ([], []))
    (fun st =>
  Ok {| graph_params :=
          {| graph_name := graph_name p;
             input_endpoints := input_endpoints p;
             output_endpoints := output_endpoints p;
             graph_sub := fst st |};
        graph_seq := snd st |}))).

(** The first loop of [GraphLayer.FProp]: an input is a tensor or a
    NestedMap of tensors, and is stored under its endpoint name. *)
Definition add_input (nt : value T) (item : string * value T)
  : result (value T) :=
  let '(n, t) := item in
  rbind (match t with
         | VMap _ => rassert (forallb is_Tensor (Flatten t))
         | _ => rassert (is_Tensor t)
         end) (fun _ =>
  AddNamedTensor n t nt).

(** The body of the second loop of [GraphLayer.FProp]. *)
Definition Graph_FProp_step (p : GraphParams S) (theta : value T)
    (nt : value T) (entry : nat * (string * Layer T))
  : M (fprop_event T) (value T) :=
  let '(i, (name, ch)) := entry in
  th <- lift (py_getitem name theta) ;;
  sg <- lift (index (graph_sub p) (Z.of_nat i)) ;;
  io <- lift (ParseSignature (fst sg)) ;;
  let '(i_tensors, o_tensors) := io in
  input_args <- lift (map_r (GetNamedTensor nt) i_tensors) ;;
  ch_out <- call_fprop name ch th input_args ;;
  let ch_out := if (len o_tensors =? 1)%Z then VTuple [ch_out] else ch_out in
  n <- lift (py_len ch_out) ;;
  assert_ (n =? len o_tensors)%Z ;;;
  outs <- lift (py_iter ch_out) ;;
  lift (add_all (combine o_tensors outs) nt).

(** [GraphLayer.FProp] *)
Definition GraphLayer_FProp (self : GraphLayer T S) (theta : value T)
    (args : list (value T)) : M (fprop_event T) (value T) :=
  let p := graph_params self in
  assert_ (len (input_endpoints p) =? len args)%Z ;;;
  nt <- lift (fold_r add_input (combine (input_endpoints p) args) (VMap [])) ;;
  nt <- for_each (enumerate (graph_seq self)) (Graph_FProp_step p theta) nt ;;
  layer_out <- lift (map_r (GetNamedTensor nt) (output_endpoints p)) ;;
  if (len layer_out =? 1)%Z then lift (index layer_out 0)
  else ret (VTuple layer_out).

(** The body of the second loop of [GraphLayer.FPropMeta]; the state is
    [total] and [named_tensors]. *)
Definition Graph_meta_step (st : Z * value S) (entry : string * LayerParams S)
  : M (meta_event S) (Z * value S) :=
  let '(total, nt) := st in
  let '(signature, sub) := entry in
  io <- lift (ParseSignature signature) ;;
  let '(i_tensors, o_tensors) := io in
  input_args <- lift (map_r (GetNamedTensor nt) i_tensors) ;;
  meta <- call_meta sub input_args ;;
  let ch_out := out_shapes meta in
  assert_ (len ch_out =? len o_tensors)%Z ;;;
  nt' <- lift (add_all (combine o_tensors ch_out) nt) ;;
  ret ((total + flops meta)%Z, nt').

(** [GraphLayer.FPropMeta] *)
Definition GraphLayer_FPropMeta (p : GraphParams S) (args : list (value S))
  : M (meta_event S) (Meta S) :=
  assert_ (CheckShapes args) ;;;
  assert_ (len (input_endpoints p) =? len args)%Z ;;;
  nt <- lift (add_all (combine (input_endpoints p) args) (VMap [])) ;;
  st <- for_each (graph_sub p) Graph_meta_step (0%Z, nt) ;;
  layer_out <- lift (map_r (GetNamedTensor (snd st)) (output_endpoints p)) ;;
  ret (mkMeta (fst st) layer_out).

End Graph.



(** What both [FProp] and [FPropMeta] do to the namespace, sub-layer by
    sub-layer: parse the signature, find the inputs, write the outputs. *)
Inductive walk {T} : value T -> list string -> value T ->
                     list (list string * list string) -> Prop :=
| walk_nil : forall ns, walk ns [] ns []
| walk_cons : forall ns sig sigs i_tensors o_tensors outs ns1 ns' parsed,
    ParseSignature sig = Ok (i_tensors, o_tensors) ->
    Forall (fun r => exists_in ns (path_names r)) i_tensors ->
    length outs = length o_tensors ->
    add_all (combine o_tensors outs) ns = Ok ns1 ->
    walk ns1 sigs ns' parsed ->
    walk ns (sig :: sigs) ns' ((i_tensors, o_tensors) :: parsed).


(** ** The BatchParallel layer *)

(** What one shard hands to [ConcatRecursively]: [list(ys)] when the
    sub-layer returned a tuple, [ys] itself when it returned one tensor. *)
Inductive shard_output (T : Type) : Type :=
| ShardList (ys : list (value T))
| ShardOne (y : value T).

Section BatchParallel.

Variable T : Type.

(** [self.cluster.num_devices_per_split], and the two helpers of
    py_utils.py that split the inputs along the batch axis and join the
    outputs again. *)
Variable num_devices_per_split : Z.
Variable SplitRecursively : list (value T) -> Z -> result (list (list (value T))).
Variable ConcatRecursively :
  list (shard_output T) -> result (shard_output T).

(** The body of the loop over the shards. *)
Definition BatchParallel_shard (sub : Layer T) (theta : value T)
    (outs : list (shard_output T)) (entry : nat * list (value T))
  : M (fprop_event T) (list (shard_output T)) :=
  let '(i, xs) := entry in
  emit (OnDevice i) ;;;
  th <- lift (py_getattr "sub" theta) ;;
  ys <- call_fprop "sub" sub th xs ;;
  ret (outs ++ [match ys with
                | VTuple l => ShardList l
                | _ => ShardOne ys
                end]).

(** [BatchParallelLayer.FProp]; [sub] is [self.sub]. *)
Definition BatchParallelLayer_FProp (sub : Layer T) (theta : value T)
    (args : list (value T)) : M (fprop_event T) (value T) :=
  assert_ (forallb is_Tensor args) ;;;
  let num := num_devices_per_split in
  if (num =? 1)%Z then
    th <- lift (py_getattr "sub" theta) ;;
    call_fprop "sub" sub th args
  else
    emit (Split args num) ;;;
    inps <- lift (SplitRecursively args num) ;;
    outs <- for_each (enumerate inps) (BatchParallel_shard sub theta) [] ;;
    emit (Concat (length outs)) ;;;
    joined <- lift (ConcatRecursively outs) ;;
    match joined with
    | ShardList l => ret (VTuple l)
    | ShardOne y => ret y
    end.

End BatchParallel.

(** ** Tensors *)

(** A tensor: its static shape and its entries in row-major order.  The
    entries are real numbers; rounding is not modelled. *)
Record Tensor : Type := mkTensor {
  t_shape : list nat;
  t_data : list R
}.

Definition num_elements (shape : list nat) : nat := fold_right Nat.mul 1 shape.

Definition vadd (a b : list R) : list R :=
  map (fun xy => (fst xy + snd xy)%R) (combine a b).

Definition vscale (w : R) (a : list R) : list R := map (Rmult w) a.

(** The sum of rows of length [n]. *)
Definition vsum (n : nat) (rows : list (list R)) : list R :=
  fold_right vadd (repeat 0%R n) rows.

(** The first [k] slices of [n] entries each. *)
Fixpoint chunks (k n : nat) (data : list R) : list (list R) :=
  match k with
  | O => []
  | Datatypes.S k' => firstn n data :: chunks k' n (skipn n data)
  end.

(** The sum over the leading axis of the slices, each scaled by its
    weight. *)
Definition weighted_sum (ws : list R) (n : nat) (data : list R) : list R :=
  vsum n (map (fun wr => vscale (fst wr) (snd wr))
              (combine ws (chunks (length ws) n data))).

Definition shape_eqb (a b : list nat) : bool :=
  (length a =? length b) && forallb (fun xy => fst xy =? snd xy) (combine a b).

(** [tf.reshape(t, [-1, d])] *)
Definition tf_reshape_rows (t : Tensor) (d : Z) : result Tensor :=
  let dn := Z.to_nat d in
  let size := num_elements (t_shape t) in
  if (0 <? d)%Z && (size mod dn =? 0)
  then Ok (mkTensor [size / dn; dn] (t_data t))
  else Raise ValueError.

(** [tf.reduce_sum(t, 0)] *)
Definition tf_reduce_sum_0 (t : Tensor) : result Tensor :=
  match t_shape t with
  | r :: rest =>
      let n := num_elements rest in
      Ok (mkTensor rest (vsum n (chunks r n (t_data t))))
  | [] => Raise ValueError
  end.

(** [tf.einsum('i,ij->j', a, w)] *)
Definition tf_einsum_i_ij_j (a w : Tensor) : result Tensor :=
  match t_shape a, t_shape w with
  | [i], [i'; j] =>
      if i =? i' then Ok (mkTensor [j] (weighted_sum (t_data a) j (t_data w)))
      else Raise ValueError
  | _, _ => Raise ValueError
  end.

(** The logistic function.  [tf.nn.sigmoid] computes it in floating
    point, where it reaches 1 at large arguments; the properties below use
    of its values only that it is 1/2 at 0. *)
Definition sigmoid (x : R) : R := (1 / (1 + exp (- x)))%R.

(** [tf.nn.sigmoid(t)] *)
Definition tf_sigmoid (t : Tensor) : Tensor :=
  mkTensor (t_shape t) (map sigmoid (t_data t)).

(** [tf.einsum('i,i...->...', a, v)]: the slices of [v] along its leading
    axis, each scaled by the entry of [a] at its index, summed. *)
Definition tf_einsum_i_iE_E (a v : Tensor) : result Tensor :=
  match t_shape a, t_shape v with
  | [i], i' :: rest =>
      if i =? i'
      then Ok (mkTensor rest
                 (weighted_sum (t_data a) (num_elements rest) (t_data v)))
      else Raise ValueError
  | _, _ => Raise ValueError
  end.

(** [tf.stack([t] * k)] *)
Definition tf_stack_copies (t : Tensor) (k : Z) : result Tensor :=
  if (0 <? k)%Z
  then Ok (mkTensor (Z.to_nat k :: t_shape t)
             (concat (repeat (t_data t) (Z.to_nat k))))
  else Raise ValueError.

(** The slice of [t] at index [i] of its leading axis. *)
Definition tf_slice_0 (i : nat) (t : Tensor) : result Tensor :=
  match t_shape t with
  | d :: rest =>
      let n := num_elements rest in
      if i <? d then Ok (mkTensor rest (firstn n (skipn (i * n) (t_data t))))
      else Raise IndexError
  | [] => Raise IndexError
  end.

(** [t.set_shape(shape)] on a tensor whose static shape is known. *)
Definition set_shape (t : Tensor) (shape : list nat) : result unit :=
  if shape_eqb (t_shape t) shape then Ok tt else Raise ValueError.

Definition as_tensor (x : value Tensor) : result Tensor :=
  match x with
  | VTensor t => Ok t
  | _ => Raise TypeError
  end.

(** ** The SoftCond layer *)

Record SoftCondParams : Type := {
  sc_name : string;
  sc_num_experts : Z;
  sc_cond_dim : Z;
  sc_is_eval : bool
}.

(** A constructed SoftCondLayer: its parameters, [self.body] and
    [self.body.vars]. *)
Record SoftCondLayer : Type := {
  sc_params : SoftCondParams;
  sc_body : Layer Tensor;
  sc_body_vars : value Tensor
}.

(** [SoftCondLayer._GetExpertDist] *)
Definition _GetExpertDist (self : SoftCondLayer) (theta inputs : value Tensor)
  : result Tensor :=
  rbind (as_tensor inputs) (fun x =>
  rbind (tf_reshape_rows x (sc_cond_dim (sc_params self))) (fun rows =>
  rbind (tf_reduce_sum_0 rows) (fun per_example_emb =>
  rbind (py_getattr "w" theta) (fun w =>
  rbind (as_tensor w) (fun w =>
  rbind (tf_einsum_i_ij_j per_example_emb w) (fun logits =>
  Ok (tf_sigmoid logits))))))).

(** [key in var_set] *)
Definition in_var_set (var_set : list string) (key : string) : bool :=
  existsb (String.eqb key) var_set.

(** The body of the loop of [SoftCondLayer.FProp] over the leaves of
    [theta.body]. *)
Definition SoftCond_blend (expert_dist : Tensor) (var_set : list string)
    (item : string * value Tensor) : result (value Tensor) :=
  let '(key, value) := item in
  if in_var_set var_set key && negb (is_None value)
  then rbind (as_tensor value) (fun v =>
       rbind (tf_einsum_i_iE_E expert_dist v) (fun blended =>
       Ok (VTensor blended)))
  else Ok value.

(** [SoftCondLayer.FProp] *)
Definition SoftCondLayer_FProp (self : SoftCondLayer) (theta inputs : value Tensor)
    (args : list (value Tensor)) : M (fprop_event Tensor) (value Tensor) :=
  let p := sc_params self in
  expert_dist <- lift (_GetExpertDist self theta inputs) ;;
  (if negb (sc_is_eval p) then emit (Histogram expert_dist) else ret tt) ;;;
  vars <- lift (FlattenItems (sc_body_vars self)) ;;
  let var_set := map fst vars in
  theta_body <- lift (py_getattr "body" theta) ;;
  items <- lift (FlattenItems theta_body) ;;
  values <- lift (map_r (SoftCond_blend expert_dist var_set) items) ;;
  weighted_theta <- lift (Pack theta_body values) ;;
  call_fprop "body" (sc_body self) weighted_theta (inputs :: args).

(** What the specification says of the parameter tree handed to the body:
    a leaf that is a registered variable and not [None] has been replaced
    by the weighted sum over its leading axis, any other leaf is the one of
    [theta.body]. *)
Definition blended (expert_dist : Tensor) (var_set : list string)
    (item item' : string * value Tensor) : Prop :=
  fst item' = fst item /\
  if in_var_set var_set (fst item) && negb (is_None (snd item))
  then exists v,
         snd item = VTensor v /\
         tf_einsum_i_iE_E expert_dist v
         = Ok (mkTensor (tl (t_shape v))
                 (weighted_sum (t_data expert_dist)
                    (num_elements (tl (t_shape v))) (t_data v))) /\
         snd item' = VTensor (mkTensor (tl (t_shape v))
                                (weighted_sum (t_data expert_dist)
                                   (num_elements (tl (t_shape v))) (t_data v)))
  else snd item' = snd item.

(** With a single expert: a registered variable that is not [None] holds
    one copy of the parameter under a leading axis of size one, and has
    been replaced by that copy times the gate weight [g]. *)
Definition scaled (g : R) (var_set : list string)
    (item item' : string * value Tensor) : Prop :=
  fst item' = fst item /\
  if in_var_set var_set (fst item) && negb (is_None (snd item))
  then exists rest data,
         snd item = VTensor (mkTensor (1 :: rest) data) /\
         snd item' = VTensor (mkTensor rest (vscale g data))
  else snd item' = snd item.

(** A leaf that has to be blended can be: it is a tensor whose leading
    axis has one slice per gate weight. *)
Definition blendable (expert_dist : Tensor) (var_set : list string)
    (item : string * value Tensor) : Prop :=
  in_var_set var_set (fst item) && negb (is_None (snd item)) = true ->
  exists v b, snd item = VTensor v /\ tf_einsum_i_iE_E expert_dist v = Ok b.

(** With a single expert, a leaf that has to be blended holds one copy of
    the parameter under a leading axis of size one. *)
Definition single_copy (var_set : list string) (item : string * value Tensor)
  : Prop :=
  in_var_set var_set (fst item) && negb (is_None (snd item)) = true ->
  exists rest data,
    snd item = VTensor (mkTensor (1 :: rest) data) /\
    length data = num_elements rest.

(** ** The Repeat layer *)

(** [_MaybeStackExtraTheta]: the leaves of [theta] that are no variable of
    the body, and not [None], are stacked [repeat] times. *)
Definition stack_extra (var_set : list string) (repeat : Z)
    (item : string * value Tensor) : result (value Tensor) :=
  let '(key, value) := item in
  if negb (in_var_set var_set key) && negb (is_None value)
  then rbind (as_tensor value) (fun t =>
       rbind (tf_stack_copies t repeat) (fun stacked =>
       Ok (VTensor stacked)))
  else Ok value.

Definition _MaybeStackExtraTheta (theta all_vars : value Tensor) (repeat : Z)
  : result (value Tensor) :=
  rbind (FlattenItems all_vars) (fun vars =>
  let var_set := map fst vars in
  rbind (FlattenItems theta) (fun items =>
  rbind (map_r (stack_extra var_set repeat) items) (fun values =>
  Pack theta values))).

(** A constructed RepeatLayer: its name, [p.repeat], [self.body] and
    [self.body.vars]. *)
Record RepeatLayer : Type := {
  rl_name : string;
  rl_repeat : Z;
  rl_body : Layer Tensor;
  rl_body_vars : value Tensor
}.

(** ['_s{}'.format(idx)] *)
Definition state_key (idx : nat) : string :=
  String "_" (String "s" (NilEmpty.string_of_uint (Nat.to_uint idx))).

Section RepeatFProp.

(** The arguments [FProp] was called with; the three local functions of
    [FProp] refer to them. *)
Variable args : list (value Tensor).

(** [_ArgsToState]: the state holds the arguments that are not [None],
    each under the key of its index. *)
Definition _ArgsToState (arg_list : list (value Tensor))
  : result (NestedMap Tensor) :=
  fold_r (fun state idx =>
            rbind (index arg_list (Z.of_nat idx)) (fun arg =>
            if is_None arg then Ok state
            else Ok (set_item (state_key idx) arg state)))
         (seq 0 (length args)) [].

(** [arg_list[-1].set_shape(args[idx].shape)] *)
Definition set_shape_like (x like : value Tensor) : result unit :=
  match x with
  | VTensor t =>
      match like with
      | VTensor a => set_shape t (t_shape a)
      | _ => Raise AttributeError
      end
  | _ => Raise AttributeError
  end.

(** [_StateToArgs] *)
Definition _StateToArgs (state : NestedMap Tensor)
  : result (list (value Tensor)) :=
  map_r (fun idx =>
           let attr := state_key idx in
           let x := match lookup attr state with
                    | Some v => v
                    | None => VNone
                    end in
           if is_None x then Ok x
           else rbind (index args (Z.of_nat idx)) (fun like =>
                rbind (set_shape_like x like) (fun _ => Ok x)))
        (seq 0 (length args)).

(** The loop of [_CellFn] over the leaves of [theta_i] and of
    [theta_stack]: [dst.set_shape(src.shape.as_list()[1:])]. *)
Definition set_theta_shapes (theta_i theta_stack : value Tensor) : result unit :=
  fold_r (fun (_ : unit) dst_src =>
            let '(dst, src) := dst_src in
            if is_None src then Ok tt
            else match dst, src with
                 | VTensor d, VTensor s => set_shape d (tl (t_shape s))
                 | _, _ => Raise AttributeError
                 end)
         (combine (Flatten theta_i) (Flatten theta_stack)) tt.

(** [_CellFn] *)
Definition _CellFn (body : Layer Tensor) (theta_stack : value Tensor)
    (state0 : NestedMap Tensor) (theta_i : value Tensor)
  : M (fprop_event Tensor) (NestedMap Tensor) :=
  frop_inputs <- lift (_StateToArgs state0) ;;
  lift (set_theta_shapes theta_i theta_stack) ;;;
  frop_outputs <- call_fprop "body" body theta_i frop_inputs ;;
  let frop_outputs := _ToTuple frop_outputs in
  assert_ (len frop_outputs =? len frop_inputs)%Z ;;;
  lift (_ArgsToState frop_outputs).

End RepeatFProp.

(** The size of the leading axis of a leaf of the scanned inputs. *)
Definition leading_dim (x : value Tensor) : result nat :=
  match x with
  | VTensor t =>
      match t_shape t with
      | d :: _ => Ok d
      | [] => Raise ValueError
      end
  | _ => Raise TypeError
  end.

(** The slice of a leaf for one iteration; a leaf that is [None] stays
    [None]. *)
Definition slice_leaf (i : nat) (x : value Tensor) : result (value Tensor) :=
  match x with
  | VNone => Ok VNone
  | VTensor t => rbind (tf_slice_0 i t) (fun s => Ok (VTensor s))
  | _ => Raise TypeError
  end.

(** Modelled from the spec: [recurrent.Recurrent] of recurrent.py, the scan
    primitive: [cell_fn] is iterated over the leading axis of [inputs],
    iteration [i] receiving the state of the iteration before it and the
    slices at [i] of the leaves of [inputs]; the final state is returned.
    The leaves that are tensors must agree on the size of that axis, and
    there has to be one.  The states accumulated on the way, which
    [RepeatLayer] drops, are left out. *)
Definition Recurrent (state0 : NestedMap Tensor) (inputs : value Tensor)
    (cell_fn : NestedMap Tensor -> value Tensor ->
               M (fprop_event Tensor) (NestedMap Tensor))
  : M (fprop_event Tensor) (NestedMap Tensor) :=
  let leaves := filter (fun x => negb (is_None x)) (Flatten inputs) in
  dims <- lift (map_r leading_dim leaves) ;;
  match dims with
  | [] => raise AssertionError
  | d :: ds =>
      if forallb (Nat.eqb d) ds
      then for_each (seq 0 d)
             (fun state i =>
                slices <- lift (map_r (slice_leaf i) (Flatten inputs)) ;;
                inputs_i <- lift (Pack inputs slices) ;;
                cell_fn state inputs_i)
             state0
      else raise ValueError
  end.

(** [RepeatLayer.FProp] *)
Definition RepeatLayer_FProp (self : RepeatLayer) (theta : value Tensor)
    (args : list (value Tensor)) : M (fprop_event Tensor) (value Tensor) :=
  theta_body <- lift (py_getattr "body" theta) ;;
  theta_stack <- lift (_MaybeStackExtraTheta theta_body (rl_body_vars self)
                         (rl_repeat self)) ;;
  state0 <- lift (_ArgsToState args args) ;;
  state1 <- Recurrent state0 theta_stack
              (_CellFn args (rl_body self) theta_stack) ;;
  output_tensors <- lift (_StateToArgs args state1) ;;
  if (len args =? 1)%Z then lift (index output_tensors 0)
  else ret (VTuple output_tensors).

(** Every call logged was made with [n] inputs, and returned [n] outputs
    unless the run ended in a failed assertion. *)
Definition arity_checked {A} (n : nat) (run : M (fprop_event Tensor) A) : Prop :=
  forall name th ins res,
    In (FPropCall name th ins res) (fst run) ->
    length ins = n /\
    forall out, res = Ok out ->
      length (_ToTuple out) = n \/ snd run = Raise AssertionError.

Definition is_Tuple {T} (x : value T) : bool :=
  match x with VTuple _ => true | _ => false end.

(** ** Sequential, UnarySequential and Parallel: construction and forward pass *)

(** [args[0] if len(args) == 1 else args] *)
Definition unwrap_single {T} (args : list (value T)) : value T :=
  match args with
  | [a] => a
  | _ => VTuple args
  end.

(** ['%03d' % i] *)
Definition three_digits (i : nat) : string :=
  let d := NilEmpty.string_of_uint (Nat.to_uint i) in
  if i <? 10 then String "0" (String "0" d)
  else if i <? 100 then String "0" d
  else d.

(** A constructed SequentialLayer: its parameters, [self._seq] (set when
    [repeat <= 1]) and [self.rep] (set otherwise), whose entries are
    SequentialLayers with [repeat = 1], each held as its name and its own
    [_seq]. *)
Record SequentialLayer (T S : Type) : Type := {
  sl_params : SequentialParams S;
  sl_seq : list (string * Layer T);
  sl_rep : list (string * list (string * Layer T))
}.

Record UnarySequentialParams (S : Type) : Type := {
  useq_name : string;
  useq_sub : list (LayerParams S)
}.

(** What [UnarySequentialLayer.FPropMeta] returns: [out_shapes] is
    whatever the last sub-layer was asked about or reported, a descriptor
    or a tuple of them. *)
Record UnaryMeta (S : Type) : Type := mkUnaryMeta {
  u_flops : Z;
  u_out_shapes : value S
}.

(** [merge] and [merge_meta] are callables handed in with the
    parameters. *)
Record ParallelParams (T S : Type) : Type := {
  par_name : string;
  par_sub : list (LayerParams S);
  par_merge : list (list (value T)) -> result (list (value T));
  par_merge_meta : list (list (value S)) -> result (Meta S)
}.

Section Chains.

Variables T S : Type.
Variable CheckShapes : list (value S) -> bool.
Variable CreateChild :
  list (string * Layer T) -> string -> LayerParams S -> result (Layer T).

(** The loop the three constructors share:
    [for sub in p.sub: self.CreateChild(sub.name, sub);
     self._seq.append((sub.name, self.children[sub.name]))] *)
Definition make_seq (subs : list (LayerParams S))
  : result (list (string * Layer T)) :=
  fold_r (fun _seq sub =>
            rbind (CreateChild _seq (lp_name sub) sub) (fun child =>
            Ok (_seq ++ [(lp_name sub, child)])))
         subs [].

(** [SequentialLayer.__init__] with [repeat <= 1], which is also the
    constructor of each repetition. *)
Definition Sequential_init_flat (name : string) (subs : list (LayerParams S))
  : result (list (string * Layer T)) :=
  rbind (rassert (negb (name =? EmptyString)%string)) (fun _ =>
  make_seq subs).

(** [SequentialLayer.__init__]; with [repeat > 1] the children are copies
    of the parameters named ['%03d' % i] with [repeat = 1], constructed in
    turn by [CreateChildren]. *)
Definition SequentialLayer_init (p : SequentialParams S)
  : result (SequentialLayer T S) :=
  if (seq_repeat p <=? 1)%Z
  then rbind (Sequential_init_flat (seq_name p) (seq_sub p)) (fun _seq =>
       Ok {| sl_params := p; sl_seq := _seq; sl_rep := [] |})
  else rbind (rassert (negb (seq_name p =? EmptyString)%string)) (fun _ =>
       rbind (map_r (fun i =>
                       let name := three_digits (Z.to_nat i) in
                       rbind (Sequential_init_flat name (seq_sub p))
                         (fun _seq => Ok (name, _seq)))
                    (range (seq_repeat p))) (fun rep =>
       Ok {| sl_params := p; sl_seq := []; sl_rep := rep |})).

(** The body of the loop over [self._seq]: [th = theta[name];
    args = _ToTuple(args); args = ch.FProp(th, *args)]. *)
Definition Sequential_FProp_step (theta : value T) (args : value T)
    (entry : string * Layer T) : M (fprop_event T) (value T) :=
  let '(name, ch) := entry in
  th <- lift (py_getitem name theta) ;;
  call_fprop name ch th (_ToTuple args).

(** [SequentialLayer.FProp] of a layer with [repeat <= 1]. *)
Definition Sequential_FProp_flat (_seq : list (string * Layer T))
    (theta : value T) (args : list (value T)) : M (fprop_event T) (value T) :=
  out <- for_each _seq (Sequential_FProp_step theta) (VTuple args) ;;
  ret (unwrap_single (_ToTuple out)).

(** The body of the loop over [zip(self.rep, theta.rep)]: each [ch] is a
    SequentialLayer with [repeat = 1]. *)
Definition Sequential_rep_step (args : value T)
    (entry : (string * list (string * Layer T)) * value T)
  : M (fprop_event T) (value T) :=
  let '((_, _seq), th) := entry in
  Sequential_FProp_flat _seq th (_ToTuple args).

(** [SequentialLayer.FProp]; the list [theta.rep] is held as a tuple. *)
Definition SequentialLayer_FProp (self : SequentialLayer T S) (theta : value T)
    (args : list (value T)) : M (fprop_event T) (value T) :=
  if (seq_repeat (sl_params self) <=? 1)%Z
  then Sequential_FProp_flat (sl_seq self) theta args
  else
    theta_rep <- lift (py_getattr "rep" theta) ;;
    ths <- lift (py_iter theta_rep) ;;
    out <- for_each (combine (sl_rep self) ths) Sequential_rep_step
             (VTuple args) ;;
    ret (unwrap_single (_ToTuple out)).

(** [UnarySequentialLayer.__init__] *)
Definition UnarySequentialLayer_init (p : UnarySequentialParams S)
  : result (list (string * Layer T)) :=
  rbind (rassert (negb (useq_name p =? EmptyString)%string)) (fun _ =>
  make_seq (useq_sub p)).

(** The body of the loop of [UnarySequentialLayer.FProp]. *)
Definition Unary_FProp_step (theta : value T) (x : value T)
    (entry : string * Layer T) : M (fprop_event T) (value T) :=
  let '(name, ch) := entry in
  th <- lift (py_getitem name theta) ;;
  call_fprop name ch th [x].

(** [UnarySequentialLayer.FProp]; [_seq] is [self._seq]. *)
Definition UnarySequentialLayer_FProp (_seq : list (string * Layer T))
    (theta : value T) (x : value T) : M (fprop_event T) (value T) :=
  for_each _seq (Unary_FProp_step theta) x.

(** The body of the loop of [UnarySequentialLayer.FPropMeta]: the tuple
    [meta.out_shapes] becomes [x], the one argument of the next call. *)
Definition Unary_meta_step (st : Z * value S) (sub : LayerParams S)
  : M (meta_event S) (Z * value S) :=
  let '(total, x) := st in
  meta <- call_meta sub [x] ;;
  ret ((total + flops meta)%Z, VTuple (out_shapes meta)).

(** [UnarySequentialLayer.FPropMeta] *)
Definition UnarySequentialLayer_FPropMeta (p : UnarySequentialParams S)
    (x : value S) : M (meta_event S) (UnaryMeta S) :=
  st <- for_each (useq_sub p) Unary_meta_step (0%Z, x) ;;
  ret (mkUnaryMeta (fst st) (snd st)).

(** [ParallelLayer.__init__] *)
Definition ParallelLayer_init (p : ParallelParams T S)
  : result (list (string * Layer T)) :=
  rbind (rassert (negb (par_name p =? EmptyString)%string)) (fun _ =>
  make_seq (par_sub p)).

(** The body of the loop of [ParallelLayer.FProp]; an output that is a
    tuple is kept, any other is wrapped in one. *)
Definition Parallel_FProp_step (theta : value T) (args : list (value T))
    (outputs : list (list (value T))) (entry : string * Layer T)
  : M (fprop_event T) (list (list (value T))) :=
  let '(name, ch) := entry in
  th <- lift (py_getitem name theta) ;;
  out <- call_fprop name ch th args ;;
  ret (outputs ++ [_ToTuple out]).

(** [ParallelLayer.FProp]; [_seq] is [self._seq]. *)
Definition ParallelLayer_FProp (p : ParallelParams T S)
    (_seq : list (string * Layer T)) (theta : value T) (args : list (value T))
  : M (fprop_event T) (value T) :=
  outputs <- for_each _seq (Parallel_FProp_step theta args) [] ;;
  rets <- lift (par_merge p outputs) ;;
  if (len rets >? 1)%Z then ret (VTuple rets) else lift (index rets 0).

(** The body of the loop of [ParallelLayer.FPropMeta]. *)
Definition Parallel_meta_step (args : list (value S))
    (st : Z * list (list (value S))) (sub : LayerParams S)
  : M (meta_event S) (Z * list (list (value S))) :=
  let '(total, outputs) := st in
  meta <- call_meta sub args ;;
  assert_ (CheckShapes (out_shapes meta)) ;;;
  ret ((total + flops meta)%Z, outputs ++ [out_shapes meta]).

(** [ParallelLayer.FPropMeta] *)
Definition ParallelLayer_FPropMeta (p : ParallelParams T S)
    (args : list (value S)) : M (meta_event S) (Meta S) :=
  assert_ (CheckShapes args) ;;;
  st <- for_each (par_sub p) (Parallel_meta_step args) (0%Z, []) ;;
  meta <- lift (par_merge_meta p (snd st)) ;;
  assert_ (CheckShapes (out_shapes meta)) ;;;
  ret (mkMeta (flops meta + fst st) (out_shapes meta)).

End Chains.

(** The name under which a call was logged. *)
Definition fprop_call_name {T} (ev : fprop_event T) : option string :=
  match ev with
  | FPropCall name _ _ _ => Some name
  | _ => None
  end.

Definition meta_call_name {S} (ev : meta_event S) : string :=
  match ev with MetaCall name _ _ => name end.

(** The cost a logged call reported, zero for a call that raised. *)
Definition meta_call_flops {S} (ev : meta_event S) : Z :=
  match ev with
  | MetaCall _ _ (Ok meta) => flops meta
  | MetaCall _ _ (Raise _) => 0%Z
  end.

Definition logged_flops {S} (log : list (meta_event S)) : Z :=
  fold_right Z.add 0%Z (map meta_call_flops log).

(** The forward pass of a chain, by hand: each sub-layer is called on its
    entry of [theta] and on the outputs of the one before it, a single
    output counting as a tuple of one. *)
Inductive fprop_threads {T} (theta : value T)
  : list (string * Layer T) -> value T -> list (fprop_event T) -> value T ->
    Prop :=
| fprop_threads_nil : forall x, fprop_threads theta [] x [] x
| fprop_threads_cons : forall name ch _seq x th y log z,
    py_getitem name theta = Ok th ->
    layer_FProp ch th (_ToTuple x) = Ok y ->
    fprop_threads theta _seq y log z ->
    fprop_threads theta ((name, ch) :: _seq) x
      (FPropCall name th (_ToTuple x) (Ok y) :: log) z.

(** A value other than a tuple whose only entry is a tuple. *)
Definition plain {T} (x : value T) : bool :=
  match x with
  | VTuple [VTuple _] => false
  | _ => true
  end.

(** A sub-layer none of whose results is a tuple whose only entry is a
    tuple. *)
Definition returns_plain {T} (ch : Layer T) : Prop :=
  forall th args y, layer_FProp ch th args = Ok y -> plain y = true.

(** A sub-layer that never returns a tuple. *)
Definition returns_no_tuple {T} (ch : Layer T) : Prop :=
  forall th args y, layer_FProp ch th args = Ok y -> is_Tuple y = false.

(** ** Map, Branch, Fn, Rematerialization and PrintShape *)

(** [fn] takes the keyword arguments [kwargs]; [fn_meta] returns a pair
    of a cost and a shape. *)
Record MapParams (T S K : Type) : Type := {
  map_name : string;
  map_fn : K -> value T -> result (value T);
  map_fn_meta : value S -> result (Z * value S);
  map_kwargs : K
}.

Section Wrappers.

Variables T S K : Type.
Variable CheckShapes : list (value S) -> bool.

(** [MapLayer.FProp] *)
Definition MapLayer_FProp (p : MapParams T S K) (theta : value T)
    (args : list (value T)) : result (value T) :=
  rbind (map_r (fun x => if is_None x then Ok VNone
                         else map_fn p (map_kwargs p) x) args) (fun ret =>
  if (len ret >? 1)%Z then Ok (VTuple ret) else index ret 0).

(** The body of the loop of [MapLayer.FPropMeta]. *)
Definition Map_meta_step (p : MapParams T S K) (st : Z * list (value S))
    (x : value S) : result (Z * list (value S)) :=
  let '(flops, rets) := st in
  if is_None x then Ok (flops, rets ++ [VNone])
  else rbind (map_fn_meta p x) (fun cs =>
       let '(cost, shape) := cs in
       rbind (rassert (CheckShapes [shape])) (fun _ =>
       Ok ((flops + cost)%Z, rets ++ [shape]))).

(** [MapLayer.FPropMeta] *)
Definition MapLayer_FPropMeta (p : MapParams T S K) (args : list (value S))
  : result (Meta S) :=
  rbind (fold_r (Map_meta_step p) args (0%Z, [])) (fun st =>
  Ok (mkMeta (fst st) (snd st))).

(** [self.body.GetDescendant(fetch).activation], of base_layer.py. *)
Variable fetch_activation : string -> result (value T).

(** [BranchLayer.FProp]; [body] is [self.body]. *)
Definition BranchLayer_FProp (body : Layer T) (fetches : list string)
    (theta : value T) (args : list (value T)) : M (fprop_event T) (value T) :=
  theta_body <- lift (py_getattr "body" theta) ;;
  out <- call_fprop "body" body theta_body args ;;
  args <- lift (fold_r (fun args fetch =>
                          rbind (fetch_activation fetch) (fun a =>
                          Ok (args ++ [a])))
                       fetches (_ToTuple out)) ;;
  ret (VTuple args).

(** Modelled from the spec: [py_utils.RematerializeFn], which on the
    forward pass is the call of [fn] on the arguments handed with it. *)
Definition RematerializeFn {A} (fn : list (value T) -> A)
    (xs : list (value T)) : A := fn xs.

(** The local function [Fn] of [RematerializationLayer.FProp]:
    [args[:theta_len]] are packed into the tree of [theta.body],
    [args[theta_len:input_len]] are the inputs of the body. *)
Definition Remat_Fn (body : Layer T) (theta_body : value T)
    (theta_len input_len : nat) (args : list (value T))
  : M (fprop_event T) (value T) :=
  body_theta <- lift (Pack theta_body (firstn theta_len args)) ;;
  call_fprop "body" body body_theta (skipn theta_len (firstn input_len args)).

(** [theta.body.Flatten()], a method of NestedMap. *)
Definition Flatten_method (x : value T) : result (list (value T)) :=
  match x with
  | VMap _ => Ok (Flatten x)
  | _ => Raise AttributeError
  end.

(** [RematerializationLayer.FProp]; [body] is [self.body]. *)
Definition RematerializationLayer_FProp (body : Layer T) (theta : value T)
    (xs : list (value T)) : M (fprop_event T) (value T) :=
  theta_body <- lift (py_getattr "body" theta) ;;
  input_list <- lift (Flatten_method theta_body) ;;
  let theta_len := length input_list in
  let input_list := input_list ++ xs in
  let input_len := length input_list in
  RematerializeFn (Remat_Fn body theta_body theta_len input_len) input_list.

(** [PrintShapeLayer.FProp]; the lines it writes to the log are left
    out. *)
Definition PrintShapeLayer_FProp (theta : value T) (args : list (value T))
  : result (value T) :=
  Ok (unwrap_single args).

(** [PrintShapeLayer.FPropMeta] *)
Definition PrintShapeLayer_FPropMeta (args : list (value S))
  : result (Meta S) :=
  rbind (rassert (CheckShapes args)) (fun _ =>
  Ok (mkMeta 0 args)).

End Wrappers.

(** [PrintShape] as the sub-layer of a composer. *)
Definition print_shape_params {S} (CheckShapes : list (value S) -> bool)
    (name : string) : LayerParams S :=
  {| lp_name := name; lp_FPropMeta := PrintShapeLayer_FPropMeta CheckShapes |}.

Definition print_shape_layer {T} : Layer T :=
  {| layer_FProp := @PrintShapeLayer_FProp T |}.

(** [p.Copy().Set(repeat=r)] *)
Definition with_repeat {S} (p : SequentialParams S) (r : Z)
  : SequentialParams S :=
  {| seq_name := seq_name p; seq_sub := seq_sub p; seq_repeat := r |}.

(** [p.Copy().Set(sub=subs)] *)
Definition with_sub {S} (p : SequentialParams S) (subs : list (LayerParams S))
  : SequentialParams S :=
  {| seq_name := seq_name p; seq_sub := subs; seq_repeat := seq_repeat p |}.

(** The arguments of a logged call, and the shapes it reported. *)
Definition meta_call_args {S} (ev : meta_event S) : list (value S) :=
  match ev with MetaCall _ args _ => args end.

Definition meta_call_out_shapes {S} (ev : meta_event S) : list (value S) :=
  match ev with
  | MetaCall _ _ (Ok meta) => out_shapes meta
  | MetaCall _ _ (Raise _) => []
  end.

(** Shape inference along a chain whose sub-layers take one argument: the
    first is asked about [x], each later one about the tuple of shapes the
    one before it reported. *)
Inductive unary_meta_chain {S}
  : list (LayerParams S) -> value S -> list (meta_event S) -> value S -> Prop :=
| unary_meta_chain_nil : forall x, unary_meta_chain [] x [] x
| unary_meta_chain_cons : forall sub subs x meta log z,
    lp_FPropMeta sub [x] = Ok meta ->
    unary_meta_chain subs (VTuple (out_shapes meta)) log z ->
    unary_meta_chain (sub :: subs) x
      (MetaCall (lp_name sub) [x] (Ok meta) :: log) z.

(** The sub-layers of a [Parallel], each called on its entry of [theta]
    and on the same inputs; [outs] are their outputs, each as a tuple. *)
Inductive parallel_calls {T} (theta : value T) (args : list (value T))
  : list (string * Layer T) -> list (fprop_event T) ->
    list (list (value T)) -> Prop :=
| parallel_calls_nil : parallel_calls theta args [] [] []
| parallel_calls_cons : forall name ch _seq th y log outs,
    py_getitem name theta = Ok th ->
    layer_FProp ch th args = Ok y ->
    parallel_calls theta args _seq log outs ->
    parallel_calls theta args ((name, ch) :: _seq)
      (FPropCall name th args (Ok y) :: log) (_ToTuple y :: outs).

(** What [MapLayer] does at one position: [None] stays, anything else goes
    through [fn]. *)
Definition mapped {T S K} (p : MapParams T S K) (x y : value T) : Prop :=
  if is_None x then y = VNone else map_fn p (map_kwargs p) x = Ok y.

(** The cost [fn_meta] reports for one shape, zero for [None]. *)
Definition map_cost {T S K} (p : MapParams T S K) (x : value S) : Z :=
  if is_None x then 0%Z
  else match map_fn_meta p x with
       | Ok (cost, _) => cost
       | Raise _ => 0%Z
       end.

(** The shape [MapLayer.FPropMeta] reports at one position. *)
Definition mapped_shape {T S K} (CheckShapes : list (value S) -> bool)
    (p : MapParams T S K) (x s : value S) : Prop :=
  if is_None x then s = VNone
  else exists cost, map_fn_meta p x = Ok (cost, s) /\ CheckShapes [s] = true.

(** ** More on the Graph layer *)

(** What [GraphLayer.FProp] asks of an input: a tensor, or a NestedMap all
    of whose leaves are tensors. *)
Definition graph_input_ok {T} (t : value T) : bool :=
  match t with
  | VMap _ => forallb is_Tensor (Flatten t)
  | _ => is_Tensor t
  end.

(** The name the constructor of the Graph layer settles on for the entry
    at position [i] of [p.sub]. *)
Definition graph_child_name {S} (i : nat) (entry : string * LayerParams S)
  : result string :=
  if (lp_name (snd entry) =? EmptyString)%string
  then default_name (fst entry) i
  else Ok (lp_name (snd entry)).

(** The characters of a dotted identifier: letters, digits, the
    underscore and the dot. *)
Definition name_char (c : ascii) : bool := id_tail c || Ascii.eqb c ".".

(** A character other than [c]. *)
Definition other_than (c : ascii) (a : ascii) : bool := negb (Ascii.eqb a c).

(** A name as it may stand in a signature: white space around it, and
    neither a comma nor a dash in it. *)
Definition padded (written name : string) : Prop :=
  strip written = name /\
  all_chars (other_than ",") written /\
  all_chars (other_than "-") written.

(** ** More on the selectors, Repeat and BatchParallel *)

(** [ArgIndexLayer.__init__] *)
Definition ArgIndexLayer_init (p : ArgIndexParams) : result unit :=
  rbind (rassert (negb (argindex_name p =? EmptyString)%string)) (fun _ =>
  rassert (negb (Nat.eqb (length (argindex_idx p)) 0))).

(** What [_MaybeStackExtraTheta] leaves of a leaf: a variable of the body,
    or a [None], as it is; any other leaf, a tensor, [repeat] times over
    under a new leading axis. *)
Definition stacked (repeat : Z) (var_set : list string)
    (item item' : string * value Tensor) : Prop :=
  fst item' = fst item /\
  if negb (in_var_set var_set (fst item)) && negb (is_None (snd item))
  then exists t,
         snd item = VTensor t /\
         snd item' = VTensor (mkTensor (Z.to_nat repeat :: t_shape t)
                                (concat (List.repeat (t_data t)
                                           (Z.to_nat repeat))))
  else snd item' = snd item.

(** What a shard hands on: [list(ys)] for a tuple, [ys] for one tensor. *)
Definition shard_of {T} (ys : value T) : shard_output T :=
  match ys with
  | VTuple l => ShardList l
  | _ => ShardOne ys
  end.

(** The log of the loop over the shards: for each, the device it is
    placed on and the call of the sub-layer. *)
Definition shard_events {T} (sub : Layer T) (th : value T)
    (entry : nat * list (value T)) : list (fprop_event T) :=
  [OnDevice (fst entry);
   FPropCall "sub" th (snd entry) (layer_FProp sub th (snd entry))].

(** [tuple(ret) if isinstance(ret, list) else ret] *)
Definition joined_value {T} (joined : shard_output T) : value T :=
  match joined with
  | ShardList l => VTuple l
  | ShardOne y => y
  end.

(** The calls of the body in a log. *)
Definition is_body_call {T} (ev : fprop_event T) : bool :=
  match ev with
  | FPropCall name _ _ _ => String.eqb name "body"
  | _ => false
  end.

(** The signatures of a chain: each sub-layer reads the name before it
    and writes the name after it. *)
Fixpoint chain_sigs (names : list string) : list string :=
  match names with
  | x :: (y :: _) as rest =>
      String.append x (String.append "->" y) :: chain_sigs rest
  | _ => []
  end.

(** A [Sequential] as the sub-layer of another composer, as shape
    inference sees it: [sub.cls.FPropMeta(sub, *args)]. *)
Definition sequential_as_sub {S} (CheckShapes : list (value S) -> bool)
    (p : SequentialParams S) : LayerParams S :=
  {| lp_name := seq_name p;
     lp_FPropMeta := fun args =>
       snd (SequentialLayer_FPropMeta CheckShapes p args) |}.


(** ** The namespace of the Graph layer, with NestedMaps as objects *)

(** [AddNamedTensor] changes NestedMaps in place and stores the values it
    is handed as they are.  The NestedMap found under one name can so come
    to be held under a second name as well, and what is then written below
    one of the two names is there below both.  The definitions of this
    module follow that: the NestedMaps of a run live in a store, a value
    names a NestedMap by its address, and a write changes the store. *)
Module Store.

Inductive ovalue (T : Type) : Type :=
| ONone
| OTensor (t : T)
| OStr (s : string)
| OTuple (vs : list (ovalue T))
| ORef (a : nat).

Arguments ONone {T}.
Arguments OStr {T} s.
Arguments ORef {T} a.

(** The NestedMaps made so far, each held as the list of its items, at
    the position that is its address. *)
Definition heap (T : Type) : Type := list (list (string * ovalue T)).

Definition is_OTensor {T} (x : ovalue T) : bool :=
  match x with OTensor _ => true | _ => false end.


Definition is_OStr {T} (n : string) (x : ovalue T) : bool :=
  match x with OStr s => String.eqb s n | _ => false end.

Section Objects.

Context {T : Type}.

Fixpoint lookup (n : string) (m : list (string * ovalue T)) : option (ovalue T) :=
  match m with
  | [] => None
  | (k, v) :: m' => if String.eqb n k then Some v else lookup n m'
  end.

(** [m[n] = v] on a dictionary. *)
Fixpoint set_item (n : string) (v : ovalue T) (m : list (string * ovalue T))
  : list (string * ovalue T) :=
  match m with
  | [] => [(n, v)]
  | (k, x) :: m' =>
      if String.eqb n k then (k, v) :: m' else (k, x) :: set_item n v m'
  end.

(** The store in which the NestedMap at address [a] has become [m]. *)
Fixpoint update (a : nat) (m : list (string * ovalue T)) (h : heap T) : heap T :=
  match h, a with
  | [], _ => []
  | _ :: h', O => m :: h'
  | x :: h', Datatypes.S a' => x :: update a' m h'
  end.

(** [NestedMap.__setitem__] belongs to py_utils.py, which is outside this
    file, and may refuse a key: which keys it accepts, and what it raises
    on the others, is left open. *)
Variable check_key : string -> result unit.

(** [n in x] for a string [n]: a key of a NestedMap, an element of a
    tuple, a substring of a string; a tensor of the graph being built is
    not iterable, and neither is [None].  (An address outside the store
    names no object; no run makes one.) *)
Definition o_contains (h : heap T) (n : string) (x : ovalue T) : result bool :=
  match x with
  | ORef a =>
      match nth_error h a with
      | Some m => Ok (match lookup n m with Some _ => true | None => false end)
      | None => Raise TypeError
      end
  | OTuple vs => Ok (existsb (is_OStr n) vs)
  | OStr s => Ok (contains_str n s)
  | OTensor _ => Raise TypeError
  | ONone => Raise TypeError
  end.

(** [x[n]] for a string [n]. *)
Definition o_getitem (h : heap T) (n : string) (x : ovalue T)
  : result (ovalue T) :=
  match x with
  | ORef a =>
      match nth_error h a with
      | Some m =>
          match lookup n m with
          | Some v => Ok v
          | None => Raise KeyError
          end
      | None => Raise TypeError
      end
  | _ => Raise TypeError
  end.

(** [x[n] = v] for a string [n]: the NestedMap [x] is changed in the
    store. *)
Definition o_setitem (n : string) (v : ovalue T) (x : ovalue T) (h : heap T)
  : result (heap T) :=
  match x with
  | ORef a =>
      match nth_error h a with
      | Some m =>
          rbind (check_key n) (fun _ => Ok (update a (set_item n v m) h))
      | None => Raise TypeError
      end
  | _ => Raise TypeError
  end.

(** [len(x)] *)
Definition o_len (h : heap T) (x : ovalue T) : result Z :=
  match x with
  | OTuple vs => Ok (len vs)
  | ORef a =>
      match nth_error h a with
      | Some m => Ok (len m)
      | None => Raise TypeError
      end
  | OStr s => Ok (Z.of_nat (String.length s))
  | OTensor _ => Raise TypeError
  | ONone => Raise TypeError
  end.

Fixpoint chars (s : string) : list (ovalue T) :=
  match s with
  | EmptyString => []
  | String c s' => OStr (String c EmptyString) :: chars s'
  end.

(** [list(x)]: the elements of a tuple, the keys of a NestedMap, the
    characters of a string. *)
Definition o_iter (h : heap T) (x : ovalue T) : result (list (ovalue T)) :=
  match x with
  | OTuple vs => Ok vs
  | ORef a =>
      match nth_error h a with
      | Some m => Ok (map (fun kv => OStr (fst kv)) m)
      | None => Raise TypeError
      end
  | OStr s => Ok (chars s)
  | OTensor _ => Raise TypeError
  | ONone => Raise TypeError
  end.

(** The loops of [AddNamedTensor] over [names], [cur] being the
    NestedMap reached so far.  [py_utils.NestedMap()] makes a new object,
    which receives the next free address. *)
Fixpoint add_names (names : list string) (t : ovalue T) (cur : ovalue T)
    (h : heap T) : result (heap T) :=
  match names with
  | [] => Raise IndexError
  | [n] =>
      rbind (o_contains h n cur) (fun c =>
      rbind (rassert (negb c)) (fun _ =>
      o_setitem n t cur h))
  | n :: rest =>
      rbind (o_contains h n cur) (fun c =>
      rbind (if negb c
             then o_setitem n (ORef (length h)) cur (h ++ [[]])
             else Ok h) (fun h1 =>
      rbind (o_getitem h1 n cur) (fun sub =>
      add_names rest t sub h1)))
  end.

(** [GraphLayer.AddNamedTensor] *)
Definition AddNamedTensor (path : string) (t : ovalue T)
    (named_tensors : ovalue T) (h : heap T) : result (heap T) :=
  add_names (path_names path) t named_tensors h.

(** The loop of [GetNamedTensor]. *)
Fixpoint get_names (h : heap T) (names : list string) (cur : ovalue T)
  : result (ovalue T) :=
  match names with
  | [] => Ok cur
  | n :: rest =>
      match cur with
      | ORef a =>
          match nth_error h a with
          | Some m =>
              match lookup n m with
              | Some v => get_names h rest v
              | None => Raise AssertionError
              end
          | None => Raise AssertionError
          end
      | _ => Raise AssertionError
      end
  end.

(** [GraphLayer.GetNamedTensor] *)
Definition GetNamedTensor (h : heap T) (named_tensors : ovalue T)
    (path : string) : result (ovalue T) :=
  get_names h (path_names path) named_tensors.

(** [for n, t in items: AddNamedTensor(p, n, t, named_tensors)] *)
Definition add_all (named_tensors : ovalue T)
    (items : list (string * ovalue T)) (h : heap T) : result (heap T) :=
  fold_r (fun h item => AddNamedTensor (fst item) (snd item) named_tensors h)
         items h.

(** What it means for the namespace [ns] to hold [w] under a list of
    names in the store [h]: every name but the last leads to a NestedMap,
    and the last one is a key of the NestedMap reached. *)
Inductive bound (h : heap T) : ovalue T -> list string -> ovalue T -> Prop :=
| bound_here : forall v, bound h v [] v
| bound_step : forall a m n v rest w,
    nth_error h a = Some m -> lookup n m = Some v -> bound h v rest w ->
    bound h (ORef a) (n :: rest) w.

Definition exists_in (h : heap T) (ns : ovalue T) (names : list string) : Prop :=
  exists v, bound h ns names v.

End Objects.

(** What [FPropMeta] returns. *)
Record Meta (S : Type) : Type := mkMeta {
  flops : Z;
  out_shapes : list (ovalue S)
}.

(** A sub-layer as [FPropMeta] sees it.  It is handed the store, in which
    it can look up the NestedMaps among its arguments, and returns with its
    result the NestedMaps it has made, which are put into the store after
    those that are there.  A sub-layer changes no NestedMap it is
    handed. *)
Record LayerParams (S : Type) : Type := {
  lp_name : string;
  lp_FPropMeta : heap S -> list (ovalue S) -> result (Meta S * heap S)
}.

(** An instantiated sub-layer, as [FProp] sees it. *)
Record Layer (T : Type) : Type := {
  layer_FProp : value T -> heap T -> list (ovalue T) ->
                result (ovalue T * heap T)
}.

Inductive meta_event (S : Type) : Type :=
| MetaCall (name : string) (args : list (ovalue S)) (out : result (Meta S)).

Inductive fprop_event (T : Type) : Type :=
| FPropCall (name : string) (theta : value T) (args : list (ovalue T))
            (out : result (ovalue T)).

Definition call_meta {S} (sub : LayerParams S) (h : heap S)
    (args : list (ovalue S)) : M (meta_event S) (Meta S * heap S) :=
  match lp_FPropMeta sub h args with
  | Ok (meta, made) =>
      ([MetaCall (lp_name sub) args (Ok meta)], Ok (meta, h ++ made))
  | Raise e => ([MetaCall (lp_name sub) args (Raise e)], Raise e)
  end.

Definition call_fprop {T} (name : string) (ch : Layer T) (th : value T)
    (h : heap T) (args : list (ovalue T))
  : M (fprop_event T) (ovalue T * heap T) :=
  match layer_FProp ch th h args with
  | Ok (out, made) => ([FPropCall name th args (Ok out)], Ok (out, h ++ made))
  | Raise e => ([FPropCall name th args (Raise e)], Raise e)
  end.

Record GraphParams (S : Type) : Type := {
  graph_name : string;
  input_endpoints : list string;
  output_endpoints : list string;
  graph_sub : list (string * LayerParams S)
}.

(** A constructed GraphLayer: its parameters and [self._seq]. *)
Record GraphLayer (T S : Type) : Type := {
  graph_params : GraphParams S;
  graph_seq : list (string * Layer T)
}.

Section Graph.

Variables T S : Type.
Variable check_key : string -> result unit.

(** [NestedMap.Flatten] of py_utils.py, which is outside this file: the
    leaves of the NestedMap at an address. *)
Variable Flatten : heap T -> nat -> result (list (ovalue T)).

(** [py_utils.CheckShapes] *)
Variable CheckShapes : heap S -> list (ovalue S) -> bool.

(** The first loop of [GraphLayer.FProp]: an input is a tensor or a
    NestedMap of tensors, and is stored under its endpoint name. *)
Definition add_input (nt : ovalue T) (h : heap T) (item : string * ovalue T)
  : result (heap T) :=
  let '(n, t) := item in
  rbind (match t with
         | ORef a =>
             rbind (Flatten h a) (fun leaves =>
             rassert (forallb is_OTensor leaves))
         | _ => rassert (is_OTensor t)
         end) (fun _ =>
  AddNamedTensor check_key n t nt h).

(** The body of the second loop of [GraphLayer.FProp]; [nt] is
    [named_tensors]. *)
Definition Graph_FProp_step (p : GraphParams S) (theta : value T)
    (nt : ovalue T) (h : heap T) (entry : nat * (string * Layer T))
  : M (fprop_event T) (heap T) :=
  let '(i, (name, ch)) := entry in
  th <- lift (py_getitem name theta) ;;
  sg <- lift (index (graph_sub p) (Z.of_nat i)) ;;
  io <- lift (ParseSignature (fst sg)) ;;
  let '(i_tensors, o_tensors) := io in
  input_args <- lift (map_r (GetNamedTensor h nt) i_tensors) ;;
  r <- call_fprop name ch th h input_args ;;
  let '(ch_out, h) := r in
  let ch_out := if (len o_tensors =? 1)%Z then OTuple [ch_out] else ch_out in
  n <- lift (o_len h ch_out) ;;
  assert_ (n =? len o_tensors)%Z ;;;
  outs <- lift (o_iter h ch_out) ;;
  lift (add_all check_key nt (combine o_tensors outs) h).

(** [GraphLayer.FProp], called when the store is [h0]; the result comes
    with the store the run leaves. *)
Definition GraphLayer_FProp (self : GraphLayer T S) (theta : value T)
    (h0 : heap T) (args : list (ovalue T))
  : M (fprop_event T) (ovalue T * heap T) :=
  let p := graph_params self in
  let nt := ORef (length h0) in
  assert_ (len (input_endpoints p) =? len args)%Z ;;;
  h <- lift (fold_r (add_input nt) (combine (input_endpoints p) args)
                    (h0 ++ [[]])) ;;
  h <- for_each (enumerate (graph_seq self)) (Graph_FProp_step p theta nt) h ;;
  layer_out <- lift (map_r (GetNamedTensor h nt) (output_endpoints p)) ;;
  if (len layer_out =? 1)%Z
  then x <- lift (index layer_out 0) ;; ret (x, h)
  else ret (OTuple layer_out, h).

(** The body of the second loop of [GraphLayer.FPropMeta]; the state is
    [total] and the store. *)
Definition Graph_meta_step (nt : ovalue S) (st : Z * heap S)
    (entry : string * LayerParams S) : M (meta_event S) (Z * heap S) :=
  let '(total, h) := st in
  let '(signature, sub) := entry in
  io <- lift (ParseSignature signature) ;;
  let '(i_tensors, o_tensors) := io in
  input_args <- lift (map_r (GetNamedTensor h nt) i_tensors) ;;
  r <- call_meta sub h input_args ;;
  let '(meta, h) := r in
  let ch_out := out_shapes meta in
  assert_ (len ch_out =? len o_tensors)%Z ;;;
  h <- lift (add_all check_key nt (combine o_tensors ch_out) h) ;;
  ret ((total + flops meta)%Z, h).

(** [GraphLayer.FPropMeta] *)
Definition GraphLayer_FPropMeta (p : GraphParams S) (h0 : heap S)
    (args : list (ovalue S)) : M (meta_event S) (Meta S * heap S) :=
  let nt := ORef (length h0) in
  assert_ (CheckShapes h0 args) ;;;
  assert_ (len (input_endpoints p) =? len args)%Z ;;;
  h <- lift (add_all check_key nt (combine (input_endpoints p) args)
                     (h0 ++ [[]])) ;;
  st <- for_each (graph_sub p) (Graph_meta_step nt) (0%Z, h) ;;
  layer_out <- lift (map_r (GetNamedTensor (snd st) nt) (output_endpoints p)) ;;
  ret (mkMeta (fst st) layer_out, snd st).

End Graph.




(** The store [h'] has every NestedMap of [h], with every item it has in
    [h]. *)
Definition grows {T} (h h' : heap T) : Prop :=
  forall a m, nth_error h a = Some m ->
    exists m', nth_error h' a = Some m' /\
               forall k v, lookup k m = Some v -> lookup k m' = Some v.


(** What both [FProp] and [FPropMeta] do to the namespace, sub-layer by
    sub-layer: parse the signature, find the inputs, let the sub-layer put
    the NestedMaps it makes into the store, write the outputs.  [written]
    are the values written, sub-layer by sub-layer. *)
Inductive walk {T} (check_key : string -> result unit) (nt : ovalue T)
  : heap T -> list string -> heap T ->
    list (list string * list string) -> list (list (ovalue T)) -> Prop :=
| walk_nil : forall h, walk check_key nt h [] h [] []
| walk_cons : forall h sig sigs i_tensors o_tensors made outs h2 h' parsed
                     written,
    ParseSignature sig = Ok (i_tensors, o_tensors) ->
    Forall (fun r => exists_in h nt (path_names r)) i_tensors ->
    length outs = length o_tensors ->
    add_all check_key nt (combine o_tensors outs) (h ++ made) = Ok h2 ->
    walk check_key nt h2 sigs h' parsed written ->
    walk check_key nt h (sig :: sigs) h' ((i_tensors, o_tensors) :: parsed)
         (outs :: written).



End Store.

(** ** Sample configurations and inputs *)

Definition firstn_demo_args : list (value nat) :=
  [VTensor 10; VTensor 20; VTensor 30].

(** Two sub-layers for shape inference over descriptors that are plain
    numbers: the first keeps its inputs and reports cost 3, the second
    prepends a [None] output and reports cost 5. *)
Definition keep_meta : LayerParams nat :=
  {| lp_name := "keep"; lp_FPropMeta := fun args => Ok (mkMeta 3 args) |}.

Definition grow_meta : LayerParams nat :=
  {| lp_name := "grow";
     lp_FPropMeta := fun args => Ok (mkMeta 5 (VNone :: args)) |}.

Definition any_shapes (args : list (value nat)) : bool := true.

Definition seq_demo : SequentialParams nat :=
  {| seq_name := "seq"; seq_sub := [keep_meta; grow_meta]; seq_repeat := 2 |}.

Definition rep_demo : RepeatParams nat :=
  {| rep_name := "rep"; rep_body := keep_meta; rep_repeat := 4 |}.

(** Descriptors as numbers: dropping the leading axis halves, adding one
    of size [n] adds [n]. *)
Definition demo_unstack (s : value nat) : result (value nat) :=
  match s with
  | VTensor k => Ok (VTensor (Nat.div2 k))
  | _ => Raise AttributeError
  end.

Definition demo_stack (n : Z) (s : value nat) : result (value nat) :=
  match s with
  | VTensor k => Ok (VTensor (k + Z.to_nat n))
  | _ => Raise TypeError
  end.

(** The graph of the specification's example: inputs [a] and [b],
    [a->c] computing relu, [c,b->d] adding, output [d].  Tensors are lists
    of integers, shape descriptors lists of dimensions. *)
Definition relu_layer : Layer (list Z) :=
  {| layer_FProp := fun _ args =>
       match args with
       | [VTensor x] => Ok (VTensor (map (Z.max 0) x))
       | _ => Raise TypeError
       end |}.

Definition add_layer : Layer (list Z) :=
  {| layer_FProp := fun _ args =>
       match args with
       | [VTensor x; VTensor y] =>
           Ok (VTensor (map (fun ab => fst ab + snd ab)%Z (combine x y)))
       | _ => Raise TypeError
       end |}.

Definition relu_params : LayerParams (list Z) :=
  {| lp_name := "relu";
     lp_FPropMeta := fun args => Ok (mkMeta 2 args) |}.

Definition add_params : LayerParams (list Z) :=
  {| lp_name := "add";
     lp_FPropMeta := fun args => Ok (mkMeta 2 (firstn 1 args)) |}.

Definition demo_CreateChild (children : list (string * Layer (list Z)))
    (name : string) (sub : LayerParams (list Z)) : result (Layer (list Z)) :=
  if (name =? "add")%string then Ok add_layer else Ok relu_layer.

Definition graph_demo : GraphParams (list Z) :=
  {| graph_name := "graph";
     input_endpoints := ["a"; "b"]%string;
     output_endpoints := ["d"]%string;
     graph_sub := [("a->c", relu_params); ("c,b->d", add_params)]%string |}.

Definition graph_demo_layer : GraphLayer (list Z) (list Z) :=
  {| graph_params := graph_demo;
     graph_seq := [("relu", relu_layer); ("add", add_layer)]%string |}.

Definition graph_demo_theta : value (list Z) :=
  VMap [("relu", VMap []); ("add", VMap [])]%string.


Definition any_dims (args : list (value (list Z))) : bool := true.



(** [FirstN(1)] as a sub-layer: it hands back its first input, whatever
    that is. *)
Definition first_layer : Layer (list Z) :=
  {| layer_FProp :=
       FirstNLayer_FProp {| firstn_name := "first"; firstn_n := 1 |} |}.

Definition no_split (args : list (value (list Z))) (num : Z)
  : result (list (list (value (list Z)))) := Raise ValueError.

Definition no_concat (outs : list (shard_output (list Z)))
  : result (shard_output (list Z)) := Raise ValueError.

(** A body in the manner of [BiasLayer]: it adds its parameter [b] to its
    single input, entry by entry. *)
Definition bias_layer : Layer Tensor :=
  {| layer_FProp := fun theta args =>
       rbind (py_getattr "b" theta) (fun b =>
       rbind (as_tensor b) (fun b =>
       match args with
       | [VTensor x] => Ok (VTensor (mkTensor (t_shape x)
                                       (vadd (t_data x) (t_data b))))
       | _ => Raise TypeError
       end)) |}.

(** SoftCond around it with a single expert: the variable [b], of shape
    [[1]], is held under a leading axis of size one; [global_step] is
    extra state and no variable of the body. *)
Definition soft_one : SoftCondLayer :=
  {| sc_params := {| sc_name := "soft"; sc_num_experts := 1;
                     sc_cond_dim := 1; sc_is_eval := true |};
     sc_body := bias_layer;
     sc_body_vars := VMap [("b", VTensor (mkTensor [1; 1] [1%R]))]%string |}.

Definition soft_one_body_theta : NestedMap Tensor :=
  [("b", VTensor (mkTensor [1; 1] [1%R]));
   ("global_step", VTensor (mkTensor [] [7%R]))]%string.

Definition soft_one_theta : value Tensor :=
  VMap [("w", VTensor (mkTensor [1; 1] [5%R]));
        ("body", VMap soft_one_body_theta)]%string.

(** The single copy of the parameters, without the leading axis. *)
Definition soft_one_unstacked : value Tensor :=
  VMap [("b", VTensor (mkTensor [1] [1%R]));
        ("global_step", VTensor (mkTensor [] [7%R]))]%string.

Definition soft_inputs : value Tensor := VTensor (mkTensor [1] [0%R]).

(** The same body under two experts, outside evaluation mode. *)
Definition soft_two : SoftCondLayer :=
  {| sc_params := {| sc_name := "soft"; sc_num_experts := 2;
                     sc_cond_dim := 1; sc_is_eval := false |};
     sc_body := bias_layer;
     sc_body_vars := VMap [("b", VTensor (mkTensor [2; 1] [1%R; 3%R]))]%string |}.

Definition soft_two_body_theta : NestedMap Tensor :=
  [("b", VTensor (mkTensor [2; 1] [1%R; 3%R]));
   ("global_step", VTensor (mkTensor [] [7%R]))]%string.

Definition soft_two_theta : value Tensor :=
  VMap [("w", VTensor (mkTensor [1; 2] [5%R; 6%R]));
        ("body", VMap soft_two_body_theta)]%string.

(** Repeat around the bias body, twice: the variable [b] holds a copy for
    each repetition. *)
Definition repeat_demo : RepeatLayer :=
  {| rl_name := "repeat"; rl_repeat := 2; rl_body := bias_layer;
     rl_body_vars := VMap [("b", VTensor (mkTensor [2; 1] [1%R; 3%R]))]%string |}.

Definition repeat_demo_theta : value Tensor :=
  VMap [("body", VMap [("b", VTensor (mkTensor [2; 1] [1%R; 3%R]))])]%string.

(** A body that returns its input twice, and Repeat around it. *)
Definition twice_layer : Layer Tensor :=
  {| layer_FProp := fun theta args =>
       match args with
       | [x] => Ok (VTuple [x; x])
       | _ => Raise TypeError
       end |}.

Definition repeat_twice : RepeatLayer :=
  {| rl_name := "repeat"; rl_repeat := 2; rl_body := twice_layer;
     rl_body_vars := VMap [("b", VTensor (mkTensor [2; 1] [1%R; 3%R]))]%string |}.


(** A chain over lists of integers: relu, then a layer that returns its
    input twice, then the sum of the two. *)
Definition dup_layer : Layer (list Z) :=
  {| layer_FProp := fun _ args =>
       match args with
       | [x] => Ok (VTuple [x; x])
       | _ => Raise TypeError
       end |}.

Definition chain_demo_seq : list (string * Layer (list Z)) :=
  [("relu", relu_layer); ("dup", dup_layer); ("add", add_layer)]%string.

Definition chain_demo_theta : value (list Z) :=
  VMap [("relu", VMap []); ("dup", VMap []); ("add", VMap [])]%string.

Definition chain_demo_params : SequentialParams (list Z) :=
  {| seq_name := "chain";
     seq_sub := [relu_params;
                 {| lp_name := "dup";
                    lp_FPropMeta := fun args => Ok (mkMeta 0 (args ++ args)) |};
                 add_params];
     seq_repeat := 1 |}.

Definition chain_demo : SequentialLayer (list Z) (list Z) :=
  {| sl_params := chain_demo_params; sl_seq := chain_demo_seq; sl_rep := [] |}.

Definition chain_CreateChild (children : list (string * Layer (list Z)))
    (name : string) (sub : LayerParams (list Z)) : result (Layer (list Z)) :=
  if (name =? "add")%string then Ok add_layer
  else if (name =? "dup")%string then Ok dup_layer
  else Ok relu_layer.

(** A layer that fails whatever it is given. *)
Definition failing_layer : Layer (list Z) :=
  {| layer_FProp := fun _ _ => Raise ValueError |}.

(** Sequential over relu alone, twice; [theta.rep] has an entry for each
    repetition. *)
Definition stack_demo_params : SequentialParams (list Z) :=
  {| seq_name := "stack"; seq_sub := [relu_params]; seq_repeat := 2 |}.

Definition stack_demo : SequentialLayer (list Z) (list Z) :=
  {| sl_params := stack_demo_params;
     sl_seq := [];
     sl_rep := [("000", [("relu", relu_layer)]);
                ("001", [("relu", relu_layer)])]%string |}.

Definition stack_demo_theta : value (list Z) :=
  VMap [("rep", VTuple [VMap [("relu", VMap [])];
                        VMap [("relu", VMap [])]])]%string.

(** The same parameters with a repeat count of zero. *)
Definition idle_demo_params : SequentialParams (list Z) :=
  {| seq_name := "stack"; seq_sub := [relu_params]; seq_repeat := 0 |}.

(** Parallel over relu and the doubling layer; [merge] strings the output
    tuples together, and so does [merge_meta] at cost 1. *)
Definition par_demo : ParallelParams (list Z) (list Z) :=
  {| par_name := "par";
     par_sub := [relu_params;
                 {| lp_name := "dup";
                    lp_FPropMeta := fun args => Ok (mkMeta 0 (args ++ args)) |}];
     par_merge := fun outs => Ok (concat outs);
     par_merge_meta := fun outs => Ok (mkMeta 1 (concat outs)) |}.

Definition par_demo_seq : list (string * Layer (list Z)) :=
  [("relu", relu_layer); ("dup", dup_layer)]%string.

(** Map with relu as its function; a shape costs as many operations as it
    has dimensions. *)
Definition map_demo : MapParams (list Z) (list Z) unit :=
  {| map_name := "map";
     map_fn := fun _ x => layer_FProp relu_layer VNone [x];
     map_fn_meta := fun s =>
       match s with
       | VTensor dims => Ok (len dims, s)
       | _ => Raise TypeError
       end;
     map_kwargs := tt |}.

(** The activations a Branch layer can fetch. *)
Definition demo_activation (fetch : string) : result (value (list Z)) :=
  if (fetch =? "hidden")%string then Ok (VTensor [5]%Z) else Raise KeyError.

(** A batch split in two halves and joined again; tensors are lists of
    integers, the batch their entries. *)
Definition halves_split (args : list (value (list Z))) (num : Z)
  : result (list (list (value (list Z)))) :=
  rbind (map_r (fun x => match x with
                         | VTensor l => Ok l
                         | _ => Raise TypeError
                         end) args) (fun ls =>
  Ok [map (fun l => VTensor (firstn (length l / 2) l)) ls;
      map (fun l => VTensor (skipn (length l / 2) l)) ls]).

Definition halves_concat (outs : list (shard_output (list Z)))
  : result (shard_output (list Z)) :=
  rbind (map_r (fun o => match o with
                         | ShardOne (VTensor l) => Ok l
                         | _ => Raise ValueError
                         end) outs) (fun ls =>
  Ok (ShardOne (VTensor (concat ls)))).

(** ** Sample graphs over the store *)
















(** * Properties *)

(** C8.  [FirstN(n)] is refused at construction when [n <= 0]; called with
    fewer than [n] inputs it fails; called with at least [n] inputs it
    returns the first [n] of them in order, as a tuple when [n > 1] and as
    the bare first input when [n = 1]; and shape inference selects the first
    [n] shape descriptors in the same way, at no cost. *)
Theorem FirstN_selects_first_n :
  forall (T : Type) (CheckShapes : list (value T) -> bool)
         (p : FirstNParams) (theta : value T) (args : list (value T)),
    ((firstn_n p <= 0)%Z -> FirstNLayer_init p = Raise AssertionError) /\
    (firstn_name p <> EmptyString -> (0 < firstn_n p)%Z ->
       FirstNLayer_init p = Ok tt) /\
    ((len args < firstn_n p)%Z ->
       FirstNLayer_FProp p theta args = Raise AssertionError) /\
    ((1 < firstn_n p <= len args)%Z ->
       FirstNLayer_FProp p theta args
       = Ok (VTuple (firstn (Z.to_nat (firstn_n p)) args))) /\
    (firstn_n p = 1%Z -> forall a rest, args = a :: rest ->
       FirstNLayer_FProp p theta args = Ok a /\
       firstn (Z.to_nat (firstn_n p)) args = [a]) /\
    ((0 < firstn_n p <= len args)%Z -> CheckShapes args = true ->
       FirstNLayer_FPropMeta CheckShapes p args
       = Ok (mkMeta 0 (firstn (Z.to_nat (firstn_n p)) args))).
Proof.
  intros T CheckShapes [name n] theta args; cbn [firstn_n firstn_name].
  unfold FirstNLayer_init, FirstNLayer_FProp, FirstNLayer_FPropMeta, len;
    cbn [firstn_n firstn_name].
  repeat split.
  - intros Hn. destruct (negb (name =? EmptyString)%string); cbn; [|reflexivity].
    destruct (Z.gtb_spec n 0); [lia | reflexivity].
  - intros Hname Hn.
    destruct (String.eqb_spec name EmptyString); [contradiction|]; cbn.
    destruct (Z.gtb_spec n 0); [reflexivity | lia].
  - intros Hlt.
    destruct (Z.geb_spec (Z.of_nat (length args)) n); [lia | reflexivity].
  - intros [H1 Hle].
    destruct (Z.geb_spec (Z.of_nat (length args)) n); [|lia]; cbn.
    destruct (Z.gtb_spec n 1); [reflexivity | lia].
  - subst n args. cbn [length].
    destruct (Z.geb_spec (Z.of_nat (S (length rest))) 1); [|lia].
    reflexivity.
  - subst n args. reflexivity.
  - intros [H0 Hle] Hck. rewrite Hck; cbn.
    destruct (Z.gtb_spec n 1); [reflexivity|].
    assert (n = 1%Z) by lia; subst n.
    destruct args as [|a rest]; [cbn in Hle; lia | reflexivity].
Qed.

Lemma FirstN_selects_first_n_witness :
  FirstNLayer_init {| firstn_name := "first"; firstn_n := 0 |}
    = Raise AssertionError /\
  FirstNLayer_init {| firstn_name := "first"; firstn_n := 2 |} = Ok tt /\
  FirstNLayer_FProp {| firstn_name := "first"; firstn_n := 4 |}
    VNone firstn_demo_args = Raise AssertionError /\
  FirstNLayer_FProp {| firstn_name := "first"; firstn_n := 2 |}
    VNone firstn_demo_args = Ok (VTuple [VTensor 10; VTensor 20]) /\
  FirstNLayer_FProp {| firstn_name := "first"; firstn_n := 1 |}
    VNone firstn_demo_args = Ok (VTensor 10) /\
  FirstNLayer_FPropMeta (fun _ => true)
    {| firstn_name := "first"; firstn_n := 2 |} firstn_demo_args
    = Ok (mkMeta 0 [VTensor 10; VTensor 20]).
Proof.
  pose (ck := fun _ : list (value nat) => true).
  pose (mk := fun n => {| firstn_name := "first"; firstn_n := n |}).
  split; [|split; [|split; [|split; [|split]]]].
  - apply (FirstN_selects_first_n ck (mk 0%Z) VNone firstn_demo_args).
    cbn; lia.
  - apply (FirstN_selects_first_n ck (mk 2%Z) VNone firstn_demo_args).
    + discriminate.
    + cbn; lia.
  - apply (FirstN_selects_first_n ck (mk 4%Z) VNone firstn_demo_args).
    cbn; lia.
  - apply (FirstN_selects_first_n ck (mk 2%Z) VNone firstn_demo_args).
    cbn; lia.
  - apply (proj1 (proj2 (proj2 (proj2 (proj2
             (FirstN_selects_first_n ck (mk 1%Z) VNone firstn_demo_args)))))
             eq_refl (VTensor 10) [VTensor 20; VTensor 30] eq_refl).
  - apply (FirstN_selects_first_n ck (mk 2%Z) VNone firstn_demo_args).
    + cbn; lia.
    + reflexivity.
Defined.

(** C9.  The precondition loop of [ArgIndex] compares with [<=] where the
    tuple ends: with one input and the index list [[1]] every assertion
    passes, position 1 is outside the tuple, and the selection [args[1]]
    raises [IndexError]. *)
Theorem ArgIndex_check_accepts_len :
  let p := {| argindex_name := "pick"; argindex_idx := [1%Z] |} in
  let args : list (value nat) := [VTensor 7] in
  ArgIndex_check (argindex_idx p) args = true /\
  nth_error args 1 = None /\
  ArgIndexLayer_FProp p VNone args = Raise IndexError.
Proof. repeat split. Qed.


(** ** The monad and its loops *)

Lemma bind_ret_l : forall E A B (a : A) (f : A -> M E B),
  bind (ret a) f = f a.
Proof. intros. unfold bind, ret. destruct (f a). reflexivity. Qed.

Lemma bind_assoc : forall E A B C (m : M E A) (f : A -> M E B) (g : B -> M E C),
  bind (bind m f) g = bind m (fun a => bind (f a) g).
Proof.
  intros E A B C [l [a|e]] f g; cbn; [|reflexivity].
  destruct (f a) as [l1 [b|e]]; cbn; [|reflexivity].
  destruct (g b) as [l2 r]. rewrite app_assoc. reflexivity.
Qed.

Lemma bind_ok : forall E A B (m : M E A) (f : A -> M E B) l b,
  bind m f = (l, Ok b) ->
  exists l1 a l2, m = (l1, Ok a) /\ f a = (l2, Ok b) /\ l = l1 ++ l2.
Proof.
  intros E A B [l1 [a|e]] f l b; cbn; [|discriminate].
  destruct (f a) as [l2 r] eqn:Hf. intros H; inversion H; subst.
  exists l1, a, l2. auto.
Qed.

Lemma for_each_app : forall E A St (l1 l2 : list A) (body : St -> A -> M E St) s,
  for_each (l1 ++ l2) body s = bind (for_each l1 body s) (for_each l2 body).
Proof.
  induction l1 as [|x l1 IH]; intros l2 body s; cbn [for_each app].
  - rewrite bind_ret_l. reflexivity.
  - rewrite bind_assoc.
    destruct (body s x) as [l [a|e]]; cbn [bind]; [|reflexivity].
    rewrite IH. reflexivity.
Qed.

(** ** Sequential, Repeat and ParallelRepeat: shape and cost inference *)

Section MetaComposersFacts.

Variable S : Type.
Variable CheckShapes : list (value S) -> bool.

Lemma Sequential_repeat_loop : forall (subs : list (LayerParams S)) (l : list Z) st,
  for_each l (fun st _ => for_each subs (Sequential_meta_step CheckShapes) st) st
  = for_each (concat (repeat subs (length l)))
             (Sequential_meta_step CheckShapes) st.
Proof.
  induction l as [|z l IH]; intros st; cbn [for_each length repeat concat].
  - reflexivity.
  - rewrite for_each_app.
    destruct (for_each subs _ st) as [l1 [st'|e]]; cbn [bind]; [|reflexivity].
    rewrite IH. reflexivity.
Qed.

Lemma range_length : forall n, length (range n) = Z.to_nat n.
Proof. intros. unfold range. rewrite length_map, length_seq. reflexivity. Qed.

Lemma threads_run : forall subs args metas out,
  threads CheckShapes subs args metas out ->
  forall total,
    for_each subs (Sequential_meta_step CheckShapes) (total, args)
    = (thread_calls subs args metas, Ok ((total + total_flops metas)%Z, out)).
Proof.
  induction 1 as [args | sub subs args meta metas out Hm Hck Hth IH];
    intros total; cbn [for_each thread_calls].
  - unfold total_flops; cbn. rewrite Z.add_0_r. reflexivity.
  - unfold Sequential_meta_step at 1, call_meta. rewrite Hm; cbn [bind].
    rewrite Hck; cbn [assert_ ret bind app].
    rewrite IH; cbn.
    unfold total_flops; cbn [map fold_right]. rewrite Z.add_assoc. reflexivity.
Qed.

Lemma run_threads : forall subs total args log total' out,
  for_each subs (Sequential_meta_step CheckShapes) (total, args)
    = (log, Ok (total', out)) ->
  exists metas, threads CheckShapes subs args metas out /\
                total' = (total + total_flops metas)%Z.
Proof.
  induction subs as [|sub subs IH]; intros total args log total' out;
    cbn [for_each].
  - intros H; inversion H; subst. exists []. split; [constructor|].
    unfold total_flops; cbn. lia.
  - unfold Sequential_meta_step at 1, call_meta.
    destruct (lp_FPropMeta sub args) as [meta|e] eqn:Hm; cbn [bind];
      [|discriminate].
    destruct (CheckShapes (out_shapes meta)) eqn:Hck; cbn [assert_ ret raise bind app];
      [|discriminate].
    destruct (for_each subs _ _) as [l2 r] eqn:Hrest.
    intros H; inversion H; subst.
    apply IH in Hrest. destruct Hrest as [metas [Hth Ht]].
    exists (meta :: metas). split; [econstructor; eauto|].
    unfold total_flops in *; cbn [map fold_right]. lia.
Qed.

End MetaComposersFacts.

(** C2.  Shape inference of [Sequential] agrees with threading the shape
    descriptors by hand through the sub-layers in declaration order, the
    whole list [repeat] times: whenever that threading goes through, the
    inference makes exactly its calls, returns the sum of the costs the
    sub-layers reported and the shapes the threading ends with; and whenever
    the inference returns, it is the outcome of such a threading. *)
Theorem Sequential_FPropMeta_sums_and_threads :
  forall (S : Type) (CheckShapes : list (value S) -> bool)
         (p : SequentialParams S) (args : list (value S)),
    (forall metas out,
       CheckShapes args = true ->
       threads CheckShapes (Sequential_chain p) args metas out ->
       SequentialLayer_FPropMeta CheckShapes p args
       = (thread_calls (Sequential_chain p) args metas,
          Ok (mkMeta (total_flops metas) out))) /\
    (forall log m,
       SequentialLayer_FPropMeta CheckShapes p args = (log, Ok m) ->
       CheckShapes args = true /\
       exists metas,
         threads CheckShapes (Sequential_chain p) args metas (out_shapes m) /\
         flops m = total_flops metas).
Proof.
  intros S CheckShapes p args.
  unfold SequentialLayer_FPropMeta, Sequential_chain.
  rewrite Sequential_repeat_loop, range_length.
  split.
  - intros metas out Hck Hth. rewrite Hck; cbn [assert_ ret bind].
    rewrite (threads_run Hth 0); cbn. rewrite app_nil_r. reflexivity.
  - intros log m.
    destruct (CheckShapes args); cbn [assert_ ret raise bind]; [|discriminate].
    destruct (for_each _ _ _) as [l [[total out]|e]] eqn:Hrun; cbn;
      [|discriminate].
    intros H; inversion H; subst; cbn [flops out_shapes].
    split; [reflexivity|].
    apply run_threads in Hrun. destruct Hrun as [metas [Hth Ht]].
    exists metas. split; [assumption | lia].
Qed.

Lemma Sequential_FPropMeta_sums_and_threads_witness :
  SequentialLayer_FPropMeta any_shapes seq_demo [VTensor 7]
  = ([MetaCall "keep" [VTensor 7] (Ok (mkMeta 3 [VTensor 7]));
      MetaCall "grow" [VTensor 7] (Ok (mkMeta 5 [VNone; VTensor 7]));
      MetaCall "keep" [VNone; VTensor 7] (Ok (mkMeta 3 [VNone; VTensor 7]));
      MetaCall "grow" [VNone; VTensor 7]
        (Ok (mkMeta 5 [VNone; VNone; VTensor 7]))],
     Ok (mkMeta 16 [VNone; VNone; VTensor 7])).
Proof.
  apply (proj1 (Sequential_FPropMeta_sums_and_threads any_shapes seq_demo
                  [VTensor 7])
           [mkMeta 3 [VTensor 7]; mkMeta 5 [VNone; VTensor 7];
            mkMeta 3 [VNone; VTensor 7]; mkMeta 5 [VNone; VNone; VTensor 7]]
           [VNone; VNone; VTensor 7]).
  - reflexivity.
  - repeat (econstructor; try reflexivity).
Defined.

(** C3.  Shape inference of [Repeat] and of [ParallelRepeat] asks the body
    once and returns the cost the body reported times [repeat] -- for every
    repeat count, in particular every [N > 0]; for [ParallelRepeat] the body
    is asked about the shapes with their leading axis removed.  Conversely a
    cost returned is always such a product. *)
Theorem Repeat_FPropMeta_cost_is_body_cost_times_repeat :
  forall (S : Type) (CheckShapes : list (value S) -> bool)
         (Shape_unstack : value S -> result (value S))
         (Shape_stack : Z -> value S -> result (value S))
         (p : RepeatParams S) (args : list (value S)),
    (forall meta,
       CheckShapes args = true ->
       lp_FPropMeta (rep_body p) args = Ok meta ->
       CheckShapes (out_shapes meta) = true ->
       RepeatLayer_FPropMeta CheckShapes p args
       = ([MetaCall (lp_name (rep_body p)) args (Ok meta)],
          Ok (mkMeta (flops meta * rep_repeat p) args))) /\
    (forall input_shapes meta out,
       CheckShapes args = true ->
       map_r (unstack_or_None Shape_unstack) args = Ok input_shapes ->
       lp_FPropMeta (rep_body p) input_shapes = Ok meta ->
       CheckShapes (out_shapes meta) = true ->
       map_r (stack_or_None Shape_stack (rep_repeat p)) (out_shapes meta)
         = Ok out ->
       ParallelRepeatLayer_FPropMeta CheckShapes Shape_unstack Shape_stack
         p args
       = ([MetaCall (lp_name (rep_body p)) input_shapes (Ok meta)],
          Ok (mkMeta (flops meta * rep_repeat p) out))) /\
    (forall log m,
       RepeatLayer_FPropMeta CheckShapes p args = (log, Ok m) ->
       exists meta,
         lp_FPropMeta (rep_body p) args = Ok meta /\
         flops m = (flops meta * rep_repeat p)%Z) /\
    (forall log m,
       ParallelRepeatLayer_FPropMeta CheckShapes Shape_unstack Shape_stack
         p args = (log, Ok m) ->
       exists input_shapes meta,
         map_r (unstack_or_None Shape_unstack) args = Ok input_shapes /\
         lp_FPropMeta (rep_body p) input_shapes = Ok meta /\
         flops m = (flops meta * rep_repeat p)%Z).
Proof.
  intros S CheckShapes Shape_unstack Shape_stack p args.
  unfold RepeatLayer_FPropMeta, ParallelRepeatLayer_FPropMeta, call_meta, lift.
  split; [|split; [|split]].
  - intros meta Hck Hm Hck'.
    rewrite Hck, Hm; cbn. rewrite Hck'; cbn. reflexivity.
  - intros input_shapes meta out Hck Hin Hm Hck' Hout.
    rewrite Hck, Hin; cbn. rewrite Hm, Hck'; cbn. rewrite Hout; cbn.
    reflexivity.
  - intros log m.
    destruct (CheckShapes args); cbn; [|discriminate].
    destruct (lp_FPropMeta (rep_body p) args) as [meta|e]; cbn; [|discriminate].
    destruct (CheckShapes (out_shapes meta)); cbn; [|discriminate].
    intros H; inversion H; subst. exists meta. split; reflexivity.
  - intros log m.
    destruct (CheckShapes args); cbn; [|discriminate].
    destruct (map_r _ args) as [input_shapes|e]; cbn; [|discriminate].
    destruct (lp_FPropMeta (rep_body p) input_shapes) as [meta|e] eqn:Hm; cbn;
      [|discriminate].
    destruct (CheckShapes (out_shapes meta)); cbn; [|discriminate].
    destruct (map_r _ (out_shapes meta)) as [out|e]; cbn; [|discriminate].
    intros H; inversion H; subst. exists input_shapes, meta.
    split; [reflexivity | split; [assumption | reflexivity]].
Qed.

Lemma Repeat_FPropMeta_cost_is_body_cost_times_repeat_witness :
  RepeatLayer_FPropMeta any_shapes rep_demo [VTensor 6; VNone]
  = ([MetaCall "keep" [VTensor 6; VNone] (Ok (mkMeta 3 [VTensor 6; VNone]))],
     Ok (mkMeta 12 [VTensor 6; VNone])) /\
  ParallelRepeatLayer_FPropMeta any_shapes demo_unstack demo_stack rep_demo
    [VTensor 6; VNone]
  = ([MetaCall "keep" [VTensor 3; VNone] (Ok (mkMeta 3 [VTensor 3; VNone]))],
     Ok (mkMeta 12 [VTensor 7; VNone])).
Proof.
  pose proof (Repeat_FPropMeta_cost_is_body_cost_times_repeat any_shapes
                demo_unstack demo_stack rep_demo [VTensor 6; VNone])
    as [HR [HP _]].
  split.
  - apply (HR (mkMeta 3 [VTensor 6; VNone])); reflexivity.
  - apply (HP [VTensor 3; VNone] (mkMeta 3 [VTensor 3; VNone])
              [VTensor 7; VNone]); reflexivity.
Defined.

(** ** The namespace of the Graph layer *)

Lemma rbind_ok : forall A B (r : result A) (f : A -> result B) b,
  rbind r f = Ok b -> exists a, r = Ok a /\ f a = Ok b.
Proof. intros A B [a|e] f b H; [eauto | discriminate]. Qed.

Lemma rassert_ok : forall b u, rassert b = Ok u -> b = true.
Proof. intros [|] u H; [reflexivity | discriminate]. Qed.

Lemma split_go_not_nil : forall sep s skip cur, split_go sep skip cur s <> [].
Proof.
  induction s as [|c s IH]; intros skip cur; cbn [split_go].
  - discriminate.
  - destruct skip; [|apply IH].
    destruct (prefix sep (String c s)); [discriminate | apply IH].
Qed.


Section NamespaceFacts.

Context {T : Type}.
Implicit Types (m : NestedMap T) (v t cur : value T) (names q : list string).

Lemma lookup_set_item_eq : forall n v m, lookup n (set_item n v m) = Some v.
Proof.
  induction m as [|[k x] m IH]; cbn.
  - rewrite String.eqb_refl. reflexivity.
  - destruct (String.eqb_spec n k) as [->|Hne]; cbn.
    + rewrite String.eqb_refl. reflexivity.
    + destruct (String.eqb_spec n k); [contradiction | apply IH].
Qed.

Lemma lookup_set_item_ne : forall n k v m,
  k <> n -> lookup k (set_item n v m) = lookup k m.
Proof.
  induction m as [|[k' x] m IH]; intros Hne; cbn.
  - destruct (String.eqb_spec k n); [contradiction | reflexivity].
  - destruct (String.eqb_spec n k') as [->|Hn]; cbn.
    + destruct (String.eqb_spec k k'); [contradiction | reflexivity].
    + destruct (String.eqb_spec k k'); [reflexivity | apply IH; assumption].
Qed.

Lemma bound_nil_inv : forall v w, bound v [] w -> w = v.
Proof. intros v w H; inversion H; reflexivity. Qed.

Lemma bound_cons_inv : forall cur n rest w,
  bound cur (n :: rest) w ->
  exists m v, cur = VMap m /\ lookup n m = Some v /\ bound v rest w.
Proof. intros cur n rest w H; inversion H; subst; eauto. Qed.

Lemma get_names_bound : forall names cur v,
  get_names names cur = Ok v <-> bound cur names v.
Proof.
  induction names as [|n rest IH]; intros cur v; cbn [get_names].
  - split.
    + intros H; inversion H; constructor.
    + intros H; apply bound_nil_inv in H; subst; reflexivity.
  - split.
    + destruct cur as [| | | |m]; try discriminate.
      destruct (lookup n m) as [x|] eqn:Hl; [|discriminate].
      intros H. econstructor; [eassumption | apply IH; assumption].
    + intros H. apply bound_cons_inv in H.
      destruct H as (m & x & -> & Hl & Hb). rewrite Hl. apply IH; assumption.
Qed.

Lemma get_names_raises : forall names cur e,
  get_names names cur = Raise e -> e = AssertionError.
Proof.
  induction names as [|n rest IH]; intros cur e; cbn [get_names].
  - discriminate.
  - destruct cur as [| | | |m]; try (intros H; inversion H; reflexivity).
    destruct (lookup n m); [apply IH|].
    intros H; inversion H; reflexivity.
Qed.

Lemma get_names_unbound : forall names cur,
  ~ exists_in cur names -> get_names names cur = Raise AssertionError.
Proof.
  intros names cur Hno.
  destruct (get_names names cur) as [v|e] eqn:Hg.
  - exfalso. apply Hno. exists v. apply get_names_bound; assumption.
  - f_equal. eapply get_names_raises; eassumption.
Qed.

Lemma add_names_last : forall n t cur,
  add_names [n] t cur
  = rbind (py_contains n cur) (fun c =>
    rbind (rassert (negb c)) (fun _ => py_setitem n t cur)).
Proof. reflexivity. Qed.

Lemma add_names_more : forall n n' rest t cur,
  add_names (n :: n' :: rest) t cur
  = rbind (py_contains n cur) (fun c =>
    rbind (if negb c then py_setitem n (VMap []) cur else Ok cur) (fun cur1 =>
    rbind (py_getitem n cur1) (fun sub =>
    rbind (add_names (n' :: rest) t sub) (fun sub' =>
    py_setitem n sub' cur1)))).
Proof. reflexivity. Qed.


Lemma set_item_twice : forall n a b m,
  set_item n a (set_item n b m) = set_item n a m.
Proof.
  induction m as [|[k x] m IH]; cbn.
  - rewrite String.eqb_refl. reflexivity.
  - destruct (String.eqb_spec n k) as [->|Hne]; cbn.
    + rewrite String.eqb_refl. reflexivity.
    + destruct (String.eqb_spec n k); [contradiction|]. rewrite IH. reflexivity.
Qed.

(** What a write that succeeds has done. *)
Lemma add_names_last_ok : forall n t cur cur',
  add_names [n] t cur = Ok cur' ->
  exists m, cur = VMap m /\ lookup n m = None /\ cur' = VMap (set_item n t m).
Proof.
  intros n t cur cur' H. rewrite add_names_last in H.
  destruct cur as [| |s|vs|m]; cbn [py_contains rbind] in H; try discriminate.
  - destruct (contains_str n s); discriminate.
  - destruct (existsb _ _); discriminate.
  - destruct (lookup n m) eqn:Hl; cbn in H; [discriminate|].
    inversion H. exists m. auto.
Qed.

Lemma add_names_more_ok : forall n n' rest t cur cur',
  add_names (n :: n' :: rest) t cur = Ok cur' ->
  exists m sub sub',
    cur = VMap m /\
    (lookup n m = Some sub \/ (lookup n m = None /\ sub = VMap [])) /\
    add_names (n' :: rest) t sub = Ok sub' /\
    cur' = VMap (set_item n sub' m).
Proof.
  intros n n' rest t cur cur' H. rewrite add_names_more in H.
  destruct cur as [| |s|vs|m]; cbn [py_contains rbind] in H; try discriminate.
  - destruct (contains_str n s); discriminate.
  - destruct (existsb _ _); discriminate.
  - destruct (lookup n m) as [x|] eqn:Hl; cbn [negb py_setitem rbind] in H.
    + cbn [py_getitem] in H. rewrite Hl in H. cbn [rbind] in H.
      destruct (add_names (n' :: rest) t x) as [sub'|e] eqn:Ha;
        cbn [rbind py_setitem] in H; [|discriminate].
      inversion H. exists m, x, sub'. auto.
    + cbn [py_getitem] in H. rewrite lookup_set_item_eq in H.
      cbn [rbind] in H.
      destruct (add_names (n' :: rest) t (VMap [])) as [sub'|e] eqn:Ha;
        cbn [rbind py_setitem] in H; [|discriminate].
      inversion H. rewrite set_item_twice.
      exists m, (VMap []), sub'. auto.
Qed.


(** After a write the name is there, with the value written. *)
Lemma add_names_bound : forall names t cur cur',
  add_names names t cur = Ok cur' -> bound cur' names t.
Proof.
  induction names as [|n rest IH]; intros t cur cur' H; [discriminate|].
  destruct rest as [|n' rest].
  - apply add_names_last_ok in H. destruct H as (m & -> & _ & ->).
    econstructor; [apply lookup_set_item_eq | constructor].
  - apply add_names_more_ok in H.
    destruct H as (m & sub & sub' & -> & _ & Ha & ->).
    econstructor; [apply lookup_set_item_eq | eapply IH; eassumption].
Qed.



Lemma comparable_sym : forall a b, comparable a b -> comparable b a.
Proof.
  induction a as [|x a IH]; destruct b as [|y b]; cbn; auto.
  intros [-> H]. auto.
Qed.


End NamespaceFacts.

Lemma bind_lift : forall E A B (r : result A) (f : A -> M E B),
  bind (lift r) f = match r with Ok a => f a | Raise e => ([], Raise e) end.
Proof. intros E A B [a|e] f; [apply bind_ret_l | reflexivity]. Qed.

Lemma bind_assert : forall E B (b : bool) (f : unit -> M E B),
  bind (assert_ b) f = if b then f tt else ([], Raise AssertionError).
Proof. intros E B [|] f; [apply bind_ret_l | reflexivity]. Qed.

(** In a run [H] that returned: the next step, lifted from a function
    without calls, returned [x]; the next assertion held. *)
Ltac lifted_ok H x Hx :=
  rewrite bind_lift in H;
  match type of H with
  | match ?r with Ok _ => _ | Raise _ => _ end = _ =>
      destruct r as [x|?] eqn:Hx; [|discriminate H]
  end.

Ltac asserted_ok H Hb :=
  rewrite bind_assert in H;
  match type of H with
  | (if ?b then _ else _) = _ => destruct b eqn:Hb; [|discriminate H]
  end.

Lemma map_r_ok_Forall2 : forall A B (f : A -> result B) l l',
  map_r f l = Ok l' -> Forall2 (fun a b => f a = Ok b) l l'.
Proof.
  induction l as [|a l IH]; intros l' H; cbn in H.
  - inversion H; constructor.
  - destruct (f a) as [b|e] eqn:Hf; cbn in H; [|discriminate].
    destruct (map_r f l) as [bs|e]; cbn in H; [|discriminate].
    inversion H; subst. constructor; auto.
Qed.


Section WalkFacts.

Context {T : Type}.
Implicit Types (ns : value T) (W : list (list string)).




Lemma add_all_cons : forall n t (items : list (string * value T)) ns,
  add_all ((n, t) :: items) ns = rbind (AddNamedTensor n t ns) (add_all items).
Proof. reflexivity. Qed.






End WalkFacts.

(** ** The Graph layer: what a run that returns has done *)

Lemma len_eqb_length : forall A B (l : list A) (l' : list B),
  (len l =? len l')%Z = true -> length l = length l'.
Proof.
  intros A B l l' H. apply Z.eqb_eq in H. unfold len in H. lia.
Qed.




Section GraphFacts.

Variables T S : Type.
Variable CheckShapes : list (value S) -> bool.
Variable CreateChild :
  list (string * Layer T) -> string -> LayerParams S -> result (Layer T).











End GraphFacts.

(** A run that writes a name twice: the second sub-layer is called, its
    output cannot be stored under [c], and the third is never called. *)
Example Graph_duplicate_output_stops_the_run :
  GraphLayer_FProp
    {| graph_params :=
         {| graph_name := "graph";
            input_endpoints := ["a"]%string;
            output_endpoints := ["d"]%string;
            graph_sub := [("a->c", relu_params); ("c->c", relu_params);
                          ("c->d", relu_params)]%string |};
       graph_seq := [("r0", relu_layer); ("r1", relu_layer);
                     ("r2", relu_layer)]%string |}
    (VMap [("r0", VMap []); ("r1", VMap []); ("r2", VMap [])]%string)
    [VTensor [-1; 2]%Z]
  = ([FPropCall "r0" (VMap []) [VTensor [-1; 2]%Z] (Ok (VTensor [0; 2]%Z));
      FPropCall "r1" (VMap []) [VTensor [0; 2]%Z] (Ok (VTensor [0; 2]%Z))],
     Raise AssertionError).
Proof. reflexivity. Qed.

(** A name under a written name can be read, and a name above one. *)
Example Graph_reads_below_and_above :
  rbind (AddNamedTensor "o.vec" (VTensor 1%Z) (VMap [])) (fun ns =>
  rbind (AddNamedTensor "i" (VMap [("vec", VTensor 2%Z)]%string) ns) (fun ns =>
  rbind (GetNamedTensor ns "o") (fun o =>
  rbind (GetNamedTensor ns "i.vec") (fun v => Ok (o, v)))))
  = Ok (VMap [("vec", VTensor 1%Z)]%string, VTensor 2%Z).
Proof. reflexivity. Qed.

(** ** Signatures: the pattern and the grammar *)

Lemma append_nil_r : forall s : string, String.append s EmptyString = s.
Proof. induction s; cbn; congruence. Qed.

Lemma append_assoc : forall a b c : string,
  String.append (String.append a b) c = String.append a (String.append b c).
Proof. induction a; intros; cbn; congruence. Qed.

Lemma append_eq_nil : forall a b : string,
  String.append a b = EmptyString -> a = EmptyString /\ b = EmptyString.
Proof. destruct a; cbn; intros b H; [auto | discriminate]. Qed.

Lemma nullable_lang : forall r, nullable r = true <-> lang r EmptyString.
Proof.
  induction r as [| |f|r1 IH1 r2 IH2|r1 IH1 r2 IH2|r IH]; cbn [nullable].
  - split; [discriminate | intros H; inversion H].
  - split; [constructor | reflexivity].
  - split; [discriminate | intros H; inversion H].
  - rewrite orb_true_iff, IH1, IH2. split.
    + intros [H|H]; [apply lang_alt_l | apply lang_alt_r]; assumption.
    + intros H; inversion H; subst; auto.
  - rewrite andb_true_iff, IH1, IH2. split.
    + intros [H1 H2].
      change EmptyString with (String.append EmptyString EmptyString).
      constructor; assumption.
    + intros H. inversion H as [| | | |? ? s1 s2 H1 H2| |]; subst.
      match goal with
      | Hq : String.append _ _ = EmptyString |- _ =>
          apply append_eq_nil in Hq; destruct Hq; subst
      end. auto.
  - split; [constructor | reflexivity].
Qed.

Lemma deriv_sound : forall r c s, lang (deriv c r) s -> lang r (String c s).
Proof.
  induction r as [| |f|r1 IH1 r2 IH2|r1 IH1 r2 IH2|r IH]; intros c s H;
    cbn in H.
  - inversion H.
  - inversion H.
  - destruct (f c) eqn:Hf; inversion H; subst. constructor; assumption.
  - inversion H; subst; [apply lang_alt_l | apply lang_alt_r]; auto.
  - assert (Hseq : forall s, lang (Seq (deriv c r1) r2) s ->
                             lang (Seq r1 r2) (String c s)).
    { intros s0 H0. inversion H0; subst.
      change (String c (String.append s1 s2))
        with (String.append (String c s1) s2).
      constructor; auto. }
    destruct (nullable r1) eqn:Hn.
    + inversion H; subst; [apply Hseq; assumption|].
      change (String c s) with (String.append EmptyString (String c s)).
      constructor; [apply nullable_lang; assumption | auto].
    + apply Hseq; assumption.
  - inversion H; subst.
    change (String c (String.append s1 s2))
      with (String.append (String c s1) s2).
    constructor; auto.
Qed.

Lemma deriv_complete : forall r s0, lang r s0 ->
  forall c s, s0 = String c s -> lang (deriv c r) s.
Proof.
  induction 1 as [|f c0 Hf|r1 r2 s0 H IH|r1 r2 s0 H IH
                  |r1 r2 s1 s2 H1 IH1 H2 IH2| r |r s1 s2 H1 IH1 H2 IH2];
    intros c s Heq; cbn [deriv].
  - discriminate.
  - inversion Heq; subst. rewrite Hf. constructor.
  - apply lang_alt_l; auto.
  - apply lang_alt_r; auto.
  - destruct s1 as [|c1 s1]; cbn in Heq.
    + subst s2. assert (Hn : nullable r1 = true) by (apply nullable_lang; assumption).
      rewrite Hn. apply lang_alt_r. auto.
    + inversion Heq; subst.
      assert (Hs : lang (Seq (deriv c r1) r2) (String.append s1 s2))
        by (constructor; auto).
      destruct (nullable r1); [apply lang_alt_l|]; assumption.
  - discriminate.
  - destruct s1 as [|c1 s1]; cbn in Heq.
    + apply (IH2 c s Heq).
    + inversion Heq; subst. constructor; auto.
Qed.

Lemma matches_lang : forall s r, matches r s = true <-> lang r s.
Proof.
  induction s as [|c s IH]; intros r; cbn [matches].
  - apply nullable_lang.
  - rewrite IH. split.
    + apply deriv_sound.
    + intros H. eapply deriv_complete; [eassumption | reflexivity].
Qed.

Lemma lang_star_cls : forall f s, lang (Star (Cls f)) s <-> all_chars f s.
Proof.
  intros f s. split.
  - remember (Star (Cls f)) as r eqn:Hr. intros H.
    induction H as [| | | | |r0|r0 s1 s2 H1 _ H2 IH2]; inversion Hr; subst.
    + constructor.
    + inversion H1; subst. cbn. constructor; auto.
  - induction 1 as [|c s Hc _ IH]; [constructor|].
    change (String c s) with (String.append (String c EmptyString) s).
    constructor; [constructor; assumption | assumption].
Qed.

Lemma lang_sub_regex : forall s, lang sub_regex s <-> identifier s.
Proof.
  intros s. unfold sub_regex. split.
  - intros H. inversion H as [| | | |? ? s1 s2 H1 H2| |]; subst.
    inversion H1; subst. cbn. constructor; [assumption|].
    apply lang_star_cls; assumption.
  - intros [c s' Hc Hs].
    change (String c s') with (String.append (String c EmptyString) s').
    constructor; [constructor; assumption | apply lang_star_cls; assumption].
Qed.

Lemma lang_dotted_rest : forall s,
  lang (Star (Seq (Cls (Ascii.eqb ".")) sub_regex)) s <-> dotted_rest s.
Proof.
  intros s. split.
  - remember (Star (Seq (Cls (Ascii.eqb ".")) sub_regex)) as r eqn:Hr.
    intros H.
    induction H as [| | | | |r0|r0 s1 s2 H1 _ H2 IH2]; inversion Hr; subst.
    + constructor.
    + inversion H1 as [| | | |? ? a b Ha Hb| |]; subst.
      inversion Ha as [|? c Hc| | | | |]; subst.
      apply Ascii.eqb_eq in Hc. subst c. cbn [String.append].
      constructor; [apply lang_sub_regex; assumption | auto].
  - induction 1 as [|s d Hs _ IH]; [constructor|].
    change (String "." (String.append s d))
      with (String.append (String.append (String "." EmptyString) s) d).
    constructor; [|assumption].
    constructor; [constructor; reflexivity | apply lang_sub_regex; assumption].
Qed.

Lemma dotted_identifier_rest : forall x,
  dotted_identifier x <->
  exists s d, identifier s /\ dotted_rest d /\ x = String.append s d.
Proof.
  intros x. split.
  - induction 1 as [s Hs | s d Hs _ IH].
    + exists s, EmptyString. rewrite append_nil_r.
      repeat split; [assumption | constructor].
    + destruct IH as (s' & d' & Hs' & Hd' & ->).
      exists s, (String "." (String.append s' d')).
      repeat split; [assumption | constructor; assumption].
  - intros (s & d & Hs & Hd & ->). revert s Hs.
    induction Hd as [|s' d' Hs' _ IH]; intros s Hs.
    + rewrite append_nil_r. constructor; assumption.
    + apply dotted_more; [assumption | apply IH; assumption].
Qed.

Lemma lang_id_regex : forall x, lang id_regex x <-> dotted_identifier x.
Proof.
  intros x. rewrite dotted_identifier_rest. unfold id_regex. split.
  - intros H. inversion H as [| | | |? ? s1 s23 H1 H23| |]; subst.
    inversion H23 as [| | | |? ? s2 s3 H2 H3| |]; subst.
    exists (String.append s1 s2), s3. rewrite append_assoc.
    repeat split; [|apply lang_dotted_rest; assumption].
    apply lang_sub_regex. constructor; assumption.
  - intros (s & d & Hs & Hd & ->).
    apply lang_sub_regex in Hs.
    inversion Hs as [| | | |? ? s1 s2 H1 H2| |]; subst.
    rewrite append_assoc.
    constructor; [assumption|].
    constructor; [assumption | apply lang_dotted_rest; assumption].
Qed.

Lemma dotted_identifier_matches : forall x,
  dotted_identifier x <-> matches id_regex x = true.
Proof. intros x. rewrite matches_lang. symmetry. apply lang_id_regex. Qed.

Lemma rstrip_no_newline : forall s, chop_newline (rstrip s) = None.
Proof.
  induction s as [|c s IH]; cbn [rstrip]; [reflexivity|].
  destruct (rstrip s) as [|c' r] eqn:Hr.
  - destruct (is_space c) eqn:Hc; [reflexivity|]. cbn.
    destruct (Ascii.eqb_spec c "010"); [subst c; discriminate | reflexivity].
  - change (chop_newline (String c (String c' r)))
      with (option_map (String c) (chop_newline (String c' r))).
    rewrite IH. reflexivity.
Qed.

(** On a name that [strip] returned, the pattern of [ParseSignature]
    accepts exactly the dotted identifiers. *)
Lemma id_regex_match_strip : forall s,
  id_regex_match (strip s) = true <-> dotted_identifier (strip s).
Proof.
  intros s. unfold id_regex_match, re_match_dollar, strip.
  rewrite rstrip_no_newline, orb_false_r.
  rewrite matches_lang. apply lang_id_regex.
Qed.

Lemma forallb_id_regex_match : forall l,
  forallb id_regex_match (map strip l) = true <->
  Forall dotted_identifier (map strip l).
Proof.
  induction l as [|s l IH]; cbn [map forallb].
  - split; [constructor | reflexivity].
  - rewrite andb_true_iff, IH, id_regex_match_strip. split.
    + intros [H1 H2]; constructor; assumption.
    + intros H; inversion H; auto.
Qed.

Lemma split_not_nil : forall sep s, split sep s <> [].
Proof. intros. apply split_go_not_nil. Qed.


Lemma join_cons : forall sep x rest,
  rest <> [] ->
  join sep (x :: rest) = String.append x (String.append sep (join sep rest)).
Proof. intros sep x [|y rest] H; [contradiction | reflexivity]. Qed.





(** [ParseSignature] returns exactly on the valid signatures, and then the
    two lists of names, stripped; on any other string it raises. *)
Lemma ParseSignature_valid : forall s,
  (forall i_tensors o_tensors,
     ParseSignature s = Ok (i_tensors, o_tensors) <->
     exists i o,
       split "->" s = [i; o] /\
       i_tensors = map strip (split "," i) /\
       o_tensors = map strip (split "," o) /\
       Forall dotted_identifier i_tensors /\
       Forall dotted_identifier o_tensors) /\
  (~ valid_signature s -> ParseSignature s = Raise AssertionError).
Proof.
  intros s.
  assert (Hne : forall x, negb (Nat.eqb (length (map strip (split "," x))) 0) = true).
  { intros x. rewrite length_map.
    destruct (split "," x) eqn:Hx; [|reflexivity].
    exfalso. eapply split_not_nil; eassumption. }
  unfold ParseSignature, valid_signature.
  destruct (split "->" s) as [|i [|o [|x l]]] eqn:Hs; cbn [length Nat.eqb rassert rbind].
  - split; [intros; split; [discriminate | intros (i & o & H & _); discriminate]
           | reflexivity].
  - split; [intros; split; [discriminate | intros (i' & o & H & _); discriminate]
           | reflexivity].
  - rewrite !Hne; cbn [rassert rbind].
    destruct (forallb id_regex_match (map strip (split "," i))) eqn:Hi;
      cbn [rassert rbind].
    + destruct (forallb id_regex_match (map strip (split "," o))) eqn:Ho;
        cbn [rassert rbind].
      * apply forallb_id_regex_match in Hi, Ho. split.
        -- intros it ot. split.
           ++ intros H; inversion H; subst. exists i, o. auto.
           ++ intros (i' & o' & H & -> & -> & _). inversion H; subst. reflexivity.
        -- intros Hno. exfalso. apply Hno. exists i, o. auto.
      * split; [|reflexivity]. intros it ot. split; [discriminate|].
        intros (i' & o' & H & -> & -> & _ & Ho'). inversion H; subst.
        apply forallb_id_regex_match in Ho'. congruence.
    + split; [|reflexivity]. intros it ot. split; [discriminate|].
      intros (i' & o' & H & -> & -> & Hi' & _). inversion H; subst.
      apply forallb_id_regex_match in Hi'. congruence.
  - split; [intros; split; [discriminate | intros (i' & o' & H & _); discriminate]
           | reflexivity].
Qed.


Section GraphInitFacts.

Variables T S : Type.
Variable CreateChild :
  list (string * Layer T) -> string -> LayerParams S -> result (Layer T).

Hypothesis CreateChild_total : forall children name sub,
  exists ch, CreateChild children name sub = Ok ch.




End GraphInitFacts.




(** ** The BatchParallel layer *)

(** C7, as the code has it.  With one device per split, and inputs that
    are all tensors, [BatchParallel] does one thing: it calls the wrapped
    layer on [theta.sub] and the inputs and returns what that call returns
    (or raises what it raises); nothing is split and nothing concatenated.
    When some input is not a tensor it raises before calling the layer. *)
Theorem BatchParallel_one_device_calls_sub :
  forall (T : Type)
         (SplitRecursively : list (value T) -> Z ->
                             result (list (list (value T))))
         (ConcatRecursively : list (shard_output T) -> result (shard_output T))
         (sub : Layer T) (theta : value T) (args : list (value T)),
    (forall th,
       forallb is_Tensor args = true ->
       py_getattr "sub" theta = Ok th ->
       BatchParallelLayer_FProp 1 SplitRecursively ConcatRecursively
         sub theta args
       = ([FPropCall "sub" th args (layer_FProp sub th args)],
          layer_FProp sub th args)) /\
    (forallb is_Tensor args = false ->
     BatchParallelLayer_FProp 1 SplitRecursively ConcatRecursively
       sub theta args
     = ([], Raise AssertionError)).
Proof.
  intros T Split_ Concat_ sub theta args.
  unfold BatchParallelLayer_FProp. cbn [Z.eqb Pos.eqb].
  split.
  - intros th Hall Hth. rewrite Hall, bind_assert, bind_lift, Hth.
    reflexivity.
  - intros Hall. rewrite Hall. reflexivity.
Qed.

Lemma BatchParallel_one_device_calls_sub_witness :
  BatchParallelLayer_FProp 1 no_split no_concat relu_layer
    (VMap [("sub", VMap [])]%string) [VTensor [-1; 2]%Z]
  = ([FPropCall "sub" (VMap []) [VTensor [-1; 2]%Z] (Ok (VTensor [0; 2]%Z))],
     Ok (VTensor [0; 2]%Z)) /\
  BatchParallelLayer_FProp 1 no_split no_concat relu_layer
    (VMap [("sub", VMap [])]%string) [VNone]
  = ([], Raise AssertionError).
Proof.
  pose proof (BatchParallel_one_device_calls_sub no_split no_concat relu_layer
                (VMap [("sub", VMap [])]%string)) as Hthm.
  split.
  - apply (proj1 (Hthm [VTensor [-1; 2]%Z]) (VMap [])); reflexivity.
  - apply (proj2 (Hthm [VNone])). reflexivity.
Defined.

(** C7, as stated, fails: [FirstN(1)] called directly on the single input
    [None] returns [None], while [BatchParallel] around it, with one device
    per split, raises on the same input without calling it. *)
Lemma BatchParallel_refuses_None_input :
  layer_FProp first_layer (VMap []) [VNone] = Ok VNone /\
  BatchParallelLayer_FProp 1 no_split no_concat first_layer
    (VMap [("sub", VMap [])]%string) [VNone]
  = ([], Raise AssertionError).
Proof. split; reflexivity. Qed.

(** ** Parameter trees: [Flatten] and [Pack] *)

Lemma value_map_ind : forall T (P : value T -> Prop),
  P VNone -> (forall t, P (VTensor t)) -> (forall s, P (VStr s)) ->
  (forall vs, P (VTuple vs)) ->
  (forall m, Forall (fun kx => P (snd kx)) m -> P (VMap m)) ->
  forall v, P v.
Proof.
  intros T P HN HT HS HTu HM.
  fix IH 1.
  intros [| t | s | vs | m]; [exact HN | apply HT | apply HS | apply HTu |].
  apply HM. revert m. fix IHm 1.
  intros [|[k x] m]; constructor; [apply IH | apply IHm].
Qed.

Lemma combine_app : forall A B (a a' : list A) (b b' : list B),
  length a = length b ->
  combine (a ++ a') (b ++ b') = combine a b ++ combine a' b'.
Proof.
  induction a as [|x a IH]; intros a' [|y b] b' H; cbn in H; try discriminate.
  - reflexivity.
  - cbn. rewrite IH; [reflexivity | lia].
Qed.

Section PackFacts.

Context {T : Type}.

Lemma flatten_items_map : forall key (m : NestedMap T),
  flatten_items key (VMap m)
  = flat_map (fun kx => flatten_items (dotted key (fst kx)) (snd kx)) m.
Proof. reflexivity. Qed.

Lemma pack_map : forall (m : NestedMap T) values,
  pack (VMap m) values
  = match pack_items pack m values with
    | Some (m', rest) => Some (VMap m', rest)
    | None => None
    end.
Proof. reflexivity. Qed.

Lemma pack_items_cons : forall pk k (x : value T) m values,
  pack_items pk ((k, x) :: m) values
  = match pk x values with
    | Some (x', values') =>
        match pack_items pk m values' with
        | Some (m'', values'') => Some ((k, x') :: m'', values'')
        | None => None
        end
    | None => None
    end.
Proof. reflexivity. Qed.

(** The leaves [Flatten] finds are not maps. *)
Lemma flatten_items_leaves : forall (v : value T) key,
  Forall (fun kx => is_Map (snd kx) = false) (flatten_items key v).
Proof.
  induction v as [| t | s | vs | m IHm] using value_map_ind; intros key;
    try (constructor; [reflexivity | constructor]).
  rewrite flatten_items_map.
  induction IHm as [|[k x] m Hx _ IH]; cbn [flat_map]; [constructor|].
  apply Forall_app. split; [apply Hx | apply IH].
Qed.

(** Packing as many values as there are leaves, none of them a map, gives
    a tree with the same paths and these values at its leaves. *)
Lemma pack_flatten : forall (v : value T) key vals rest,
  length vals = length (flatten_items key v) ->
  Forall (fun x => is_Map x = false) vals ->
  exists v',
    pack v (vals ++ rest) = Some (v', rest) /\
    flatten_items key v' = combine (map fst (flatten_items key v)) vals /\
    (is_Map v = true -> is_Map v' = true).
Proof.
  induction v as [| t | s | vs | m IHm] using value_map_ind;
    intros key vals rest Hlen Hleaf;
    try (destruct vals as [|y [|z vals]]; try discriminate Hlen;
         inversion Hleaf; subst;
         exists y; split; [reflexivity|]; split; [|discriminate];
         destruct y; try discriminate; reflexivity).
  rewrite flatten_items_map in Hlen.
  assert (Hm : exists m',
             pack_items pack m (vals ++ rest) = Some (m', rest) /\
             flat_map (fun kx => flatten_items (dotted key (fst kx)) (snd kx)) m'
             = combine (map fst (flat_map
                          (fun kx => flatten_items (dotted key (fst kx)) (snd kx)) m))
                       vals).
  { revert vals rest Hlen Hleaf.
    induction IHm as [|[k x] m Hx _ IH]; intros vals rest Hlen Hleaf.
    - destruct vals; [|discriminate]. exists []. split; reflexivity.
    - cbn [flat_map fst snd] in Hlen |- *. rewrite length_app in Hlen.
      set (n := length (flatten_items (dotted key k) x)) in *.
      assert (Hsplit : vals = firstn n vals ++ skipn n vals)
        by (symmetry; apply firstn_skipn).
      assert (Hn : length (firstn n vals) = n)
        by (apply firstn_length_le; lia).
      assert (Hn' : length (skipn n vals)
                    = length (flat_map
                        (fun kx => flatten_items (dotted key (fst kx)) (snd kx)) m))
        by (rewrite length_skipn; lia).
      assert (Hl1 : Forall (fun x => is_Map x = false) (firstn n vals))
        by (rewrite Hsplit in Hleaf; apply Forall_app in Hleaf; tauto).
      assert (Hl2 : Forall (fun x => is_Map x = false) (skipn n vals))
        by (rewrite Hsplit in Hleaf; apply Forall_app in Hleaf; tauto).
      cbn [snd] in Hx.
      destruct (Hx (dotted key k) (firstn n vals) (skipn n vals ++ rest) Hn Hl1)
        as (x' & Hpx & Hfx & _).
      destruct (IH (skipn n vals) rest Hn' Hl2) as (m' & Hpm & Hfm).
      exists ((k, x') :: m'). split.
      + rewrite pack_items_cons.
        rewrite Hsplit at 1. rewrite <- app_assoc, Hpx, Hpm. reflexivity.
      + cbn [flat_map fst snd]. rewrite Hfx, Hfm, map_app.
        rewrite Hsplit at 3. rewrite combine_app; [reflexivity|].
        rewrite length_map. symmetry. exact Hn. }
  destruct Hm as (m' & Hp & Hf).
  exists (VMap m'). rewrite pack_map, Hp. rewrite !flatten_items_map.
  split; [reflexivity | split; [exact Hf | reflexivity]].
Qed.

Lemma Pack_flatten : forall (m : NestedMap T) vals,
  length vals = length (flatten_items EmptyString (VMap m)) ->
  Forall (fun x => is_Map x = false) vals ->
  exists v',
    Pack (VMap m) vals = Ok v' /\
    flatten_items EmptyString v'
    = combine (map fst (flatten_items EmptyString (VMap m))) vals.
Proof.
  intros m vals Hlen Hleaf.
  destruct (@pack_flatten (VMap m) EmptyString vals [] Hlen Hleaf)
    as (v' & Hp & Hf & _).
  rewrite app_nil_r in Hp. exists v'. unfold Pack. rewrite Hp. auto.
Qed.

End PackFacts.

(** ** The SoftCond layer *)

Lemma sigmoid_0 : forall x, x = 0%R -> sigmoid x = (1 / 2)%R.
Proof.
  intros x ->. unfold sigmoid. rewrite Ropp_0, exp_0. lra.
Qed.

Lemma tf_einsum_i_iE_E_ok : forall a v b,
  tf_einsum_i_iE_E a v = Ok b ->
  b = mkTensor (tl (t_shape v))
        (weighted_sum (t_data a) (num_elements (tl (t_shape v))) (t_data v)).
Proof.
  intros a v b H. unfold tf_einsum_i_iE_E in H.
  destruct (t_shape a) as [|i [|]]; try discriminate.
  destruct (t_shape v) as [|i' rest]; try discriminate.
  destruct (i =? i'); inversion H. reflexivity.
Qed.

Lemma SoftCond_blend_leaf : forall expert_dist var_set key value value',
  SoftCond_blend expert_dist var_set (key, value) = Ok value' ->
  is_Map value = false -> is_Map value' = false.
Proof.
  intros d vs key value value' H Hleaf. unfold SoftCond_blend in H.
  destruct (in_var_set vs key && negb (is_None value)).
  - repeat (apply rbind_ok in H; destruct H as (? & _ & H)).
    inversion H. reflexivity.
  - inversion H; subst. assumption.
Qed.

Lemma SoftCond_blend_values : forall expert_dist var_set items values,
  map_r (SoftCond_blend expert_dist var_set) items = Ok values ->
  Forall (fun kx => is_Map (snd kx) = false) items ->
  length values = length items /\ Forall (fun x => is_Map x = false) values.
Proof.
  intros d vs items values H. apply map_r_ok_Forall2 in H.
  induction H as [|[k x] y items values Hb _ IH]; intros Hleaf.
  - split; [reflexivity | constructor].
  - inversion Hleaf; subst. destruct (IH H2) as [Hl Hf]. split.
    + cbn. rewrite Hl. reflexivity.
    + constructor; [|assumption]. eapply SoftCond_blend_leaf; eassumption.
Qed.

(** The run of [FProp] once the gate has been computed and every leaf
    blended. *)
Lemma SoftCond_FProp_run : forall self theta inputs args expert_dist vars tb values,
  _GetExpertDist self theta inputs = Ok expert_dist ->
  FlattenItems (sc_body_vars self) = Ok vars ->
  py_getattr "body" theta = Ok (VMap tb) ->
  map_r (SoftCond_blend expert_dist (map fst vars))
        (flatten_items EmptyString (VMap tb)) = Ok values ->
  exists weighted_theta,
    SoftCondLayer_FProp self theta inputs args
    = ((if sc_is_eval (sc_params self) then [] else [Histogram expert_dist])
       ++ [FPropCall "body" weighted_theta (inputs :: args)
             (layer_FProp (sc_body self) weighted_theta (inputs :: args))],
       layer_FProp (sc_body self) weighted_theta (inputs :: args)) /\
    flatten_items EmptyString weighted_theta
    = combine (map fst (flatten_items EmptyString (VMap tb))) values.
Proof.
  intros self theta inputs args d vars tb values Hd Hvars Hbody Hvalues.
  destruct (@SoftCond_blend_values d (map fst vars) _ values Hvalues
              (flatten_items_leaves (VMap tb) EmptyString)) as [Hlen Hleaf].
  destruct (@Pack_flatten _ tb values Hlen Hleaf) as (wt & Hpack & Hflat).
  exists wt. split; [|exact Hflat].
  unfold SoftCondLayer_FProp.
  rewrite bind_lift, Hd.
  assert (Hrest :
    (vars0 <- lift (FlattenItems (sc_body_vars self)) ;;
     theta_body <- lift (py_getattr "body" theta) ;;
     items <- lift (FlattenItems theta_body) ;;
     values0 <- lift (map_r (SoftCond_blend d (map fst vars0)) items) ;;
     weighted_theta <- lift (Pack theta_body values0) ;;
     call_fprop "body" (sc_body self) weighted_theta (inputs :: args))
    = ([FPropCall "body" wt (inputs :: args)
          (layer_FProp (sc_body self) wt (inputs :: args))],
       layer_FProp (sc_body self) wt (inputs :: args))).
  { rewrite bind_lift, Hvars, bind_lift, Hbody, bind_lift.
    cbn [FlattenItems]. rewrite bind_lift, Hvalues, bind_lift, Hpack.
    reflexivity. }
  destruct (sc_is_eval (sc_params self)); cbn [negb].
  - rewrite bind_ret_l. exact Hrest.
  - unfold emit. cbn [bind]. rewrite Hrest. reflexivity.
Qed.

Lemma SoftCond_blend_all : forall expert_dist var_set items,
  Forall (blendable expert_dist var_set) items ->
  exists values,
    map_r (SoftCond_blend expert_dist var_set) items = Ok values /\
    Forall2 (blended expert_dist var_set) items (combine (map fst items) values).
Proof.
  intros d vs items H.
  induction H as [|[k x] items Hb _ (values & Hm & Hf)].
  - exists []. split; [reflexivity | constructor].
  - unfold blendable in Hb. cbn [fst snd] in Hb.
    cbn [map_r]. rewrite Hm. unfold SoftCond_blend at 1.
    destruct (in_var_set vs k && negb (is_None x)) eqn:Hc.
    + destruct (Hb eq_refl) as (v & b & -> & He).
      cbn [as_tensor rbind]. rewrite He. cbn [rbind].
      eexists. split; [reflexivity|]. cbn [map fst combine].
      constructor; [|exact Hf].
      split; [reflexivity|]. cbn [fst snd]. rewrite Hc.
      exists v. rewrite <- (tf_einsum_i_iE_E_ok _ _ He). auto.
    + cbn [rbind]. eexists. split; [reflexivity|]. cbn [map fst combine].
      constructor; [|exact Hf].
      split; [reflexivity|]. cbn [fst snd]. rewrite Hc. reflexivity.
Qed.

(** C4.  In the forward pass of [SoftCond], once the gate weights are
    computed: every leaf of [theta.body] whose path is that of a variable
    registered by the body, and which is not [None], is replaced by the sum
    of its slices along the leading (expert) axis, each weighted by its gate
    weight; every other leaf reaches the body as it is; and the body's
    [FProp] is called once, with that parameter tree, the inputs and the
    further arguments -- its result is the result of the layer. *)
Theorem SoftCond_blends_variables_and_calls_body_once :
  forall (self : SoftCondLayer) (theta inputs : value Tensor)
         (args : list (value Tensor)) (expert_dist : Tensor)
         (vars : list (string * value Tensor)) (tb : NestedMap Tensor),
    _GetExpertDist self theta inputs = Ok expert_dist ->
    FlattenItems (sc_body_vars self) = Ok vars ->
    py_getattr "body" theta = Ok (VMap tb) ->
    Forall (blendable expert_dist (map fst vars))
           (flatten_items EmptyString (VMap tb)) ->
    exists weighted_theta,
      SoftCondLayer_FProp self theta inputs args
      = ((if sc_is_eval (sc_params self) then [] else [Histogram expert_dist])
         ++ [FPropCall "body" weighted_theta (inputs :: args)
               (layer_FProp (sc_body self) weighted_theta (inputs :: args))],
         layer_FProp (sc_body self) weighted_theta (inputs :: args)) /\
      Forall2 (blended expert_dist (map fst vars))
              (flatten_items EmptyString (VMap tb))
              (flatten_items EmptyString weighted_theta).
Proof.
  intros self theta inputs args d vars tb Hd Hvars Hbody Hall.
  destruct (SoftCond_blend_all Hall) as (values & Hvalues & Hblended).
  destruct (@SoftCond_FProp_run self theta inputs args d vars tb values
              Hd Hvars Hbody Hvalues) as (wt & Hrun & Hflat).
  exists wt. split; [exact Hrun|]. rewrite Hflat. exact Hblended.
Qed.

Lemma SoftCond_blends_variables_and_calls_body_once_witness :
  exists expert_dist weighted_theta,
    _GetExpertDist soft_two soft_two_theta soft_inputs = Ok expert_dist /\
    SoftCondLayer_FProp soft_two soft_two_theta soft_inputs []
    = ([Histogram expert_dist;
        FPropCall "body" weighted_theta [soft_inputs]
          (layer_FProp bias_layer weighted_theta [soft_inputs])],
       layer_FProp bias_layer weighted_theta [soft_inputs]) /\
    Forall2 (blended expert_dist ["b"%string])
            (flatten_items EmptyString (VMap soft_two_body_theta))
            (flatten_items EmptyString weighted_theta).
Proof.
  eexists.
  edestruct (@SoftCond_blends_variables_and_calls_body_once
               soft_two soft_two_theta soft_inputs [])
    as (weighted_theta & Hrun & Hleaves).
  - reflexivity.
  - reflexivity.
  - reflexivity.
  - repeat constructor; unfold blendable; cbn; intros H; try discriminate H.
    eexists; eexists; split; reflexivity.
  - exists weighted_theta. split; [reflexivity|]. split; [exact Hrun|].
    exact Hleaves.
Defined.

Lemma vadd_zeros : forall a, vadd a (repeat 0%R (length a)) = a.
Proof.
  induction a as [|x a IH]; [reflexivity|].
  unfold vadd in *. cbn. rewrite IH, Rplus_0_r. reflexivity.
Qed.

Lemma weighted_sum_single : forall g n data,
  length data = n -> weighted_sum [g] n data = vscale g data.
Proof.
  intros g n data Hn. unfold weighted_sum, vsum. cbn.
  rewrite firstn_all2 by lia.
  rewrite <- Hn. replace (length data) with (length (vscale g data))
    by apply length_map.
  apply vadd_zeros.
Qed.

Lemma SoftCond_scale_all : forall g var_set items,
  Forall (single_copy var_set) items ->
  exists values,
    map_r (SoftCond_blend (mkTensor [1] [g]) var_set) items = Ok values /\
    Forall2 (scaled g var_set) items (combine (map fst items) values).
Proof.
  intros g vs items H.
  induction H as [|[k x] items Hb _ (values & Hm & Hf)].
  - exists []. split; [reflexivity | constructor].
  - unfold single_copy in Hb. cbn [fst snd] in Hb.
    cbn [map_r]. rewrite Hm. unfold SoftCond_blend at 1.
    destruct (in_var_set vs k && negb (is_None x)) eqn:Hc.
    + destruct (Hb eq_refl) as (rest & data & -> & Hlen).
      cbn [as_tensor rbind tf_einsum_i_iE_E t_shape t_data Nat.eqb].
      rewrite (weighted_sum_single g data Hlen). cbn [rbind].
      eexists. split; [reflexivity|]. cbn [map fst combine].
      constructor; [|exact Hf].
      split; [reflexivity|]. cbn [fst snd]. rewrite Hc.
      exists rest, data. auto.
    + cbn [rbind]. eexists. split; [reflexivity|]. cbn [map fst combine].
      constructor; [|exact Hf].
      split; [reflexivity|]. cbn [fst snd]. rewrite Hc. reflexivity.
Qed.

(** C6, as the code has it.  With a single expert the gate is one number
    [g], the one [_GetExpertDist] returns.  [SoftCond] calls the body once,
    and the parameter tree it hands over holds, for every registered
    variable, the single copy of the parameter times [g]; every other leaf
    is unchanged.  The result is the body's result on that scaled tree, not
    on the copy itself. *)
Theorem SoftCond_one_expert_scales_by_gate :
  forall (self : SoftCondLayer) (theta inputs : value Tensor)
         (args : list (value Tensor)) (g : R)
         (vars : list (string * value Tensor)) (tb : NestedMap Tensor),
    _GetExpertDist self theta inputs = Ok (mkTensor [1] [g]) ->
    FlattenItems (sc_body_vars self) = Ok vars ->
    py_getattr "body" theta = Ok (VMap tb) ->
    Forall (single_copy (map fst vars)) (flatten_items EmptyString (VMap tb)) ->
    exists scaled_theta,
      SoftCondLayer_FProp self theta inputs args
      = ((if sc_is_eval (sc_params self) then []
          else [Histogram (mkTensor [1] [g])])
         ++ [FPropCall "body" scaled_theta (inputs :: args)
               (layer_FProp (sc_body self) scaled_theta (inputs :: args))],
         layer_FProp (sc_body self) scaled_theta (inputs :: args)) /\
      Forall2 (scaled g (map fst vars))
              (flatten_items EmptyString (VMap tb))
              (flatten_items EmptyString scaled_theta).
Proof.
  intros self theta inputs args g vars tb Hd Hvars Hbody Hall.
  destruct (SoftCond_scale_all g Hall) as (values & Hvalues & Hscaled).
  destruct (@SoftCond_FProp_run self theta inputs args _ vars tb values
              Hd Hvars Hbody Hvalues) as (wt & Hrun & Hflat).
  exists wt. split; [exact Hrun|]. rewrite Hflat. exact Hscaled.
Qed.

Lemma SoftCond_one_expert_scales_by_gate_witness :
  exists g scaled_theta,
    SoftCondLayer_FProp soft_one soft_one_theta soft_inputs []
    = ([FPropCall "body" scaled_theta [soft_inputs]
          (layer_FProp bias_layer scaled_theta [soft_inputs])],
       layer_FProp bias_layer scaled_theta [soft_inputs]) /\
    Forall2 (scaled g ["b"%string])
            (flatten_items EmptyString (VMap soft_one_body_theta))
            (flatten_items EmptyString scaled_theta).
Proof.
  eexists.
  edestruct (@SoftCond_one_expert_scales_by_gate
               soft_one soft_one_theta soft_inputs [])
    as (scaled_theta & Hrun & Hleaves).
  - reflexivity.
  - reflexivity.
  - reflexivity.
  - repeat constructor; unfold single_copy; cbn; intros H; try discriminate H.
    eexists; eexists; split; reflexivity.
  - exists scaled_theta. split; [exact Hrun|]. exact Hleaves.
Defined.

(** C6, as stated, fails.  A bias body with parameter [b = [1]] called
    directly on the input [[0]] returns [[0 + 1]]; [SoftCond] with one
    expert around it returns [[0 + y]] for [y = 1/2], the product of the
    gate, which is the logistic function at 0, and [b]. *)
Lemma SoftCond_one_expert_differs_from_body :
  layer_FProp bias_layer soft_one_unstacked [soft_inputs]
    = Ok (VTensor (mkTensor [1] [(0 + 1)%R])) /\
  (exists y,
     snd (SoftCondLayer_FProp soft_one soft_one_theta soft_inputs [])
       = Ok (VTensor (mkTensor [1] [(0 + y)%R])) /\
     y = (1 / 2)%R) /\
  snd (SoftCondLayer_FProp soft_one soft_one_theta soft_inputs [])
    <> layer_FProp bias_layer soft_one_unstacked [soft_inputs].
Proof.
  assert (Hy : exists y,
     snd (SoftCondLayer_FProp soft_one soft_one_theta soft_inputs [])
       = Ok (VTensor (mkTensor [1] [(0 + y)%R])) /\
     y = (1 / 2)%R).
  { eexists. split; [reflexivity|]. cbn [fst snd].
    match goal with
    | |- (sigmoid ?z * 1 + 0)%R = _ =>
        rewrite (@sigmoid_0 z) by (cbn; lra)
    end.
    lra. }
  split; [reflexivity|]. split; [exact Hy|].
  destruct Hy as (y & Hsoft & Hne). rewrite Hsoft.
  change (layer_FProp bias_layer soft_one_unstacked [soft_inputs])
    with (Ok (VTensor (mkTensor [1] [(0 + 1)%R]))).
  intros Heq. inversion Heq as [Hdata]. lra.
Qed.

(** ** The Repeat layer: the arity of the body *)

Section ArityFacts.

Variable n : nat.

Lemma arity_checked_nil : forall A (r : result A),
  arity_checked n (([] : list (fprop_event Tensor)), r).
Proof. intros A r name th ins res []. Qed.

Lemma arity_checked_lift : forall A (r : result A),
  arity_checked n (lift r : M (fprop_event Tensor) A).
Proof. intros. apply arity_checked_nil. Qed.

Lemma arity_checked_bind : forall A B (m : M (fprop_event Tensor) A)
                                  (f : A -> M (fprop_event Tensor) B),
  arity_checked n m -> (forall a, arity_checked n (f a)) ->
  arity_checked n (bind m f).
Proof.
  intros A B [l1 [a|e]] f Hm Hf.
  2:{ intros name th ins res Hin. cbn [bind fst snd] in *.
      destruct (Hm name th ins res Hin) as [Hlen Hout]. split; [exact Hlen|].
      intros out Hres. destruct (Hout out Hres) as [Hok|Hbad];
        [left; exact Hok | right; inversion Hbad; reflexivity]. }
  specialize (Hf a). unfold bind. destruct (f a) as [l2 r2].
  intros name th ins res Hin. cbn [fst snd] in *.
  apply in_app_or in Hin. destruct Hin as [Hin|Hin].
  - destruct (Hm name th ins res Hin) as [Hlen Hout]. split; [exact Hlen|].
    intros out Hres. destruct (Hout out Hres) as [Hok|Hbad];
      [left; exact Hok | discriminate Hbad].
  - exact (Hf name th ins res Hin).
Qed.

Lemma arity_checked_for_each : forall A St (l : list A)
    (body : St -> A -> M (fprop_event Tensor) St) s,
  (forall s x, arity_checked n (body s x)) ->
  arity_checked n (for_each l body s).
Proof.
  induction l as [|x l IH]; intros body s Hbody; cbn [for_each].
  - apply arity_checked_nil.
  - apply arity_checked_bind; [apply Hbody | intros s'; apply IH; exact Hbody].
Qed.

End ArityFacts.

Lemma map_r_length : forall A B (f : A -> result B) l l',
  map_r f l = Ok l' -> length l' = length l.
Proof.
  intros A B f l l' H. apply map_r_ok_Forall2 in H.
  induction H; cbn; congruence.
Qed.

Lemma _StateToArgs_shape : forall args state outs,
  _StateToArgs args state = Ok outs ->
  length outs = length args /\ Forall (fun x => is_Tuple x = false) outs.
Proof.
  intros args state outs H. split.
  - apply map_r_length in H. rewrite H. apply length_seq.
  - unfold _StateToArgs in H. apply map_r_ok_Forall2 in H.
    induction H as [|idx x idxs outs Hx _ IH]; constructor; [|exact IH].
    cbv zeta in Hx.
    destruct (lookup (state_key idx) state) as [v|]; [|inversion Hx; reflexivity].
    destruct (is_None v) eqn:Hn; [inversion Hx; subst; destruct x; easy|].
    apply rbind_ok in Hx. destruct Hx as (like & _ & Hx).
    apply rbind_ok in Hx. destruct Hx as (u & Hset & Hx).
    inversion Hx; subst. destruct x; try discriminate Hset; reflexivity.
Qed.

Lemma _CellFn_arity : forall args body theta_stack state0 theta_i,
  arity_checked (length args) (_CellFn args body theta_stack state0 theta_i).
Proof.
  intros args body theta_stack state0 theta_i. unfold _CellFn.
  rewrite bind_lift.
  destruct (_StateToArgs args state0) as [ins|e] eqn:Hins;
    [|apply arity_checked_nil].
  apply _StateToArgs_shape in Hins. destruct Hins as [Hlen _].
  rewrite bind_lift.
  destruct (set_theta_shapes theta_i theta_stack); [|apply arity_checked_nil].
  unfold call_fprop.
  destruct (layer_FProp body theta_i ins) as [out|e] eqn:Hres; cbn [bind].
  - rewrite bind_assert.
    destruct (len (_ToTuple out) =? len ins)%Z eqn:Hb.
    + unfold lift. cbn [app].
      intros name th ins' res [Hev|[]]. inversion Hev; subst.
      split; [exact Hlen|]. intros out' Hout. inversion Hout; subst.
      left. rewrite <- Hlen. apply len_eqb_length. exact Hb.
    + cbn [app]. intros name th ins' res [Hev|[]]. inversion Hev; subst.
      split; [exact Hlen|]. intros out' _. right. reflexivity.
  - intros name th ins' res [Hev|[]]. inversion Hev; subst.
    split; [exact Hlen|]. intros out' Hout. discriminate Hout.
Qed.

Lemma Recurrent_arity : forall k state0 inputs cell_fn,
  (forall s x, arity_checked k (cell_fn s x)) ->
  arity_checked k (Recurrent state0 inputs cell_fn).
Proof.
  intros k state0 inputs cell_fn Hcell. unfold Recurrent.
  apply arity_checked_bind; [apply arity_checked_lift|].
  intros [|d ds]; [apply arity_checked_nil|].
  destruct (forallb (Nat.eqb d) ds); [|apply arity_checked_nil].
  apply arity_checked_for_each. intros s i.
  apply arity_checked_bind; [apply arity_checked_lift|]. intros slices.
  apply arity_checked_bind; [apply arity_checked_lift|]. intros inputs_i.
  apply Hcell.
Qed.

(** C10.  In every run of the forward pass of [Repeat], each call of the
    body is made with as many inputs as the layer was called with, and a
    call that returns another number of outputs ends the run in a failed
    assertion.  When the run returns, the result is a tuple with one entry
    per input if the layer was called with a number of inputs other than
    one, and the single output itself, not wrapped in a tuple, if it was
    called with exactly one. *)
Theorem Repeat_body_keeps_arity :
  forall (self : RepeatLayer) (theta : value Tensor)
         (args : list (value Tensor)),
    arity_checked (length args) (RepeatLayer_FProp self theta args) /\
    (forall v,
       snd (RepeatLayer_FProp self theta args) = Ok v ->
       (length args = 1 -> is_Tuple v = false) /\
       (length args <> 1 ->
        exists outs, v = VTuple outs /\ length outs = length args)).
Proof.
  intros self theta args. split.
  - unfold RepeatLayer_FProp.
    apply arity_checked_bind; [apply arity_checked_lift|]. intros theta_body.
    apply arity_checked_bind; [apply arity_checked_lift|]. intros theta_stack.
    apply arity_checked_bind; [apply arity_checked_lift|]. intros state0.
    apply arity_checked_bind;
      [apply Recurrent_arity; intros; apply _CellFn_arity|].
    intros state1.
    apply arity_checked_bind; [apply arity_checked_lift|]. intros outs.
    destruct (len args =? 1)%Z;
      [apply arity_checked_lift | apply arity_checked_nil].
  - intros v. unfold RepeatLayer_FProp.
    rewrite bind_lift. destruct (py_getattr "body" theta); [|discriminate].
    rewrite bind_lift. destruct (_MaybeStackExtraTheta _ _ _); [|discriminate].
    rewrite bind_lift. destruct (_ArgsToState args args); [|discriminate].
    destruct (Recurrent _ _ _) as [l1 [state1|e]]; cbn [bind]; [|discriminate].
    destruct (_StateToArgs args state1) as [outs|e] eqn:Houts;
      [|discriminate].
    apply _StateToArgs_shape in Houts. destruct Houts as [Hlen Hbare].
    unfold lift at 1. cbn iota beta.
    destruct (len args =? 1)%Z eqn:Hone.
    + apply Z.eqb_eq in Hone. unfold len in Hone.
      assert (H1 : length args = 1) by lia.
      destruct outs as [|x [|y outs]]; cbn in Hlen; try lia.
      cbn. intros Hv. inversion Hv; subst. split; [|lia].
      intros _. inversion Hbare; assumption.
    + apply Z.eqb_neq in Hone. unfold len in Hone.
      cbn. intros Hv. inversion Hv; subst. split; [lia|].
      intros _. exists outs. auto.
Qed.

Lemma Repeat_body_keeps_arity_witness :
  arity_checked 1
    (RepeatLayer_FProp repeat_demo repeat_demo_theta [soft_inputs]) /\
  snd (RepeatLayer_FProp repeat_demo repeat_demo_theta [soft_inputs])
    = Ok (VTensor (mkTensor [1] [(0 + 1 + 3)%R])) /\
  is_Tuple (VTensor (mkTensor [1] [(0 + 1 + 3)%R])) = false /\
  snd (RepeatLayer_FProp repeat_twice repeat_demo_theta [soft_inputs])
    = Raise AssertionError.
Proof.
  pose proof (Repeat_body_keeps_arity repeat_demo repeat_demo_theta
                [soft_inputs]) as [Harity Hresult].
  split; [exact Harity|]. split; [reflexivity|]. split.
  - apply (Hresult (VTensor (mkTensor [1] [(0 + 1 + 3)%R]))); reflexivity.
  - pose proof (Repeat_body_keeps_arity repeat_twice repeat_demo_theta
                  [soft_inputs]) as [Harity2 _].
    destruct (Harity2 "body"%string
                (VMap [("b", VTensor (mkTensor [1] [1%R]))]%string)
                [soft_inputs] (Ok (VTuple [soft_inputs; soft_inputs])))
      as [_ Hout].
    + left. reflexivity.
    + destruct (Hout _ eq_refl) as [Hbad|Hraise];
        [discriminate Hbad | exact Hraise].
Defined.

(** ** Sequential, UnarySequential and Parallel *)

Lemma bind_raise : forall E A B (m : M E A) (f : A -> M E B) l e,
  m = (l, Raise e) -> bind m f = (l, Raise e).
Proof. intros E A B m f l e ->. reflexivity. Qed.

Lemma bind_call : forall E A B (l : list E) (a : A) (f : A -> M E B),
  bind (l, Ok a) f = (l ++ fst (f a), snd (f a)).
Proof. intros. cbn. destruct (f a). reflexivity. Qed.

Lemma ToTuple_unwrap_single : forall T (x : value T),
  plain x = true -> _ToTuple (unwrap_single (_ToTuple x)) = _ToTuple x.
Proof.
  intros T x H. destruct x as [| t | s | vs | m]; try reflexivity.
  destruct vs as [|a [|b vs]]; try reflexivity.
  destruct a; try reflexivity. discriminate H.
Qed.

Section ChainFacts.

Variables T S : Type.
Variable CreateChild :
  list (string * Layer T) -> string -> LayerParams S -> result (Layer T).

Lemma make_seq_loop : forall (subs : list (LayerParams S)) seq0 _seq,
  fold_r (fun _seq sub =>
            rbind (CreateChild _seq (lp_name sub) sub) (fun child =>
            Ok (_seq ++ [(lp_name sub, child)])))
         subs seq0 = Ok _seq ->
  map fst _seq = map fst seq0 ++ map (@lp_name S) subs.
Proof.
  induction subs as [|sub subs IH]; intros seq0 _seq H; cbn [fold_r] in H.
  - inversion H; subst. cbn. rewrite app_nil_r. reflexivity.
  - apply rbind_ok in H. destruct H as (seq1 & Hstep & Hrest).
    apply rbind_ok in Hstep. destruct Hstep as (child & _ & Hstep).
    inversion Hstep; subst. apply IH in Hrest.
    rewrite Hrest, map_app, <- app_assoc. reflexivity.
Qed.

Lemma make_seq_names : forall (subs : list (LayerParams S)) _seq,
  make_seq CreateChild subs = Ok _seq ->
  map fst _seq = map (@lp_name S) subs.
Proof. intros subs _seq H. apply make_seq_loop in H. exact H. Qed.

Lemma Sequential_init_flat_names : forall name (subs : list (LayerParams S)) _seq,
  Sequential_init_flat CreateChild name subs = Ok _seq ->
  map fst _seq = map (@lp_name S) subs.
Proof.
  intros name subs _seq H. unfold Sequential_init_flat in H.
  apply rbind_ok in H. destruct H as (_ & _ & H).
  apply make_seq_names. exact H.
Qed.

(** The calls of a chain that went through, and what it ends with. *)
Lemma threads_for_each : forall theta (_seq : list (string * Layer T)) x log z,
  fprop_threads theta _seq x log z ->
  for_each _seq (Sequential_FProp_step theta) x = (log, Ok z).
Proof.
  induction 1 as [x | name ch _seq x th y log z Hth Hy _ IH];
    cbn [for_each]; [reflexivity|].
  unfold Sequential_FProp_step at 1. rewrite bind_lift, Hth.
  unfold call_fprop. rewrite Hy, bind_call, IH. reflexivity.
Qed.

Lemma for_each_threads : forall theta (_seq : list (string * Layer T)) x log z,
  for_each _seq (Sequential_FProp_step theta) x = (log, Ok z) ->
  fprop_threads theta _seq x log z.
Proof.
  induction _seq as [|[name ch] _seq IH]; intros x log z H; cbn [for_each] in H.
  - inversion H; subst. constructor.
  - unfold Sequential_FProp_step at 1 in H. cbn beta iota in H.
    rewrite bind_assoc in H. lifted_ok H th Hth.
    unfold call_fprop in H.
    destruct (layer_FProp ch th (_ToTuple x)) as [y|e] eqn:Hy;
      [|discriminate H].
    rewrite bind_call in H. inversion H as [[Hlog Hz]]; subst log.
    constructor; try assumption.
    apply IH. destruct (for_each _seq _ y) as [l r]; cbn in *.
    subst r. reflexivity.
Qed.

Lemma fprop_threads_names : forall theta (_seq : list (string * Layer T)) x log z,
  fprop_threads theta _seq x log z ->
  map (@fprop_call_name T) log = map (fun e => Some (fst e)) _seq.
Proof.
  induction 1; cbn [map fprop_call_name fst]; [reflexivity|].
  f_equal. assumption.
Qed.

Lemma Sequential_FProp_flat_names : forall (_seq : list (string * Layer T))
    theta args log v,
  Sequential_FProp_flat _seq theta args = (log, Ok v) ->
  map (@fprop_call_name T) log = map (fun e => Some (fst e)) _seq.
Proof.
  intros _seq theta args log v H. unfold Sequential_FProp_flat in H.
  apply bind_ok in H. destruct H as (l1 & out & l2 & Hrun & Hret & ->).
  inversion Hret; subst. rewrite app_nil_r.
  eapply fprop_threads_names. apply for_each_threads. eassumption.
Qed.

End ChainFacts.

Section RepetitionFacts.

Variables T S : Type.
Variable CreateChild :
  list (string * Layer T) -> string -> LayerParams S -> result (Layer T).

Lemma Sequential_rep_loop_names :
  forall (entries : list ((string * list (string * Layer T)) * value T))
         (names : list string) x log z,
    Forall (fun e => map fst (snd (fst e)) = names) entries ->
    for_each entries (@Sequential_rep_step T) x = (log, Ok z) ->
    map (@fprop_call_name T) log
    = concat (repeat (map Some names) (length entries)).
Proof.
  induction entries as [|[[nm _seq] th] entries IH]; intros names x log z Hall H;
    cbn [for_each] in H.
  - inversion H; subst. reflexivity.
  - apply bind_ok in H. destruct H as (l1 & y & l2 & Hstep & Hrest & ->).
    apply Forall_cons_iff in Hall. destruct Hall as [Hhd Htl].
    cbn [fst snd] in Hhd.
    unfold Sequential_rep_step in Hstep.
    apply Sequential_FProp_flat_names in Hstep.
    rewrite map_app, Hstep. cbn [length repeat concat].
    rewrite (IH _ _ _ _ Htl Hrest), <- Hhd, map_map. reflexivity.
Qed.

Lemma Sequential_init_rep : forall (p : SequentialParams S) self,
  (1 < seq_repeat p)%Z ->
  SequentialLayer_init CreateChild p = Ok self ->
  sl_params self = p /\
  length (sl_rep self) = Z.to_nat (seq_repeat p) /\
  Forall (fun e => map fst (snd e) = map (@lp_name S) (seq_sub p)) (sl_rep self).
Proof.
  intros p self Hrep H. unfold SequentialLayer_init in H.
  destruct (Z.leb_spec (seq_repeat p) 1) as [?|_]; [lia|].
  apply rbind_ok in H. destruct H as (_ & _ & H).
  apply rbind_ok in H. destruct H as (rep & Hrep' & H).
  inversion H; subst; cbn [sl_params sl_rep].
  split; [reflexivity|]. split.
  - apply map_r_length in Hrep'. rewrite Hrep'. apply range_length.
  - apply map_r_ok_Forall2 in Hrep'.
    clear H. induction Hrep' as [|i e ixs es Hi _ IH]; [constructor|].
    constructor; [|exact IH].
    apply rbind_ok in Hi. destruct Hi as (_seq & Hflat & Hi).
    inversion Hi; subst. cbn [snd].
    eapply Sequential_init_flat_names. eassumption.
Qed.

Lemma Sequential_init_one : forall (p : SequentialParams S) self,
  (seq_repeat p <= 1)%Z ->
  SequentialLayer_init CreateChild p = Ok self ->
  sl_params self = p /\
  Sequential_init_flat CreateChild (seq_name p) (seq_sub p) = Ok (sl_seq self).
Proof.
  intros p self Hrep H. unfold SequentialLayer_init in H.
  destruct (Z.leb_spec (seq_repeat p) 1) as [_|?]; [|lia].
  apply rbind_ok in H. destruct H as (_seq & Hflat & H).
  inversion H; subst. auto.
Qed.

End RepetitionFacts.

(** What a chain does to its state depends on the state's entries only. *)
Lemma Sequential_chain_ToTuple : forall T (_seq : list (string * Layer T))
    theta (st st' : value T),
  _ToTuple st = _ToTuple st' ->
  (out <- for_each _seq (Sequential_FProp_step theta) st ;;
   ret (unwrap_single (_ToTuple out)))
  = (out <- for_each _seq (Sequential_FProp_step theta) st' ;;
     ret (unwrap_single (_ToTuple out))).
Proof.
  intros T [|[name ch] _seq] theta st st' H; cbn [for_each].
  - rewrite !bind_ret_l, H. reflexivity.
  - unfold Sequential_FProp_step at 1 3. rewrite H. reflexivity.
Qed.

Lemma Sequential_chain_plain : forall T theta (_seq : list (string * Layer T))
    x log z,
  fprop_threads theta _seq x log z ->
  plain x = true ->
  Forall (fun e => returns_plain (snd e)) _seq ->
  plain z = true.
Proof.
  induction 1 as [x | name ch _seq x th y log z Hth Hy _ IH]; intros Hx Hall;
    [exact Hx|].
  apply Forall_cons_iff in Hall. destruct Hall as [Hch Hall].
  apply IH; [|exact Hall]. eapply Hch. exact Hy.
Qed.

(** ** The forward pass of Sequential *)

(** X1.  The forward pass of a [Sequential] with [repeat <= 1] hands the
    inputs through the sub-layers in the order of [self._seq]: each is
    called on its own entry of [theta] and on the outputs of the one before
    it, a single output counting as a tuple of one; the result is the last
    output, bare when it is a single one.  Whenever such a threading goes
    through, [FProp] makes exactly its calls and returns its result, and
    whenever [FProp] returns it is the outcome of such a threading. *)
Theorem Sequential_FProp_threads_in_order :
  forall (T S : Type) (self : SequentialLayer T S) (theta : value T)
         (args : list (value T)),
    (seq_repeat (sl_params self) <= 1)%Z ->
    (forall log z,
       fprop_threads theta (sl_seq self) (VTuple args) log z ->
       SequentialLayer_FProp self theta args
       = (log, Ok (unwrap_single (_ToTuple z)))) /\
    (forall log v,
       SequentialLayer_FProp self theta args = (log, Ok v) ->
       exists z,
         fprop_threads theta (sl_seq self) (VTuple args) log z /\
         v = unwrap_single (_ToTuple z)).
Proof.
  intros T S self theta args Hrep. unfold SequentialLayer_FProp.
  destruct (Z.leb_spec (seq_repeat (sl_params self)) 1) as [_|?]; [|lia].
  unfold Sequential_FProp_flat. split.
  - intros log z Hth. rewrite (threads_for_each Hth), bind_call; cbn.
    rewrite app_nil_r. reflexivity.
  - intros log v H.
    apply bind_ok in H. destruct H as (l1 & out & l2 & Hrun & Hret & ->).
    inversion Hret; subst. rewrite app_nil_r.
    exists out. split; [apply for_each_threads; assumption | reflexivity].
Qed.

Lemma Sequential_FProp_threads_in_order_witness :
  SequentialLayer_FProp chain_demo chain_demo_theta [VTensor [-1; 2]%Z]
  = ([FPropCall "relu" (VMap []) [VTensor [-1; 2]%Z] (Ok (VTensor [0; 2]%Z));
      FPropCall "dup" (VMap []) [VTensor [0; 2]%Z]
        (Ok (VTuple [VTensor [0; 2]%Z; VTensor [0; 2]%Z]));
      FPropCall "add" (VMap []) [VTensor [0; 2]%Z; VTensor [0; 2]%Z]
        (Ok (VTensor [0; 4]%Z))],
     Ok (VTensor [0; 4]%Z)).
Proof.
  apply (proj1 (@Sequential_FProp_threads_in_order _ _ chain_demo
                  chain_demo_theta [VTensor [-1; 2]%Z] ltac:(cbn; lia))
           _ (VTensor [0; 4]%Z)).
  repeat (econstructor; try reflexivity).
Defined.

(** X2.  The first sub-layer of a [Sequential] (with [repeat <= 1]) that
    fails ends the forward pass: when [theta] has no entry under its name
    the error of the lookup is raised and the sub-layer is not called; when
    its own [FProp] raises, that error is raised and its call is the last
    one logged.  Either way no later sub-layer is called. *)
Theorem Sequential_FProp_stops_at_first_failure :
  forall (T S : Type) (self : SequentialLayer T S) (theta : value T)
         (args : list (value T)) pre name ch post log y,
    (seq_repeat (sl_params self) <= 1)%Z ->
    sl_seq self = pre ++ (name, ch) :: post ->
    fprop_threads theta pre (VTuple args) log y ->
    (forall e,
       py_getitem name theta = Raise e ->
       SequentialLayer_FProp self theta args = (log, Raise e)) /\
    (forall th e,
       py_getitem name theta = Ok th ->
       layer_FProp ch th (_ToTuple y) = Raise e ->
       SequentialLayer_FProp self theta args
       = (log ++ [FPropCall name th (_ToTuple y) (Raise e)], Raise e)).
Proof.
  intros T S self theta args pre name ch post log y Hrep Hseq Hth.
  unfold SequentialLayer_FProp.
  destruct (Z.leb_spec (seq_repeat (sl_params self)) 1) as [_|?]; [|lia].
  unfold Sequential_FProp_flat. rewrite Hseq, for_each_app.
  rewrite (threads_for_each Hth). cbn [for_each].
  split.
  - intros e He.
    assert (Hstep : Sequential_FProp_step theta y (name, ch) = ([], Raise e)).
    { unfold Sequential_FProp_step. rewrite bind_lift, He. reflexivity. }
    rewrite bind_call, Hstep. cbn. rewrite app_nil_r. reflexivity.
  - intros th e Hget He.
    assert (Hstep : Sequential_FProp_step theta y (name, ch)
                    = ([FPropCall name th (_ToTuple y) (Raise e)], Raise e)).
    { unfold Sequential_FProp_step. rewrite bind_lift, Hget.
      unfold call_fprop. rewrite He. reflexivity. }
    rewrite bind_call, Hstep. reflexivity.
Qed.

Lemma Sequential_FProp_stops_at_first_failure_witness :
  SequentialLayer_FProp
    {| sl_params := chain_demo_params;
       sl_seq := [("relu", relu_layer); ("dup", failing_layer);
                  ("add", add_layer)]%string;
       sl_rep := [] |}
    chain_demo_theta [VTensor [-1; 2]%Z]
  = ([FPropCall "relu" (VMap []) [VTensor [-1; 2]%Z] (Ok (VTensor [0; 2]%Z));
      FPropCall "dup" (VMap []) [VTensor [0; 2]%Z] (Raise ValueError)],
     Raise ValueError).
Proof.
  apply (proj2 (@Sequential_FProp_stops_at_first_failure _ _
                  {| sl_params := chain_demo_params;
                     sl_seq := [("relu", relu_layer); ("dup", failing_layer);
                                ("add", add_layer)]%string;
                     sl_rep := [] |}
                  chain_demo_theta [VTensor [-1; 2]%Z]
                  [("relu", relu_layer)]%string "dup"%string failing_layer
                  [("add", add_layer)]%string
                  [FPropCall "relu" (VMap []) [VTensor [-1; 2]%Z]
                     (Ok (VTensor [0; 2]%Z))]
                  (VTensor [0; 2]%Z)
                  ltac:(cbn; lia) eq_refl
                  ltac:(repeat (econstructor; try reflexivity)))
           (VMap []) ValueError eq_refl eq_refl).
Defined.

(** X3.  Which sub-layers the forward pass of a constructed [Sequential]
    has called when it returns, in order: with [repeat <= 1] every
    sub-layer of [p.sub] once; with [repeat > 1] the whole list once per
    pair of [zip(self.rep, theta.rep)], that is [repeat] times when
    [theta.rep] has that many entries and fewer when it has fewer. *)
Theorem Sequential_FProp_calls_per_repetition :
  forall (T S : Type)
         (CreateChild : list (string * Layer T) -> string -> LayerParams S ->
                        result (Layer T))
         (p : SequentialParams S) (self : SequentialLayer T S)
         (theta : value T) (args : list (value T)) log v,
    SequentialLayer_init CreateChild p = Ok self ->
    SequentialLayer_FProp self theta args = (log, Ok v) ->
    ((seq_repeat p <= 1)%Z ->
     map (@fprop_call_name T) log
     = map (fun sub => Some (lp_name sub)) (seq_sub p)) /\
    ((1 < seq_repeat p)%Z ->
     exists theta_rep ths,
       py_getattr "rep" theta = Ok theta_rep /\
       py_iter theta_rep = Ok ths /\
       map (@fprop_call_name T) log
       = concat (repeat (map (fun sub => Some (lp_name sub)) (seq_sub p))
                        (Nat.min (Z.to_nat (seq_repeat p)) (length ths)))).
Proof.
  intros T S CreateChild p self theta args log v Hinit Hrun. split.
  - intros Hrep.
    destruct (Sequential_init_one _ _ Hrep Hinit) as [Hp Hflat].
    unfold SequentialLayer_FProp in Hrun. rewrite Hp in Hrun.
    destruct (Z.leb_spec (seq_repeat p) 1) as [_|?]; [|lia].
    apply Sequential_FProp_flat_names in Hrun.
    apply Sequential_init_flat_names in Hflat.
    rewrite Hrun, <- (map_map fst Some), Hflat, map_map. reflexivity.
  - intros Hrep.
    destruct (Sequential_init_rep _ _ Hrep Hinit) as (Hp & Hlen & Hall).
    unfold SequentialLayer_FProp in Hrun. rewrite Hp in Hrun.
    destruct (Z.leb_spec (seq_repeat p) 1) as [?|_]; [lia|].
    lifted_ok Hrun theta_rep Hget. lifted_ok Hrun ths Hiter.
    exists theta_rep, ths. split; [reflexivity|]. split; [exact Hiter|].
    assert (Hcomb : Forall (fun e => map fst (snd (fst e))
                                     = map (@lp_name S) (seq_sub p))
                      (combine (sl_rep self) ths)).
    { clear Hrun Hiter Hlen. revert ths.
      induction Hall as [|e es He _ IH]; intros [|th ths]; cbn [combine];
        try (constructor; fail).
      constructor; [exact He | apply IH]. }
    apply bind_ok in Hrun. destruct Hrun as (l1 & out & l2 & Hloop & Hret & ->).
    inversion Hret as [[Hl2 Hv]]. rewrite app_nil_r.
    rewrite (Sequential_rep_loop_names _ Hcomb Hloop).
    rewrite length_combine, Hlen, map_map. reflexivity.
Qed.

Lemma Sequential_FProp_calls_per_repetition_witness :
  exists theta_rep ths,
    py_getattr "rep" stack_demo_theta = Ok theta_rep /\
    py_iter theta_rep = Ok ths /\
    map (@fprop_call_name (list Z))
      [FPropCall "relu" (VMap []) [VTensor [-1; 2]%Z] (Ok (VTensor [0; 2]%Z));
       FPropCall "relu" (VMap []) [VTensor [0; 2]%Z] (Ok (VTensor [0; 2]%Z))]
    = concat (repeat (map (fun sub => Some (lp_name sub))
                          (seq_sub stack_demo_params))
                     (Nat.min (Z.to_nat (seq_repeat stack_demo_params))
                              (length ths))).
Proof.
  apply (proj2 (@Sequential_FProp_calls_per_repetition _ _ chain_CreateChild
                  stack_demo_params stack_demo stack_demo_theta
                  [VTensor [-1; 2]%Z] _ (VTensor [0; 2]%Z)
                  eq_refl eq_refl)).
  cbn; lia.
Defined.

(** X4.  A repeat count of zero or less means two different things to a
    [Sequential].  Shape inference loops over [range(repeat)]: it asks no
    sub-layer, and reports cost 0 and the input shapes as output shapes.
    The constructor and the forward pass only ask whether [repeat <= 1]:
    the layer is built, and runs, exactly as with [repeat = 1]. *)
Theorem Sequential_repeat_below_one_runs_once :
  forall (T S : Type) (CheckShapes : list (value S) -> bool)
         (CreateChild : list (string * Layer T) -> string -> LayerParams S ->
                        result (Layer T))
         (p : SequentialParams S),
    (seq_repeat p <= 0)%Z ->
    (forall shapes,
       CheckShapes shapes = true ->
       SequentialLayer_FPropMeta CheckShapes p shapes
       = ([], Ok (mkMeta 0 shapes))) /\
    (forall self1,
       SequentialLayer_init CreateChild (with_repeat p 1) = Ok self1 ->
       exists self,
         SequentialLayer_init CreateChild p = Ok self /\
         sl_seq self = sl_seq self1 /\
         forall theta args,
           SequentialLayer_FProp self theta args
           = SequentialLayer_FProp self1 theta args).
Proof.
  intros T S CheckShapes CreateChild p Hrep. split.
  - intros shapes Hck. unfold SequentialLayer_FPropMeta.
    rewrite Hck, bind_assert. unfold range.
    replace (Z.to_nat (seq_repeat p)) with 0 by lia. reflexivity.
  - intros self1 H1.
    destruct (@Sequential_init_one T S CreateChild (with_repeat p 1) self1
                ltac:(cbn; lia) H1) as [Hp1 Hflat].
    cbn [with_repeat seq_name seq_sub] in Hflat.
    exists {| sl_params := p; sl_seq := sl_seq self1; sl_rep := [] |}.
    split; [|split; [reflexivity|]].
    + unfold SequentialLayer_init.
      destruct (Z.leb_spec (seq_repeat p) 1) as [_|?]; [|lia].
      rewrite Hflat. reflexivity.
    + intros theta args. unfold SequentialLayer_FProp.
      rewrite Hp1. cbn [sl_params sl_seq with_repeat seq_repeat].
      destruct (Z.leb_spec (seq_repeat p) 1) as [_|?]; [|lia].
      reflexivity.
Qed.

Lemma Sequential_repeat_below_one_runs_once_witness :
  SequentialLayer_FPropMeta any_dims idle_demo_params [VTensor [2]%Z]
    = ([], Ok (mkMeta 0 [VTensor [2]%Z])) /\
  exists self,
    SequentialLayer_init chain_CreateChild idle_demo_params = Ok self /\
    sl_seq self = [("relu", relu_layer)]%string /\
    SequentialLayer_FProp self (VMap [("relu", VMap [])]%string)
      [VTensor [-1; 2]%Z]
    = ([FPropCall "relu" (VMap []) [VTensor [-1; 2]%Z]
          (Ok (VTensor [0; 2]%Z))],
       Ok (VTensor [0; 2]%Z)).
Proof.
  pose proof (@Sequential_repeat_below_one_runs_once (list Z) (list Z)
                any_dims chain_CreateChild idle_demo_params
                ltac:(cbn; lia)) as [Hmeta Hrun].
  split; [apply Hmeta; reflexivity|].
  destruct (Hrun {| sl_params := with_repeat idle_demo_params 1;
                    sl_seq := [("relu", relu_layer)]%string;
                    sl_rep := [] |} eq_refl) as (self & Hinit & Hseq & Hf).
  exists self. split; [exact Hinit|]. split; [exact Hseq|].
  rewrite Hf. reflexivity.
Defined.

(** X5.  Cutting a chain in two: the forward pass of a [Sequential] (with
    [repeat <= 1]) over the sub-layers [s1 ++ s2] is the forward pass over
    [s1] followed by the forward pass over [s2] on what the first returned
    -- the same calls, the same result, the same failure -- as long as the
    inputs are not a single tuple and no sub-layer of [s1] returns a tuple
    whose only entry is a tuple. *)
Theorem Sequential_FProp_splits :
  forall (T : Type) (s1 s2 : list (string * Layer T)) (theta : value T)
         (args : list (value T)),
    plain (VTuple args) = true ->
    Forall (fun e => returns_plain (snd e)) s1 ->
    Sequential_FProp_flat (s1 ++ s2) theta args
    = (v <- Sequential_FProp_flat s1 theta args ;;
       Sequential_FProp_flat s2 theta (_ToTuple v)).
Proof.
  intros T s1 s2 theta args Hargs Hall. unfold Sequential_FProp_flat.
  rewrite for_each_app, !bind_assoc.
  destruct (for_each s1 (Sequential_FProp_step theta) (VTuple args))
    as [l1 [out|e]] eqn:Hrun; [|reflexivity].
  rewrite !bind_call. rewrite bind_ret_l.
  apply for_each_threads in Hrun.
  pose proof (Sequential_chain_plain Hrun Hargs Hall) as Hout.
  rewrite (@Sequential_chain_ToTuple T s2 theta out
             (VTuple (_ToTuple (unwrap_single (_ToTuple out))))).
  - reflexivity.
  - cbn [_ToTuple]. symmetry. apply ToTuple_unwrap_single. exact Hout.
Qed.

Lemma Sequential_FProp_splits_witness :
  Sequential_FProp_flat chain_demo_seq chain_demo_theta [VTensor [-1; 2]%Z]
  = (v <- Sequential_FProp_flat [("relu", relu_layer); ("dup", dup_layer)]%string
            chain_demo_theta [VTensor [-1; 2]%Z] ;;
     Sequential_FProp_flat [("add", add_layer)]%string chain_demo_theta
       (_ToTuple v)).
Proof.
  apply (@Sequential_FProp_splits _
           [("relu", relu_layer); ("dup", dup_layer)]%string
           [("add", add_layer)]%string chain_demo_theta [VTensor [-1; 2]%Z]
           eq_refl).
  repeat constructor; intros th args y; cbn [snd layer_FProp relu_layer dup_layer].
  - destruct args as [|[| x | | |] [|? ?]]; try discriminate.
    intros H; inversion H; reflexivity.
  - destruct args as [|x [|? ?]]; try discriminate.
    intros H; inversion H; destruct x; reflexivity.
Defined.

(** Without that proviso the two differ: a sub-layer that returns a tuple
    whose only entry is a pair hands the next sub-layer one argument, the
    pair; returned from a [Sequential] of its own the pair comes out bare,
    and the next sub-layer is handed its two entries. *)
Example Sequential_one_tuple_of_tuple_is_unpacked :
  let wrap : Layer (list Z) :=
    {| layer_FProp := fun _ args => Ok (VTuple [VTuple args]) |} in
  let theta : value (list Z) := VMap [("wrap", VMap []); ("add", VMap [])]%string in
  let args : list (value (list Z)) := [VTensor [1]%Z; VTensor [2]%Z] in
  snd (Sequential_FProp_flat [("wrap", wrap); ("add", add_layer)]%string
         theta args)
    = Raise TypeError /\
  snd (v <- Sequential_FProp_flat [("wrap", wrap)]%string theta args ;;
       Sequential_FProp_flat [("add", add_layer)]%string theta (_ToTuple v))
    = Ok (VTensor [3]%Z).
Proof. split; reflexivity. Qed.

(** X6.  On one input, and as long as no sub-layer returns a tuple,
    [Sequential] (with [repeat <= 1]) and [UnarySequential] over the same
    sub-layers are the same function: the same calls with the same
    arguments, and the same result or failure. *)
Theorem Sequential_agrees_with_UnarySequential :
  forall (T : Type) (_seq : list (string * Layer T)) (theta x : value T),
    Forall (fun e => returns_no_tuple (snd e)) _seq ->
    Sequential_FProp_flat _seq theta [x]
    = UnarySequentialLayer_FProp _seq theta x.
Proof.
  intros T _seq theta x Hall.
  unfold Sequential_FProp_flat, UnarySequentialLayer_FProp.
  assert (Hgen : forall st,
            _ToTuple st = [x] ->
            (out <- for_each _seq (Sequential_FProp_step theta) st ;;
             ret (unwrap_single (_ToTuple out)))
            = for_each _seq (Unary_FProp_step theta) x).
  { revert x. induction Hall as [|[name ch] _seq Hch _ IH]; intros x st Hst;
      cbn [for_each].
    - rewrite bind_ret_l, Hst. reflexivity.
    - unfold Sequential_FProp_step at 1, Unary_FProp_step at 1.
      rewrite Hst, !bind_assoc.
      destruct (py_getitem name theta) as [th|e]; [|reflexivity].
      rewrite !bind_lift. unfold call_fprop.
      destruct (layer_FProp ch th [x]) as [y|e] eqn:Hy; [|reflexivity].
      rewrite !bind_call. cbn [snd] in Hch.
      rewrite (IH y y); [reflexivity|].
      apply Hch in Hy. destruct y; try reflexivity. discriminate Hy. }
  apply Hgen. reflexivity.
Qed.

Lemma Sequential_agrees_with_UnarySequential_witness :
  Sequential_FProp_flat [("relu", relu_layer); ("again", relu_layer)]%string
    (VMap [("relu", VMap []); ("again", VMap [])]%string) [VTensor [-1; 2]%Z]
  = UnarySequentialLayer_FProp
      [("relu", relu_layer); ("again", relu_layer)]%string
      (VMap [("relu", VMap []); ("again", VMap [])]%string) (VTensor [-1; 2]%Z).
Proof.
  apply Sequential_agrees_with_UnarySequential.
  repeat constructor; intros th args y; cbn [snd layer_FProp relu_layer];
    (destruct args as [|[| x | | |] [|? ?]]; try discriminate);
    intros H; inversion H; reflexivity.
Defined.

(** ** UnarySequential and Parallel *)

Lemma logged_flops_cons : forall S (ev : meta_event S) log,
  logged_flops (ev :: log) = (meta_call_flops ev + logged_flops log)%Z.
Proof. reflexivity. Qed.

Lemma logged_flops_app : forall S (l1 l2 : list (meta_event S)),
  logged_flops (l1 ++ l2) = (logged_flops l1 + logged_flops l2)%Z.
Proof.
  induction l1 as [|ev l1 IH]; intros l2; cbn [app].
  - unfold logged_flops at 2; cbn. reflexivity.
  - rewrite !logged_flops_cons, IH. lia.
Qed.

Lemma unary_chain_run : forall S (subs : list (LayerParams S)) x log z,
  unary_meta_chain subs x log z ->
  forall total,
    for_each subs (@Unary_meta_step S) (total, x)
    = (log, Ok ((total + logged_flops log)%Z, z)).
Proof.
  induction 1 as [x | sub subs x meta log z Hm _ IH]; intros total;
    cbn [for_each].
  - unfold logged_flops; cbn. rewrite Z.add_0_r. reflexivity.
  - unfold Unary_meta_step at 1, call_meta. rewrite Hm. cbn [bind ret app].
    rewrite IH, logged_flops_cons; cbn [meta_call_flops app].
    rewrite Z.add_assoc. reflexivity.
Qed.

Lemma run_unary_chain : forall S (subs : list (LayerParams S)) total x log total' z,
  for_each subs (@Unary_meta_step S) (total, x) = (log, Ok (total', z)) ->
  unary_meta_chain subs x log z /\ total' = (total + logged_flops log)%Z.
Proof.
  induction subs as [|sub subs IH]; intros total x log total' z H;
    cbn [for_each] in H.
  - inversion H; subst. split; [constructor|].
    unfold logged_flops; cbn. lia.
  - unfold Unary_meta_step at 1, call_meta in H.
    destruct (lp_FPropMeta sub [x]) as [meta|e] eqn:Hm; [|discriminate H].
    cbn [bind ret app] in H.
    destruct (for_each subs _ _) as [l2 r] eqn:Hrest. cbn [app] in H.
    inversion H; subst. apply IH in Hrest. destruct Hrest as [Hch Ht].
    split; [constructor; assumption|].
    rewrite logged_flops_cons; cbn [meta_call_flops]. lia.
Qed.

(** X7.  Shape inference of [UnarySequential] asks the sub-layers in
    order, each with one argument: the first with the descriptor [x] it was
    given, each later one with the whole tuple [out_shapes] the one before
    it reported (the tuple itself, not its entries).  The cost is the sum
    of the costs reported, and [out_shapes] is the last tuple reported --
    or [x] itself, not wrapped, when there is no sub-layer.  Every such
    chain is what the inference does, and every inference that returns is
    such a chain. *)
Theorem UnarySequential_FPropMeta_chains_tuples :
  forall (S : Type) (p : UnarySequentialParams S) (x : value S),
    (forall log z,
       unary_meta_chain (useq_sub p) x log z ->
       UnarySequentialLayer_FPropMeta p x
       = (log, Ok (mkUnaryMeta (logged_flops log) z))) /\
    (forall log m,
       UnarySequentialLayer_FPropMeta p x = (log, Ok m) ->
       unary_meta_chain (useq_sub p) x log (u_out_shapes m) /\
       u_flops m = logged_flops log).
Proof.
  intros S p x. unfold UnarySequentialLayer_FPropMeta. split.
  - intros log z Hch. rewrite (unary_chain_run Hch 0), bind_call; cbn.
    rewrite app_nil_r. reflexivity.
  - intros log m H.
    apply bind_ok in H. destruct H as (l1 & [total z] & l2 & Hrun & Hret & ->).
    inversion Hret; subst; cbn [u_flops u_out_shapes fst snd].
    rewrite app_nil_r. apply run_unary_chain in Hrun.
    destruct Hrun as [Hch Ht]. split; [exact Hch | lia].
Qed.

Lemma UnarySequential_FPropMeta_chains_tuples_witness :
  UnarySequentialLayer_FPropMeta
    {| useq_name := "unary"; useq_sub := [keep_meta; grow_meta] |} (VTensor 7)
  = ([MetaCall "keep" [VTensor 7] (Ok (mkMeta 3 [VTensor 7]));
      MetaCall "grow" [VTuple [VTensor 7]]
        (Ok (mkMeta 5 [VNone; VTuple [VTensor 7]]))],
     Ok (mkUnaryMeta 8 (VTuple [VNone; VTuple [VTensor 7]]))).
Proof.
  apply (proj1 (@UnarySequential_FPropMeta_chains_tuples _
                  {| useq_name := "unary"; useq_sub := [keep_meta; grow_meta] |}
                  (VTensor 7))
           [MetaCall "keep" [VTensor 7] (Ok (mkMeta 3 [VTensor 7]));
            MetaCall "grow" [VTuple [VTensor 7]]
              (Ok (mkMeta 5 [VNone; VTuple [VTensor 7]]))]
           (VTuple [VNone; VTuple [VTensor 7]])).
  repeat (econstructor; try reflexivity).
Defined.

Section ParallelFacts.

Variables T S : Type.
Variable CheckShapes : list (value S) -> bool.

Lemma parallel_calls_run : forall theta args (_seq : list (string * Layer T))
    log outs,
  parallel_calls theta args _seq log outs ->
  forall outputs,
    for_each _seq (Parallel_FProp_step theta args) outputs
    = (log, Ok (outputs ++ outs)).
Proof.
  induction 1 as [| name ch _seq th y log outs Hth Hy _ IH]; intros outputs;
    cbn [for_each].
  - rewrite app_nil_r. reflexivity.
  - unfold Parallel_FProp_step at 1. rewrite bind_assoc, bind_lift, Hth.
    rewrite bind_assoc. unfold call_fprop. rewrite Hy, bind_call.
    rewrite bind_ret_l, IH, <- app_assoc. reflexivity.
Qed.

Lemma run_parallel_calls : forall theta args (_seq : list (string * Layer T))
    outputs log outputs',
  for_each _seq (Parallel_FProp_step theta args) outputs = (log, Ok outputs') ->
  exists outs, parallel_calls theta args _seq log outs /\
               outputs' = outputs ++ outs.
Proof.
  induction _seq as [|[name ch] _seq IH]; intros outputs log outputs' H;
    cbn [for_each] in H.
  - inversion H; subst. exists []. split; [constructor|].
    rewrite app_nil_r. reflexivity.
  - unfold Parallel_FProp_step at 1 in H. cbn beta iota in H.
    rewrite !bind_assoc in H. lifted_ok H th Hth.
    unfold call_fprop in H.
    destruct (layer_FProp ch th args) as [y|e] eqn:Hy; [|discriminate H].
    cbn [bind ret] in H.
    destruct (for_each _seq _ _) as [l2 r] eqn:Hrest. cbn [app] in H.
    inversion H; subst. apply IH in Hrest. destruct Hrest as (outs & Hc & ->).
    exists (_ToTuple y :: outs). split; [constructor; assumption|].
    rewrite <- app_assoc. reflexivity.
Qed.

Lemma parallel_meta_run : forall args (subs : list (LayerParams S))
    total outputs log total' outputs',
  for_each subs (Parallel_meta_step CheckShapes args) (total, outputs)
    = (log, Ok (total', outputs')) ->
  total' = (total + logged_flops log)%Z /\
  outputs' = outputs ++ map (@meta_call_out_shapes S) log /\
  map (@meta_call_name S) log = map (@lp_name S) subs /\
  Forall (fun ev => meta_call_args ev = args) log /\
  Forall (fun ev => CheckShapes (meta_call_out_shapes ev) = true) log.
Proof.
  intros args. induction subs as [|sub subs IH];
    intros total outputs log total' outputs' H; cbn [for_each] in H.
  - inversion H; subst. unfold logged_flops; cbn. rewrite app_nil_r.
    repeat split; try constructor. lia.
  - unfold Parallel_meta_step at 1, call_meta in H.
    destruct (lp_FPropMeta sub args) as [meta|e] eqn:Hm; [|discriminate H].
    cbn [bind] in H.
    destruct (CheckShapes (out_shapes meta)) eqn:Hck;
      cbn [bind assert_ raise ret app] in H; [|discriminate H].
    destruct (for_each subs _ _) as [l2 r] eqn:Hrest. cbn [app] in H.
    inversion H; subst. apply IH in Hrest.
    destruct Hrest as (Ht & Ho & Hn & Ha & Hc).
    rewrite logged_flops_cons. cbn [meta_call_flops map meta_call_name
      meta_call_out_shapes meta_call_args].
    repeat split.
    + lia.
    + rewrite Ho, <- app_assoc. reflexivity.
    + f_equal. exact Hn.
    + constructor; [reflexivity | exact Ha].
    + constructor; [exact Hck | exact Hc].
Qed.

End ParallelFacts.

(** X8.  The forward pass of [Parallel] calls every sub-layer, in the
    order of [self._seq], on its own entry of [theta] and on the very
    inputs the layer was given; [merge] receives their outputs in that
    order, each as a tuple; the result is what [merge] returns, bare when
    it is a single value -- and when [merge] returns an empty tuple the
    layer raises [IndexError] after all the calls were made. *)
Theorem Parallel_FProp_same_inputs :
  forall (T S : Type) (p : ParallelParams T S) (_seq : list (string * Layer T))
         (theta : value T) (args : list (value T)),
    (forall log outs rets,
       parallel_calls theta args _seq log outs ->
       par_merge p outs = Ok rets ->
       ParallelLayer_FProp p _seq theta args
       = (log, match rets with
               | [] => Raise IndexError
               | _ => Ok (unwrap_single rets)
               end)) /\
    (forall log v,
       ParallelLayer_FProp p _seq theta args = (log, Ok v) ->
       exists outs rets,
         parallel_calls theta args _seq log outs /\
         par_merge p outs = Ok rets /\
         rets <> [] /\
         v = unwrap_single rets).
Proof.
  intros T S p _seq theta args. unfold ParallelLayer_FProp. split.
  - intros log outs rets Hc Hm.
    rewrite (parallel_calls_run Hc []), bind_call. cbn [app].
    rewrite bind_lift, Hm.
    destruct rets as [|a [|b rets]];
      [cbn; rewrite app_nil_r; reflexivity
      |cbn; rewrite app_nil_r; reflexivity|].
    destruct (Z.gtb_spec (len (a :: b :: rets)) 1) as [_|Hle].
    + cbn [ret fst snd unwrap_single]. rewrite app_nil_r. reflexivity.
    + unfold len in Hle. cbn [length] in Hle. lia.
  - intros log v H.
    apply bind_ok in H. destruct H as (l1 & outputs & l2 & Hrun & H & ->).
    apply run_parallel_calls in Hrun. destruct Hrun as (outs & Hc & ->).
    cbn [app] in H. lifted_ok H rets Hm.
    exists outs, rets.
    assert (Hv : l2 = [] /\ rets <> [] /\ v = unwrap_single rets).
    { destruct rets as [|a [|b rets]].
      - discriminate H.
      - cbn in H. inversion H; subst. repeat split. discriminate.
      - destruct (Z.gtb_spec (len (a :: b :: rets)) 1) as [_|Hle].
        + inversion H; subst. repeat split. discriminate.
        + unfold len in Hle. cbn [length] in Hle. lia. }
    destruct Hv as (-> & Hne & ->). rewrite app_nil_r. auto.
Qed.

Lemma Parallel_FProp_same_inputs_witness :
  ParallelLayer_FProp par_demo par_demo_seq chain_demo_theta
    [VTensor [-1; 2]%Z]
  = ([FPropCall "relu" (VMap []) [VTensor [-1; 2]%Z] (Ok (VTensor [0; 2]%Z));
      FPropCall "dup" (VMap []) [VTensor [-1; 2]%Z]
        (Ok (VTuple [VTensor [-1; 2]%Z; VTensor [-1; 2]%Z]))],
     Ok (VTuple [VTensor [0; 2]%Z; VTensor [-1; 2]%Z; VTensor [-1; 2]%Z])).
Proof.
  apply (proj1 (@Parallel_FProp_same_inputs _ _ par_demo par_demo_seq
                  chain_demo_theta [VTensor [-1; 2]%Z])
           _ [[VTensor [0; 2]%Z]; [VTensor [-1; 2]%Z; VTensor [-1; 2]%Z]]
           [VTensor [0; 2]%Z; VTensor [-1; 2]%Z; VTensor [-1; 2]%Z]).
  - apply (@parallel_calls_cons _ _ _ "relu"%string relu_layer _ (VMap [])
             (VTensor [0; 2]%Z)); try reflexivity.
    apply (@parallel_calls_cons _ _ _ "dup"%string dup_layer _ (VMap [])
             (VTuple [VTensor [-1; 2]%Z; VTensor [-1; 2]%Z])); try reflexivity.
    constructor.
  - reflexivity.
Defined.

(** X9.  Shape inference of [Parallel] asks every sub-layer of [p.sub], in
    order, about the very shapes the layer was asked about; [merge_meta]
    receives the shapes they reported, in that order; the cost returned is
    the cost of the merge plus the sum of the costs of the sub-layers, and
    the output shapes are those of the merge. *)
Theorem Parallel_FPropMeta_adds_costs :
  forall (T S : Type) (CheckShapes : list (value S) -> bool)
         (p : ParallelParams T S) (args : list (value S)) log m,
    ParallelLayer_FPropMeta CheckShapes p args = (log, Ok m) ->
    exists merged,
      par_merge_meta p (map (@meta_call_out_shapes S) log) = Ok merged /\
      flops m = (flops merged + logged_flops log)%Z /\
      out_shapes m = out_shapes merged /\
      map (@meta_call_name S) log = map (@lp_name S) (par_sub p) /\
      Forall (fun ev => meta_call_args ev = args) log.
Proof.
  intros T S CheckShapes p args log m H. unfold ParallelLayer_FPropMeta in H.
  asserted_ok H Hck.
  apply bind_ok in H.
  destruct H as (l1 & [total outputs] & l2 & Hrun & H & ->).
  apply parallel_meta_run in Hrun.
  destruct Hrun as (Ht & Ho & Hn & Ha & _). cbn [app] in Ho. subst outputs.
  cbn [fst snd] in H. lifted_ok H merged Hm.
  asserted_ok H Hck'. inversion H; subst; cbn [flops out_shapes].
  rewrite app_nil_r. exists merged.
  split; [exact Hm|]. split; [lia|]. split; [reflexivity|]. split; assumption.
Qed.

Lemma Parallel_FPropMeta_adds_costs_witness :
  exists merged,
    par_merge_meta par_demo
      (map (@meta_call_out_shapes (list Z))
         [MetaCall "relu" [VTensor [2]%Z] (Ok (mkMeta 2 [VTensor [2]%Z]));
          MetaCall "dup" [VTensor [2]%Z]
            (Ok (mkMeta 0 [VTensor [2]%Z; VTensor [2]%Z]))]) = Ok merged /\
    flops (mkMeta 3 [VTensor [2]%Z; VTensor [2]%Z; VTensor [2]%Z])
    = (flops merged
       + logged_flops
           [MetaCall "relu" [VTensor [2]%Z] (Ok (mkMeta 2 [VTensor [2]%Z]));
            MetaCall "dup" [VTensor [2]%Z]
              (Ok (mkMeta 0 [VTensor [2]%Z; VTensor [2]%Z]))])%Z /\
    out_shapes (mkMeta 3 [VTensor [2]%Z; VTensor [2]%Z; VTensor [2]%Z])
    = out_shapes merged /\
    map (@meta_call_name (list Z))
      [MetaCall "relu" [VTensor [2]%Z] (Ok (mkMeta 2 [VTensor [2]%Z]));
       MetaCall "dup" [VTensor [2]%Z]
         (Ok (mkMeta 0 [VTensor [2]%Z; VTensor [2]%Z]))]
    = map (@lp_name (list Z)) (par_sub par_demo) /\
    Forall (fun ev => meta_call_args ev = [VTensor [2]%Z])
      [MetaCall "relu" [VTensor [2]%Z] (Ok (mkMeta 2 [VTensor [2]%Z]));
       MetaCall "dup" [VTensor [2]%Z]
         (Ok (mkMeta 0 [VTensor [2]%Z; VTensor [2]%Z]))].
Proof.
  apply (@Parallel_FPropMeta_adds_costs _ _ any_dims par_demo
           [VTensor [2]%Z]). reflexivity.
Defined.

(** ** Map, Branch, Rematerialization and PrintShape *)

Lemma Forall2_map_r : forall A B (f : A -> result B) l l',
  Forall2 (fun a b => f a = Ok b) l l' -> map_r f l = Ok l'.
Proof.
  induction 1 as [|a b l l' Hf _ IH]; cbn [map_r]; [reflexivity|].
  rewrite Hf, IH. reflexivity.
Qed.

(** [tuple(ret) if len(ret) > 1 else ret[0]] *)
Lemma tuple_or_first : forall T (l : list (value T)),
  l <> [] ->
  (if (len l >? 1)%Z then Ok (VTuple l) else index l 0) = Ok (unwrap_single l).
Proof.
  intros T [|a [|b l]] H; [contradiction | reflexivity |].
  destruct (Z.gtb_spec (len (a :: b :: l)) 1) as [_|Hle]; [reflexivity|].
  unfold len in Hle. cbn [length] in Hle. lia.
Qed.

Section MapFacts.

Variables T S K : Type.
Variable CheckShapes : list (value S) -> bool.
Variable p : MapParams T S K.

Lemma mapped_iff : forall x y,
  (if is_None x then Ok VNone else map_fn p (map_kwargs p) x) = Ok y
  <-> mapped p x y.
Proof.
  intros x y. unfold mapped. destruct (is_None x); [|tauto].
  split; [intros H; inversion H; reflexivity | intros ->; reflexivity].
Qed.

Lemma Map_meta_loop : forall args total rets total' rets',
  fold_r (Map_meta_step CheckShapes p) args (total, rets) = Ok (total', rets') ->
  exists outs,
    Forall2 (mapped_shape CheckShapes p) args outs /\
    rets' = rets ++ outs /\
    total' = (total + fold_right Z.add 0 (map (map_cost p) args))%Z.
Proof.
  induction args as [|x args IH]; intros total rets total' rets' H;
    cbn [fold_r] in H.
  - inversion H; subst. exists []. rewrite app_nil_r; cbn.
    split; [constructor | split; [reflexivity | lia]].
  - apply rbind_ok in H. destruct H as ([total1 rets1] & Hstep & Hrest).
    apply IH in Hrest. destruct Hrest as (outs & Hall & -> & ->).
    unfold Map_meta_step in Hstep. cbn [map fold_right].
    unfold mapped_shape at 1, map_cost at 2.
    destruct (is_None x) eqn:Hx.
    + inversion Hstep; subst. exists (VNone :: outs).
      split; [constructor; [rewrite Hx; reflexivity | exact Hall]|].
      rewrite <- app_assoc. split; [reflexivity | lia].
    + apply rbind_ok in Hstep. destruct Hstep as ([cost shape] & Hfm & Hstep).
      apply rbind_ok in Hstep. destruct Hstep as (u & Hck & Hstep).
      apply rassert_ok in Hck. inversion Hstep; subst.
      exists (shape :: outs).
      split; [constructor; [rewrite Hx; exists cost; auto | exact Hall]|].
      rewrite <- app_assoc, Hfm. split; [reflexivity | lia].
Qed.

Lemma Map_meta_loop_run : forall args outs,
  Forall2 (mapped_shape CheckShapes p) args outs ->
  forall total rets,
    fold_r (Map_meta_step CheckShapes p) args (total, rets)
    = Ok ((total + fold_right Z.add 0 (map (map_cost p) args))%Z, rets ++ outs).
Proof.
  induction 1 as [|x s args outs Hx _ IH]; intros total rets;
    cbn [fold_r map fold_right].
  - rewrite app_nil_r, Z.add_0_r. reflexivity.
  - unfold Map_meta_step at 1, map_cost at 1. unfold mapped_shape in Hx.
    destruct (is_None x).
    + subst s. cbn [rbind]. rewrite IH, <- app_assoc.
      apply f_equal. apply f_equal2; [lia | reflexivity].
    + destruct Hx as (cost & Hfm & Hck). rewrite Hfm; cbn [rbind].
      rewrite Hck; cbn [rassert rbind]. rewrite IH, <- app_assoc.
      apply f_equal. apply f_equal2; [lia | reflexivity].
Qed.

End MapFacts.

(** X10.  The forward pass of [Map] keeps the positions of its inputs: an
    input that is [None] stays [None], any other is replaced by [fn] of it
    (with the keyword arguments), and [fn] is applied to nothing else.
    With two inputs or more the result is the tuple of these values, with
    one input the bare value; with no input the layer raises
    [IndexError]. *)
Theorem Map_FProp_keeps_positions :
  forall (T S K : Type) (p : MapParams T S K) (theta : value T)
         (args : list (value T)),
    (forall outs,
       Forall2 (mapped p) args outs -> outs <> [] ->
       MapLayer_FProp p theta args = Ok (unwrap_single outs)) /\
    (forall v,
       MapLayer_FProp p theta args = Ok v ->
       exists outs,
         Forall2 (mapped p) args outs /\ outs <> [] /\ v = unwrap_single outs) /\
    (args = [] -> MapLayer_FProp p theta args = Raise IndexError).
Proof.
  intros T S K p theta args. unfold MapLayer_FProp. split; [|split].
  - intros outs Hall Hne.
    rewrite (@Forall2_map_r _ _ _ args outs).
    + cbn [rbind]. apply tuple_or_first. exact Hne.
    + eapply Forall2_impl; [|exact Hall].
      intros x y Hxy. apply mapped_iff. exact Hxy.
  - intros v H. apply rbind_ok in H. destruct H as (outs & Hmap & H).
    apply map_r_ok_Forall2 in Hmap. exists outs.
    split; [eapply Forall2_impl; [|exact Hmap];
            intros x y Hxy; apply mapped_iff; exact Hxy|].
    destruct outs as [|a outs]; [discriminate H|].
    split; [discriminate|].
    rewrite tuple_or_first in H by discriminate. inversion H; reflexivity.
  - intros ->. reflexivity.
Qed.

Lemma Map_FProp_keeps_positions_witness :
  MapLayer_FProp map_demo VNone [VTensor [-1; 2]%Z; VNone; VTensor [3; -4]%Z]
  = Ok (VTuple [VTensor [0; 2]%Z; VNone; VTensor [3; 0]%Z]).
Proof.
  apply (proj1 (@Map_FProp_keeps_positions _ _ _ map_demo VNone
                  [VTensor [-1; 2]%Z; VNone; VTensor [3; -4]%Z])
           [VTensor [0; 2]%Z; VNone; VTensor [3; 0]%Z]).
  - repeat constructor.
  - discriminate.
Defined.

(** X11.  Shape inference of [Map] asks [fn_meta] about every shape that
    is not [None], lets [CheckShapes] look at what it reports, and keeps
    the positions: [out_shapes] has an entry per input shape, [None] where
    the input shape is [None]; the cost is the sum of the costs [fn_meta]
    reported.  Unlike the forward pass it accepts an empty list of shapes,
    for which it reports cost 0 and no shape. *)
Theorem Map_FPropMeta_sums_costs :
  forall (T S K : Type) (CheckShapes : list (value S) -> bool)
         (p : MapParams T S K) (args : list (value S)),
    (forall outs,
       Forall2 (mapped_shape CheckShapes p) args outs ->
       MapLayer_FPropMeta CheckShapes p args
       = Ok (mkMeta (fold_right Z.add 0%Z (map (map_cost p) args)) outs)) /\
    (forall m,
       MapLayer_FPropMeta CheckShapes p args = Ok m ->
       Forall2 (mapped_shape CheckShapes p) args (out_shapes m) /\
       flops m = fold_right Z.add 0%Z (map (map_cost p) args)) /\
    (args = [] -> MapLayer_FPropMeta CheckShapes p args = Ok (mkMeta 0 [])).
Proof.
  intros T S K CheckShapes p args. unfold MapLayer_FPropMeta. split; [|split].
  - intros outs Hall. rewrite (Map_meta_loop_run Hall 0 []). reflexivity.
  - intros m H. apply rbind_ok in H. destruct H as ([total rets] & Hloop & H).
    inversion H; subst; cbn [flops out_shapes fst snd].
    apply Map_meta_loop in Hloop. destruct Hloop as (outs & Hall & -> & ->).
    split; [exact Hall | lia].
  - intros ->. reflexivity.
Qed.

Lemma Map_FPropMeta_sums_costs_witness :
  MapLayer_FPropMeta any_dims map_demo [VTensor [2; 3]%Z; VNone; VTensor [4]%Z]
  = Ok (mkMeta 3 [VTensor [2; 3]%Z; VNone; VTensor [4]%Z]).
Proof.
  apply (proj1 (@Map_FPropMeta_sums_costs _ _ _ any_dims map_demo
                  [VTensor [2; 3]%Z; VNone; VTensor [4]%Z])
           [VTensor [2; 3]%Z; VNone; VTensor [4]%Z]).
  repeat constructor; cbn; eexists; split; reflexivity.
Defined.

Lemma fetch_loop : forall T (fetch : string -> result (value T)) fetches init,
  fold_r (fun args f => rbind (fetch f) (fun a => Ok (args ++ [a])))
         fetches init
  = rbind (map_r fetch fetches) (fun acts => Ok (init ++ acts)).
Proof.
  intros T fetch. induction fetches as [|f fetches IH]; intros init;
    cbn [fold_r map_r rbind].
  - rewrite app_nil_r. reflexivity.
  - destruct (fetch f) as [a|e]; cbn [rbind]; [|reflexivity].
    rewrite IH. destruct (map_r fetch fetches) as [acts|e]; cbn [rbind];
      [|reflexivity].
    rewrite <- app_assoc. reflexivity.
Qed.

(** X12.  The forward pass of [Branch] calls the body once, on
    [theta.body] and the inputs, and returns a tuple, always: the outputs
    of the body (a single output as a tuple of one) followed by the
    activations of the fetch points, in the order of [p.fetches]; a fetch
    point that cannot be read makes the layer raise after the body has
    run. *)
Theorem Branch_FProp_appends_activations :
  forall (T : Type) (fetch_activation : string -> result (value T))
         (body : Layer T) (fetches : list string) (theta : value T)
         (args : list (value T)),
    (forall theta_body y,
       py_getattr "body" theta = Ok theta_body ->
       layer_FProp body theta_body args = Ok y ->
       BranchLayer_FProp fetch_activation body fetches theta args
       = ([FPropCall "body" theta_body args (Ok y)],
          rbind (map_r fetch_activation fetches) (fun acts =>
          Ok (VTuple (_ToTuple y ++ acts))))) /\
    (forall log v,
       BranchLayer_FProp fetch_activation body fetches theta args = (log, Ok v) ->
       exists theta_body y acts,
         py_getattr "body" theta = Ok theta_body /\
         layer_FProp body theta_body args = Ok y /\
         map_r fetch_activation fetches = Ok acts /\
         log = [FPropCall "body" theta_body args (Ok y)] /\
         v = VTuple (_ToTuple y ++ acts)).
Proof.
  intros T fetch body fetches theta args. unfold BranchLayer_FProp. split.
  - intros tb y Htb Hy. rewrite bind_lift, Htb. unfold call_fprop.
    rewrite Hy, bind_call, bind_lift, fetch_loop.
    destruct (map_r fetch fetches) as [acts|e]; reflexivity.
  - intros log v H. lifted_ok H tb Htb. unfold call_fprop in H.
    destruct (layer_FProp body tb args) as [y|e] eqn:Hy; [|discriminate H].
    rewrite bind_call, bind_lift, fetch_loop in H.
    destruct (map_r fetch fetches) as [acts|e]; [|discriminate H].
    cbn in H. inversion H; subst.
    exists tb, y, acts. repeat split; try reflexivity. exact Hy.
Qed.

Lemma Branch_FProp_appends_activations_witness :
  BranchLayer_FProp demo_activation relu_layer ["hidden"]%string
    (VMap [("body", VMap [])]%string) [VTensor [-1; 2]%Z]
  = ([FPropCall "body" (VMap []) [VTensor [-1; 2]%Z] (Ok (VTensor [0; 2]%Z))],
     Ok (VTuple [VTensor [0; 2]%Z; VTensor [5]%Z])).
Proof.
  apply (proj1 (@Branch_FProp_appends_activations _ demo_activation relu_layer
                  ["hidden"]%string (VMap [("body", VMap [])]%string)
                  [VTensor [-1; 2]%Z])
           (VMap []) (VTensor [0; 2]%Z) eq_refl eq_refl).
Defined.

Lemma pack_Flatten : forall T (v : value T) rest,
  pack v (Flatten v ++ rest) = Some (v, rest).
Proof.
  intros T. induction v as [| t | s | vs | m IHm] using value_map_ind;
    intros rest; try reflexivity.
  change (Flatten (VMap m)) with (flat_map (fun kx => Flatten (snd kx)) m).
  rewrite pack_map.
  assert (Hm : pack_items pack m
                 (flat_map (fun kx => Flatten (snd kx)) m ++ rest)
               = Some (m, rest)).
  { induction IHm as [|[k x] m Hx _ IH]; [reflexivity|].
    cbn [flat_map snd] in *. rewrite <- app_assoc, pack_items_cons, Hx, IH.
    reflexivity. }
  rewrite Hm. reflexivity.
Qed.

(** X13.  The forward pass of [Rematerialization] flattens [theta.body],
    hands its leaves and the inputs to [RematerializeFn], and packs the
    leaves again inside the function it hands over: what runs is the
    forward pass of the body on [theta.body] and the inputs, once, with the
    result or failure of the body as the layer's own.  When [theta.body] is
    not a NestedMap the layer raises before the body is called. *)
Theorem Rematerialization_FProp_is_body_FProp :
  forall (T : Type) (body : Layer T) (theta : value T) (xs : list (value T)),
    (forall m,
       py_getattr "body" theta = Ok (VMap m) ->
       RematerializationLayer_FProp body theta xs
       = ([FPropCall "body" (VMap m) xs (layer_FProp body (VMap m) xs)],
          layer_FProp body (VMap m) xs)) /\
    (forall theta_body,
       py_getattr "body" theta = Ok theta_body ->
       is_Map theta_body = false ->
       RematerializationLayer_FProp body theta xs
       = ([], Raise AttributeError)).
Proof.
  intros T body theta xs. unfold RematerializationLayer_FProp. split.
  - intros m Htb. rewrite bind_lift, Htb. cbn [Flatten_method].
    rewrite bind_lift. unfold RematerializeFn, Remat_Fn.
    set (leaves := Flatten (VMap m)).
    rewrite firstn_app, firstn_all, Nat.sub_diag. cbn [firstn].
    rewrite app_nil_r, firstn_all, skipn_app, skipn_all, Nat.sub_diag.
    cbn [skipn app]. unfold Pack.
    pose proof (pack_Flatten (VMap m) []) as Hp. rewrite app_nil_r in Hp.
    fold leaves in Hp. rewrite Hp, bind_lift. reflexivity.
  - intros tb Htb Hmap. rewrite bind_lift, Htb.
    destruct tb; try reflexivity. discriminate Hmap.
Qed.

Lemma Rematerialization_FProp_is_body_FProp_witness :
  RematerializationLayer_FProp bias_layer repeat_demo_theta
    [VTensor (mkTensor [2] [0%R; 1%R])]
  = ([FPropCall "body" (VMap [("b", VTensor (mkTensor [2; 1] [1%R; 3%R]))]%string)
        [VTensor (mkTensor [2] [0%R; 1%R])]
        (layer_FProp bias_layer
           (VMap [("b", VTensor (mkTensor [2; 1] [1%R; 3%R]))]%string)
           [VTensor (mkTensor [2] [0%R; 1%R])])],
     layer_FProp bias_layer
       (VMap [("b", VTensor (mkTensor [2; 1] [1%R; 3%R]))]%string)
       [VTensor (mkTensor [2] [0%R; 1%R])]).
Proof.
  apply (proj1 (@Rematerialization_FProp_is_body_FProp _ bias_layer
                  repeat_demo_theta [VTensor (mkTensor [2] [0%R; 1%R])])
           [("b", VTensor (mkTensor [2; 1] [1%R; 3%R]))]%string eq_refl).
Defined.

Lemma snd_bind : forall E A B (m : M E A) (f : A -> M E B),
  snd (bind m f)
  = match snd m with
    | Ok a => snd (f a)
    | Raise e => Raise e
    end.
Proof.
  intros E A B [l [a|e]] f; cbn; [|reflexivity]. destruct (f a); reflexivity.
Qed.

Section PrintShapeFacts.

Variable S : Type.
Variable CheckShapes : list (value S) -> bool.

Lemma Sequential_meta_loop_checked : forall (subs : list (LayerParams S))
    st log st',
  for_each subs (Sequential_meta_step CheckShapes) st = (log, Ok st') ->
  CheckShapes (snd st) = true ->
  CheckShapes (snd st') = true.
Proof.
  induction subs as [|sub subs IH]; intros [total args] log st' H Hck;
    cbn [for_each] in H.
  - inversion H; subst. exact Hck.
  - apply bind_ok in H. destruct H as (l1 & st1 & l2 & Hstep & Hrest & _).
    eapply IH; [exact Hrest|].
    unfold Sequential_meta_step, call_meta in Hstep.
    destruct (lp_FPropMeta sub args) as [meta|e]; [|discriminate Hstep].
    cbn [bind] in Hstep.
    destruct (CheckShapes (out_shapes meta)) eqn:Hck';
      cbn [bind assert_ raise ret app] in Hstep; [|discriminate Hstep].
    inversion Hstep; subst. exact Hck'.
Qed.

Lemma PrintShape_meta_step : forall name (st : Z * list (value S)),
  CheckShapes (snd st) = true ->
  Sequential_meta_step CheckShapes st (print_shape_params CheckShapes name)
  = ([MetaCall name (snd st) (Ok (mkMeta 0 (snd st)))], Ok st).
Proof.
  intros name [total args] Hck. cbn [snd] in Hck.
  unfold Sequential_meta_step, call_meta, print_shape_params,
    PrintShapeLayer_FPropMeta; cbn [lp_name lp_FPropMeta snd].
  rewrite Hck; cbn [rassert rbind bind out_shapes flops].
  rewrite Hck; cbn [assert_ ret bind app]. rewrite Z.add_0_r. reflexivity.
Qed.

Lemma PrintShape_meta_inner : forall name (s1 s2 : list (LayerParams S)) st,
  CheckShapes (snd st) = true ->
  snd (for_each (s1 ++ print_shape_params CheckShapes name :: s2)
         (Sequential_meta_step CheckShapes) st)
  = snd (for_each (s1 ++ s2) (Sequential_meta_step CheckShapes) st).
Proof.
  intros name s1 s2 st Hck. rewrite !for_each_app, !snd_bind.
  destruct (for_each s1 _ st) as [l1 [st1|e]] eqn:Hrun; cbn [snd];
    [|reflexivity].
  cbn [for_each]. rewrite PrintShape_meta_step, snd_bind; [reflexivity|].
  eapply Sequential_meta_loop_checked; eassumption.
Qed.

Lemma PrintShape_meta_outer : forall (subs subs' : list (LayerParams S)),
  (forall st, CheckShapes (snd st) = true ->
     snd (for_each subs (Sequential_meta_step CheckShapes) st)
     = snd (for_each subs' (Sequential_meta_step CheckShapes) st)) ->
  forall (l : list Z) st,
    CheckShapes (snd st) = true ->
    snd (for_each l (fun st _ =>
                       for_each subs (Sequential_meta_step CheckShapes) st) st)
    = snd (for_each l (fun st _ =>
                         for_each subs' (Sequential_meta_step CheckShapes) st) st).
Proof.
  intros subs subs' Hsame. induction l as [|z l IH]; intros st Hck;
    cbn [for_each]; [reflexivity|].
  rewrite !snd_bind, (Hsame st Hck).
  destruct (for_each subs' _ st) as [l1 [st1|e]] eqn:Hrun; cbn [snd];
    [|reflexivity].
  apply IH. eapply Sequential_meta_loop_checked; eassumption.
Qed.

End PrintShapeFacts.

(** X14.  A [PrintShape] put anywhere into the sub-layers of a
    [Sequential] changes nothing but the log.  Shape inference returns the
    same cost and the same output shapes, or fails the same way, for every
    repeat count.  The forward pass (with [repeat <= 1]) returns the same
    result, or fails the same way, provided [theta] has an entry under the
    name of the [PrintShape], the inputs are not a single tuple, and no
    sub-layer before it returns a tuple whose only entry is a tuple. *)
Theorem PrintShape_is_transparent_in_Sequential :
  forall (T S : Type) (CheckShapes : list (value S) -> bool) (name : string),
    (forall (p : SequentialParams S) s1 s2 shapes,
       seq_sub p = s1 ++ s2 ->
       snd (SequentialLayer_FPropMeta CheckShapes
              (with_sub p (s1 ++ print_shape_params CheckShapes name :: s2))
              shapes)
       = snd (SequentialLayer_FPropMeta CheckShapes p shapes)) /\
    (forall (s1 s2 : list (string * Layer T)) (theta th : value T) args,
       py_getitem name theta = Ok th ->
       plain (VTuple args) = true ->
       Forall (fun e => returns_plain (snd e)) s1 ->
       snd (Sequential_FProp_flat (s1 ++ (name, print_shape_layer) :: s2)
              theta args)
       = snd (Sequential_FProp_flat (s1 ++ s2) theta args)).
Proof.
  intros T S CheckShapes name. split.
  - intros p s1 s2 shapes Hsub. unfold SequentialLayer_FPropMeta.
    cbn [with_sub seq_sub seq_repeat]. rewrite Hsub.
    destruct (CheckShapes shapes) eqn:Hck; [|reflexivity].
    rewrite !bind_assert, !snd_bind.
    rewrite (@PrintShape_meta_outer S CheckShapes
               (s1 ++ print_shape_params CheckShapes name :: s2) (s1 ++ s2)
               (fun st Hst => @PrintShape_meta_inner S CheckShapes name s1 s2 st Hst)
               (range (seq_repeat p)) (0%Z, shapes) Hck).
    reflexivity.
  - intros s1 s2 theta th args Hth Hargs Hall. unfold Sequential_FProp_flat.
    rewrite !for_each_app, !bind_assoc, !snd_bind.
    destruct (for_each s1 (Sequential_FProp_step theta) (VTuple args))
      as [l1 [out|e]] eqn:Hrun; cbn [snd]; [|reflexivity].
    cbn [for_each]. unfold Sequential_FProp_step at 1.
    rewrite !bind_assoc, bind_lift, Hth. unfold call_fprop at 1.
    cbn [layer_FProp print_shape_layer]. unfold PrintShapeLayer_FProp.
    rewrite bind_call. cbn [snd].
    apply for_each_threads in Hrun.
    pose proof (Sequential_chain_plain Hrun Hargs Hall) as Hout.
    f_equal. apply Sequential_chain_ToTuple.
    apply ToTuple_unwrap_single. exact Hout.
Qed.

Lemma PrintShape_is_transparent_in_Sequential_witness :
  snd (SequentialLayer_FPropMeta any_dims
         (with_sub chain_demo_params
            ([relu_params] ++ print_shape_params any_dims "print"
               :: tl (seq_sub chain_demo_params)))
         [VTensor [2]%Z])
  = snd (SequentialLayer_FPropMeta any_dims chain_demo_params [VTensor [2]%Z]) /\
  snd (Sequential_FProp_flat
         ([("relu", relu_layer)]%string ++ ("print"%string, print_shape_layer)
            :: [("dup", dup_layer); ("add", add_layer)]%string)
         (VMap [("relu", VMap []); ("dup", VMap []); ("add", VMap []);
                ("print", VMap [])]%string)
         [VTensor [-1; 2]%Z])
  = snd (Sequential_FProp_flat
           ([("relu", relu_layer)]%string
            ++ [("dup", dup_layer); ("add", add_layer)]%string)
           (VMap [("relu", VMap []); ("dup", VMap []); ("add", VMap []);
                  ("print", VMap [])]%string)
           [VTensor [-1; 2]%Z]).
Proof.
  pose proof (@PrintShape_is_transparent_in_Sequential (list Z) (list Z)
                any_dims "print"%string) as [Hmeta Hrun].
  split.
  - apply Hmeta. reflexivity.
  - apply (Hrun _ _ _ (VMap [])); [reflexivity | reflexivity |].
    repeat constructor; intros th args y; cbn [snd layer_FProp relu_layer].
    destruct args as [|[| x | | |] [|? ?]]; try discriminate.
    intros H; inversion H; reflexivity.
Defined.

(** ** More on the Graph layer *)

Section NamespaceStable.

Context {T : Type}.

(** A write changes no value that is not a map. *)
Lemma add_names_stable : forall names (t cur cur' : value T) q v,
  add_names names t cur = Ok cur' ->
  bound cur q v -> is_Map v = false -> bound cur' q v.
Proof.
  induction names as [|n rest IH]; intros t cur cur' q v H Hb Hv;
    [discriminate|].
  destruct q as [|k q].
  - apply bound_nil_inv in Hb. subst v. exfalso.
    destruct rest as [|n' rest].
    + apply add_names_last_ok in H. destruct H as (m & -> & _). discriminate.
    + apply add_names_more_ok in H. destruct H as (m & ? & ? & -> & _).
      discriminate.
  - apply bound_cons_inv in Hb. destruct Hb as (m0 & x & -> & Hl & Hb).
    destruct rest as [|n' rest].
    + apply add_names_last_ok in H. destruct H as (m & Hm & Hnone & ->).
      inversion Hm; subst m0.
      econstructor; [|eassumption].
      rewrite lookup_set_item_ne; [assumption|]. congruence.
    + apply add_names_more_ok in H.
      destruct H as (m & sub & sub' & Hm & Hsub & Ha & ->).
      inversion Hm; subst m0.
      destruct (String.eqb_spec k n) as [->|Hne].
      * destruct Hsub as [Hsome | [Hnone _]]; [|congruence].
        rewrite Hl in Hsome; inversion Hsome; subst sub.
        econstructor; [apply lookup_set_item_eq|].
        eapply IH; eassumption.
      * econstructor; [|eassumption].
        rewrite lookup_set_item_ne; assumption.
Qed.

Lemma add_all_stable : forall (items : list (string * value T)) ns ns' q v,
  add_all items ns = Ok ns' ->
  bound ns q v -> is_Map v = false -> bound ns' q v.
Proof.
  induction items as [|[n t] items IH]; intros ns ns' q v H Hb Hv.
  - inversion H; subst. exact Hb.
  - rewrite add_all_cons in H. apply rbind_ok in H.
    destruct H as (ns1 & Ha & Hrest).
    eapply IH; [exact Hrest | | exact Hv].
    eapply add_names_stable; eassumption.
Qed.

End NamespaceStable.

(** X15.  In the namespace of a [Graph] a write never changes what an
    earlier name holds: whatever could be read under a name before
    [AddNamedTensor] succeeded, and is not itself a NestedMap, is read
    under that name afterwards.  So a tensor written under a name is what
    every later read of that name returns, however many writes lie in
    between. *)
Theorem Graph_writes_keep_tensors :
  forall (T : Type) (ns ns' : value T),
    (forall path t q v,
       AddNamedTensor path t ns = Ok ns' ->
       GetNamedTensor ns q = Ok v -> is_Map v = false ->
       GetNamedTensor ns' q = Ok v) /\
    (forall path t ns1 items,
       AddNamedTensor path t ns = Ok ns1 ->
       add_all items ns1 = Ok ns' ->
       is_Map t = false ->
       GetNamedTensor ns' path = Ok t).
Proof.
  intros T ns ns'. split.
  - intros path t q v Ha Hg Hv. unfold GetNamedTensor in *.
    apply get_names_bound. apply get_names_bound in Hg.
    eapply add_names_stable; eassumption.
  - intros path t ns1 items Ha Hall Ht. unfold GetNamedTensor.
    apply get_names_bound.
    eapply add_all_stable; [exact Hall | | exact Ht].
    eapply add_names_bound. exact Ha.
Qed.

Lemma Graph_writes_keep_tensors_witness :
  GetNamedTensor
    (VMap [("a", VMap [("x", VTensor 1%Z); ("y", VTensor 2%Z)]);
           ("b", VTensor 3%Z)]%string) "a.x"
  = Ok (VTensor 1%Z).
Proof.
  apply (proj2 (@Graph_writes_keep_tensors Z (VMap [])
                  (VMap [("a", VMap [("x", VTensor 1%Z); ("y", VTensor 2%Z)]);
                         ("b", VTensor 3%Z)]%string))
           "a.x"%string (VTensor 1%Z)
           (VMap [("a", VMap [("x", VTensor 1%Z)])]%string)
           [("a.y", VTensor 2%Z); ("b", VTensor 3%Z)]%string
           eq_refl eq_refl eq_refl).
Defined.

Section GraphCostFacts.

Variable S : Type.


End GraphCostFacts.



Lemma default_name_not_empty : forall sig i name,
  default_name sig i = Ok name -> name <> EmptyString.
Proof.
  intros sig i name H. unfold default_name in H.
  apply rbind_ok in H. destruct H as (o & _ & H).
  apply rbind_ok in H. destruct H as (first & _ & H).
  inversion H; subst. destruct first; discriminate.
Qed.

Section GraphNamingFacts.

Variables T S : Type.
Variable CreateChild :
  list (string * Layer T) -> string -> LayerParams S -> result (Layer T).

Lemma GraphLayer_init_loop_names : forall (l : list (string * LayerParams S))
    k subs0 seq0 subs _seq,
  fold_r (GraphLayer_init_step CreateChild) (combine (seq k (length l)) l)
         (subs0, seq0) = Ok (subs, _seq) ->
  exists l' s',
    subs = subs0 ++ l' /\ _seq = seq0 ++ s' /\
    length l' = length l /\ length s' = length l /\
    forall i orig,
      nth_error l i = Some orig ->
      exists named child,
        nth_error l' i = Some named /\
        nth_error s' i = Some child /\
        fst named = fst orig /\
        lp_FPropMeta (snd named) = lp_FPropMeta (snd orig) /\
        graph_child_name (k + i) orig = Ok (lp_name (snd named)) /\
        fst child = lp_name (snd named) /\
        lp_name (snd named) <> EmptyString.
Proof.
  induction l as [|[sig sub] l IH]; intros k subs0 seq0 subs _seq H.
  - inversion H; subst. exists [], []. rewrite !app_nil_r.
    repeat split; try reflexivity. intros [|i] orig Hi; discriminate Hi.
  - cbn [length seq combine fold_r] in H.
    apply rbind_ok in H. destruct H as ([subs1 seq1] & Hstep & Hrest).
    unfold GraphLayer_init_step in Hstep.
    apply rbind_ok in Hstep. destruct Hstep as (_ & _ & Hstep).
    apply rbind_ok in Hstep. destruct Hstep as (sub' & Hsub & Hstep).
    apply rbind_ok in Hstep. destruct Hstep as (child & _ & Hstep).
    inversion Hstep; subst subs1 seq1.
    apply IH in Hrest.
    destruct Hrest as (l' & s' & -> & -> & Hl & Hs & Hnth).
    exists ((sig, sub') :: l'), ((lp_name sub', child) :: s').
    rewrite <- !app_assoc. cbn [app length].
    repeat split; try reflexivity; try (f_equal; assumption).
    intros [|i] orig Hi; cbn [nth_error] in Hi.
    + inversion Hi; subst orig. exists (sig, sub'), (lp_name sub', child).
      cbn [nth_error fst snd]. rewrite Nat.add_0_r.
      unfold graph_child_name; cbn [fst snd].
      destruct (String.eqb_spec (lp_name sub) EmptyString) as [He|He].
      * apply rbind_ok in Hsub. destruct Hsub as (name & Hd & Hsub).
        inversion Hsub; subst sub'. cbn [set_name lp_name lp_FPropMeta].
        repeat split; try reflexivity; try assumption.
        eapply default_name_not_empty; eassumption.
      * inversion Hsub; subst sub'. repeat split; try reflexivity; assumption.
    + destruct (Hnth i orig Hi) as (named & ch & H1 & H2 & H3 & H4 & H5 & H6 & H7).
      exists named, ch. cbn [nth_error].
      replace (k + Datatypes.S i) with (Datatypes.S k + i) by lia.
      repeat split; assumption.
Qed.

End GraphNamingFacts.

(** X18.  The constructor of a [Graph] gives every sub-layer a name and
    keeps everything else: entry [i] of [p.sub] keeps its signature and its
    parameters; a sub-layer that has a name keeps it, one that has none is
    named after the first output of its signature and its position,
    ['%s_%02d' % (first, i)]; no name is left empty; and entry [i] of
    [self._seq] is the child created under that name. *)
Theorem Graph_init_names_sub_layers :
  forall (T S : Type)
         (CreateChild : list (string * Layer T) -> string -> LayerParams S ->
                        result (Layer T))
         (p : GraphParams S) (self : GraphLayer T S),
    GraphLayer_init CreateChild p = Ok self ->
    length (graph_sub (graph_params self)) = length (graph_sub p) /\
    length (graph_seq self) = length (graph_sub p) /\
    forall i orig,
      nth_error (graph_sub p) i = Some orig ->
      exists named child,
        nth_error (graph_sub (graph_params self)) i = Some named /\
        nth_error (graph_seq self) i = Some child /\
        fst named = fst orig /\
        lp_FPropMeta (snd named) = lp_FPropMeta (snd orig) /\
        graph_child_name i orig = Ok (lp_name (snd named)) /\
        fst child = lp_name (snd named) /\
        lp_name (snd named) <> EmptyString.
Proof.
  intros T S CreateChild p self H. unfold GraphLayer_init in H.
  apply rbind_ok in H. destruct H as (_ & _ & H).
  apply rbind_ok in H. destruct H as (_ & _ & H).
  apply rbind_ok in H. destruct H as ([subs _seq] & Hloop & H).
  inversion H; subst; cbn [graph_params graph_sub graph_seq fst snd].
  apply GraphLayer_init_loop_names in Hloop.
  destruct Hloop as (l' & s' & -> & -> & Hl & Hs & Hnth).
  cbn [app]. split; [exact Hl|]. split; [exact Hs|]. exact Hnth.
Qed.

Lemma Graph_init_names_sub_layers_witness :
  exists named child,
    nth_error [("a->c", set_name "c_00" (set_name EmptyString relu_params));
               ("c,b->d", add_params)]%string 0 = Some named /\
    nth_error [("c_00", relu_layer); ("add", add_layer)]%string 0 = Some child /\
    fst named = "a->c"%string /\
    lp_FPropMeta (snd named) = lp_FPropMeta (set_name EmptyString relu_params) /\
    graph_child_name 0 ("a->c"%string, set_name EmptyString relu_params)
      = Ok (lp_name (snd named)) /\
    fst child = lp_name (snd named) /\
    lp_name (snd named) <> EmptyString.
Proof.
  apply (proj2 (proj2 (@Graph_init_names_sub_layers _ _ demo_CreateChild
           {| graph_name := "graph";
              input_endpoints := ["a"; "b"]%string;
              output_endpoints := ["d"]%string;
              graph_sub := [("a->c", set_name EmptyString relu_params);
                            ("c,b->d", add_params)]%string |}
           {| graph_params :=
                {| graph_name := "graph";
                   input_endpoints := ["a"; "b"]%string;
                   output_endpoints := ["d"]%string;
                   graph_sub :=
                     [("a->c", set_name "c_00" (set_name EmptyString relu_params));
                      ("c,b->d", add_params)]%string |};
              graph_seq := [("c_00", relu_layer); ("add", add_layer)]%string |}
           eq_refl)) 0 _ eq_refl).
Defined.

Lemma add_input_checks : forall T n (t : value T) ns,
  add_input ns (n, t)
  = rbind (rassert (graph_input_ok t)) (fun _ => AddNamedTensor n t ns).
Proof. intros T n t ns. destruct t; reflexivity. Qed.

Lemma add_inputs_bad : forall T (ends : list string) (args : list (value T)) ns,
  length ends = length args ->
  forallb graph_input_ok args = false ->
  exists e, fold_r (@add_input T) (combine ends args) ns = Raise e.
Proof.
  induction ends as [|n ends IH]; intros [|t args] ns Hlen Hbad;
    try discriminate.
  cbn [combine fold_r forallb] in *. rewrite add_input_checks.
  destruct (graph_input_ok t); cbn [rassert rbind]; [|eauto].
  destruct (AddNamedTensor n t ns) as [ns1|e]; cbn [rbind]; [|eauto].
  apply IH; [cbn [length] in Hlen; lia | exact Hbad].
Qed.

(** X19.  The forward pass of a [Graph] looks at its inputs before it
    calls any sub-layer: when their number differs from the number of
    input endpoints it raises [AssertionError]; when some input is
    neither a tensor nor a NestedMap whose leaves are all tensors -- a
    [None], a tuple, a string -- it raises, an [AssertionError] when the
    first input is the one; and in each case no sub-layer has been
    called. *)
Theorem Graph_FProp_checks_inputs_first :
  forall (T S : Type) (self : GraphLayer T S) (theta : value T)
         (args : list (value T)),
    (length (input_endpoints (graph_params self)) <> length args ->
     GraphLayer_FProp self theta args = ([], Raise AssertionError)) /\
    (forallb graph_input_ok args = false ->
     exists e, GraphLayer_FProp self theta args = ([], Raise e)) /\
    (forall t rest,
       args = t :: rest -> graph_input_ok t = false ->
       GraphLayer_FProp self theta args = ([], Raise AssertionError)).
Proof.
  intros T S self theta args. unfold GraphLayer_FProp.
  set (ends := input_endpoints (graph_params self)).
  assert (Hne : length ends <> length args ->
                bind (assert_ (len ends =? len args)%Z) (fun _ : unit =>
                  nt <- lift (fold_r (@add_input T) (combine ends args) (VMap [])) ;;
                  nt <- for_each (enumerate (graph_seq self))
                          (Graph_FProp_step (graph_params self) theta) nt ;;
                  layer_out <- lift (map_r (GetNamedTensor nt)
                                       (output_endpoints (graph_params self))) ;;
                  if (len layer_out =? 1)%Z then lift (index layer_out 0)
                  else ret (VTuple layer_out))
                = ([], Raise AssertionError)).
  { intros Hlen. rewrite bind_assert.
    destruct (Z.eqb_spec (len ends) (len args)) as [He|_]; [|reflexivity].
    unfold len in He. lia. }
  split; [exact Hne|]. split.
  - intros Hbad.
    destruct (Nat.eq_dec (length ends) (length args)) as [Hlen|Hlen];
      [|eexists; apply Hne; exact Hlen].
    rewrite bind_assert.
    destruct (Z.eqb_spec (len ends) (len args)) as [_|He];
      [|unfold len in He; lia].
    destruct (add_inputs_bad ends args (VMap []) Hlen Hbad) as [e He].
    exists e. rewrite bind_lift, He. reflexivity.
  - intros t rest -> Hbad.
    destruct (Nat.eq_dec (length ends) (length (t :: rest))) as [Hlen|Hlen];
      [|apply Hne; exact Hlen].
    rewrite bind_assert.
    destruct (Z.eqb_spec (len ends) (len (t :: rest))) as [_|He];
      [|unfold len in He; lia].
    destruct ends as [|n ends']; [discriminate Hlen|].
    cbn [combine fold_r]. rewrite add_input_checks, Hbad. reflexivity.
Qed.

Lemma Graph_FProp_checks_inputs_first_witness :
  GraphLayer_FProp graph_demo_layer graph_demo_theta [VTensor [1]%Z]
    = ([], Raise AssertionError) /\
  (exists e,
     GraphLayer_FProp graph_demo_layer graph_demo_theta
       [VTensor [1]%Z; VTuple []] = ([], Raise e)) /\
  GraphLayer_FProp graph_demo_layer graph_demo_theta [VNone; VTensor [1]%Z]
    = ([], Raise AssertionError).
Proof.
  split; [|split].
  - apply (@Graph_FProp_checks_inputs_first _ _ graph_demo_layer
             graph_demo_theta [VTensor [1]%Z]).
    discriminate.
  - apply (@Graph_FProp_checks_inputs_first _ _ graph_demo_layer
             graph_demo_theta [VTensor [1]%Z; VTuple []]).
    reflexivity.
  - apply (proj2 (proj2 (@Graph_FProp_checks_inputs_first _ _ graph_demo_layer
             graph_demo_theta [VNone; VTensor [1]%Z])) VNone [VTensor [1]%Z]);
      reflexivity.
Defined.

(** ** Signatures written from their names *)

Lemma all_chars_app : forall P a b,
  all_chars P a -> all_chars P b -> all_chars P (String.append a b).
Proof.
  intros P a b Ha Hb. induction Ha; cbn [String.append];
    [exact Hb | constructor; assumption].
Qed.

Lemma all_chars_impl : forall (P Q : ascii -> bool) s,
  (forall c, P c = true -> Q c = true) -> all_chars P s -> all_chars Q s.
Proof. intros P Q s H Hs. induction Hs; constructor; auto. Qed.

Lemma id_head_name_char : forall c, id_head c = true -> name_char c = true.
Proof.
  intros c H. unfold name_char, id_tail. unfold id_head in H.
  rewrite H. reflexivity.
Qed.

Lemma dotted_identifier_chars : forall x,
  dotted_identifier x -> all_chars name_char x.
Proof.
  assert (Hid : forall s, identifier s -> all_chars name_char s).
  { intros s [c s' Hc Hs]. constructor; [apply id_head_name_char; exact Hc|].
    eapply all_chars_impl; [|exact Hs].
    intros a Ha. unfold name_char. rewrite Ha. reflexivity. }
  induction 1 as [s Hs | s d Hs _ IH]; [apply Hid; exact Hs|].
  apply all_chars_app; [apply Hid; exact Hs|].
  constructor; [reflexivity | exact IH].
Qed.

Lemma name_char_facts : forall c,
  name_char c = true ->
  is_space c = false /\ other_than "," c = true /\ other_than "-" c = true.
Proof.
  intros [[] [] [] [] [] [] [] []] H; try discriminate H;
    repeat split; reflexivity.
Qed.

Lemma lstrip_id : forall s,
  all_chars (fun c => negb (is_space c)) s -> lstrip s = s.
Proof.
  intros s H. destruct H as [|c s Hc _]; [reflexivity|].
  cbn [lstrip]. apply negb_true_iff in Hc. rewrite Hc. reflexivity.
Qed.

Lemma rstrip_id : forall s,
  all_chars (fun c => negb (is_space c)) s -> rstrip s = s.
Proof.
  induction 1 as [|c s Hc _ IH]; [reflexivity|].
  cbn [rstrip]. rewrite IH. apply negb_true_iff in Hc.
  destruct s; [rewrite Hc|]; reflexivity.
Qed.

Lemma dotted_identifier_padded : forall x, dotted_identifier x -> padded x x.
Proof.
  intros x H. apply dotted_identifier_chars in H. split; [|split].
  - unfold strip.
    assert (Hs : all_chars (fun c => negb (is_space c)) x).
    { eapply all_chars_impl; [|exact H].
      intros c Hc. apply name_char_facts in Hc. destruct Hc as [-> _].
      reflexivity. }
    rewrite (lstrip_id Hs). apply rstrip_id. exact Hs.
  - eapply all_chars_impl; [|exact H].
    intros c Hc. apply name_char_facts in Hc. tauto.
  - eapply all_chars_impl; [|exact H].
    intros c Hc. apply name_char_facts in Hc. tauto.
Qed.

Lemma prefix_append : forall sep b, prefix sep (String.append sep b) = true.
Proof.
  induction sep as [|a sep IH]; intros b; [destruct b; reflexivity|].
  cbn [String.append prefix].
  destruct (ascii_dec a a); [apply IH | contradiction].
Qed.

Lemma prefix_other : forall c0 sep' c s,
  other_than c0 c = true -> prefix (String c0 sep') (String c s) = false.
Proof.
  intros c0 sep' c s H. cbn [prefix].
  destruct (ascii_dec c0 c) as [->|]; [|reflexivity].
  unfold other_than in H. rewrite Ascii.eqb_refl in H. discriminate H.
Qed.

Lemma split_go_skip : forall sep pre b cur,
  split_go sep (String.length pre) cur (String.append pre b)
  = split_go sep 0 cur b.
Proof.
  intros sep. induction pre as [|a pre IH]; intros b cur; [reflexivity|].
  cbn [String.length String.append split_go]. apply IH.
Qed.

Lemma split_go_lacks : forall c0 sep' s cur,
  all_chars (other_than c0) s ->
  split_go (String c0 sep') 0 cur s = [String.append cur s].
Proof.
  intros c0 sep' s cur H. revert cur.
  induction H as [|c s Hc _ IH]; intros cur; cbn [split_go].
  - rewrite append_nil_r. reflexivity.
  - rewrite (@prefix_other c0 sep' c s Hc), IH, append_assoc. reflexivity.
Qed.

Lemma split_go_at_sep : forall c0 sep' a b cur,
  all_chars (other_than c0) a ->
  split_go (String c0 sep') 0 cur
    (String.append a (String.append (String c0 sep') b))
  = String.append cur a :: split_go (String c0 sep') 0 EmptyString b.
Proof.
  intros c0 sep' a b cur H. revert cur.
  induction H as [|c s Hc _ IH]; intros cur.
  - cbn [String.append]. cbn [split_go].
    pose proof (prefix_append (String c0 sep') b) as Hp.
    cbn [String.append] in Hp. rewrite Hp. rewrite append_nil_r.
    cbn [String.length Nat.sub]. rewrite Nat.sub_0_r, split_go_skip.
    reflexivity.
  - cbn [String.append split_go].
    rewrite (@prefix_other c0 sep' c _ Hc), IH, append_assoc. reflexivity.
Qed.

Lemma split_join_lacks : forall c0 sep' (l : list string),
  l <> [] ->
  Forall (all_chars (other_than c0)) l ->
  split (String c0 sep') (join (String c0 sep') l) = l.
Proof.
  intros c0 sep'. induction l as [|x l IH]; intros Hne Hall; [contradiction|].
  apply Forall_cons_iff in Hall. destruct Hall as [Hx Hl].
  destruct l as [|y l].
  - cbn [join]. unfold split. rewrite (@split_go_lacks c0 sep' x EmptyString Hx).
    reflexivity.
  - rewrite join_cons by discriminate. unfold split.
    rewrite (@split_go_at_sep c0 sep' x _ EmptyString Hx). cbn [String.append].
    f_equal. apply IH; [discriminate | exact Hl].
Qed.

Lemma all_chars_join : forall P sep (l : list string),
  all_chars P sep -> Forall (all_chars P) l -> all_chars P (join sep l).
Proof.
  intros P sep. induction l as [|x l IH]; intros Hsep Hall; [constructor|].
  apply Forall_cons_iff in Hall. destruct Hall as [Hx Hl].
  destruct l as [|y l]; [exact Hx|].
  rewrite join_cons by discriminate.
  apply all_chars_app; [exact Hx|].
  apply all_chars_app; [exact Hsep | apply IH; assumption].
Qed.

Lemma padded_strip : forall written names,
  Forall2 padded written names -> map strip written = names.
Proof.
  induction 1 as [|w n ws ns [Hs _] _ IH]; cbn [map]; [reflexivity|].
  rewrite Hs, IH. reflexivity.
Qed.

Lemma padded_lacks : forall written names,
  Forall2 padded written names ->
  Forall (all_chars (other_than ",")) written /\
  Forall (all_chars (other_than "-")) written.
Proof.
  induction 1 as [|w n ws ns (_ & Hc & Hd) _ [IHc IHd]]; split; constructor;
    assumption.
Qed.

(** A signature written from its names, white space around them or not,
    parses to these names. *)
Lemma ParseSignature_written : forall ins outs written_ins written_outs,
  ins <> [] -> outs <> [] ->
  Forall dotted_identifier ins -> Forall dotted_identifier outs ->
  Forall2 padded written_ins ins ->
  Forall2 padded written_outs outs ->
  ParseSignature
    (String.append (join "," written_ins)
       (String.append "->" (join "," written_outs)))
  = Ok (ins, outs).
Proof.
  intros ins outs wi wo Hi Ho Hdi Hdo Hwi Hwo.
  apply (proj1 (ParseSignature_valid _)).
  exists (join "," wi), (join "," wo).
  destruct (padded_lacks Hwi) as [Hci Hdi'].
  destruct (padded_lacks Hwo) as [Hco Hdo'].
  assert (Hni : wi <> []) by (intros ->; inversion Hwi; subst; contradiction).
  assert (Hno : wo <> []) by (intros ->; inversion Hwo; subst; contradiction).
  split; [|split; [|split; [|split]]].
  - unfold split.
    rewrite (@split_go_at_sep "-" ">" (join "," wi) (join "," wo) EmptyString).
    + cbn [String.append]. f_equal.
      rewrite split_go_lacks; [reflexivity|].
      apply all_chars_join; [repeat constructor | exact Hdo'].
    + apply all_chars_join; [repeat constructor | exact Hdi'].
  - rewrite (@split_join_lacks "," EmptyString wi Hni Hci). symmetry.
    apply padded_strip. exact Hwi.
  - rewrite (@split_join_lacks "," EmptyString wo Hno Hco). symmetry.
    apply padded_strip. exact Hwo.
  - exact Hdi.
  - exact Hdo.
Qed.

Lemma dotted_identifiers_padded : forall names,
  Forall dotted_identifier names -> Forall2 padded names names.
Proof.
  induction 1; constructor;
    [apply dotted_identifier_padded; assumption | assumption].
Qed.

(** X16.  Writing a signature from its names and parsing it gives the
    names back: for two lists of dotted identifiers, neither of them
    empty, [ParseSignature] of the inputs joined by commas, [->], and the
    outputs joined by commas returns exactly the two lists.  White space
    around a name is dropped: the names may be written with any white
    space before and after them. *)
Theorem ParseSignature_of_joined_names :
  forall (ins outs : list string),
    ins <> [] -> outs <> [] ->
    Forall dotted_identifier ins -> Forall dotted_identifier outs ->
    ParseSignature
      (String.append (join "," ins) (String.append "->" (join "," outs)))
      = Ok (ins, outs) /\
    (forall written_ins written_outs,
       Forall2 padded written_ins ins ->
       Forall2 padded written_outs outs ->
       ParseSignature
         (String.append (join "," written_ins)
            (String.append "->" (join "," written_outs)))
       = Ok (ins, outs)).
Proof.
  intros ins outs Hi Ho Hdi Hdo. split.
  - apply ParseSignature_written; try assumption;
      apply dotted_identifiers_padded; assumption.
  - intros wi wo Hwi Hwo. apply ParseSignature_written; assumption.
Qed.

Lemma ParseSignature_of_joined_names_witness :
  ParseSignature "c,b.x->d" = Ok (["c"; "b.x"]%string, ["d"]%string) /\
  ParseSignature " c , b.x -> d" = Ok (["c"; "b.x"]%string, ["d"]%string).
Proof.
  assert (Hins : Forall dotted_identifier ["c"; "b.x"]%string)
    by (repeat (apply Forall_cons;
                [apply dotted_identifier_matches; reflexivity|]);
        apply Forall_nil).
  assert (Houts : Forall dotted_identifier ["d"]%string)
    by (repeat (apply Forall_cons;
                [apply dotted_identifier_matches; reflexivity|]);
        apply Forall_nil).
  destruct (@ParseSignature_of_joined_names ["c"; "b.x"]%string ["d"]%string
              ltac:(discriminate) ltac:(discriminate) Hins Houts)
    as [Hplain Hpadded].
  split; [exact Hplain|].
  apply (Hpadded [" c "; " b.x "]%string [" d"]%string);
    repeat constructor.
Defined.

(** ** More on the selectors *)

Lemma index_in_range : forall A (l : list A) i,
  (0 <= i < len l)%Z -> exists a, index l i = Ok a /\
                                  nth_error l (Z.to_nat i) = Some a.
Proof.
  intros A l i [H0 Hlt]. unfold index, len in *.
  destruct (nth_error l (Z.to_nat i)) as [a|] eqn:Hn; [eauto|].
  apply nth_error_None in Hn. lia.
Qed.

(** X20.  [ArgIndex] returns the inputs at the positions listed in
    [p.idx], in the order of the list, a position as often as it is
    listed: a tuple when more than one position is listed, the bare input
    when exactly one is -- for every non-empty list of positions [i] with
    [0 <= i < len(args)].  An empty list, a negative position or one above
    [len(args)] fails the assertions; the constructor refuses an empty
    name and an empty list. *)
Theorem ArgIndex_selects_in_order :
  forall (T : Type) (p : ArgIndexParams) (theta : value T)
         (args : list (value T)),
    (argindex_idx p <> [] ->
     Forall (fun i => (0 <= i < len args)%Z) (argindex_idx p) ->
     exists r,
       Forall2 (fun i a => nth_error args (Z.to_nat i) = Some a)
               (argindex_idx p) r /\
       ArgIndexLayer_FProp p theta args = Ok (unwrap_single r)) /\
    (Exists (fun i => (i < 0)%Z \/ (len args < i)%Z) (argindex_idx p) ->
     ArgIndexLayer_FProp p theta args = Raise AssertionError) /\
    (argindex_idx p = [] ->
     ArgIndexLayer_FProp p theta args = Raise AssertionError) /\
    (ArgIndexLayer_init p = Ok tt <->
     argindex_name p <> EmptyString /\ argindex_idx p <> []).
Proof.
  intros T [name idx] theta args; cbn [argindex_idx argindex_name].
  unfold ArgIndexLayer_FProp, ArgIndexLayer_init;
    cbn [argindex_idx argindex_name].
  split; [|split; [|split]].
  - intros Hne Hall.
    assert (Hck : ArgIndex_check idx args = true).
    { unfold ArgIndex_check. apply forallb_forall. intros i Hi.
      rewrite Forall_forall in Hall. specialize (Hall i Hi).
      apply andb_true_iff. split; [apply Z.leb_le | apply Z.leb_le]; lia. }
    assert (Hsel : exists r,
               Forall2 (fun i a => nth_error args (Z.to_nat i) = Some a) idx r /\
               map_r (index args) idx = Ok r).
    { clear Hne Hck. induction Hall as [|i idx Hi _ (r & Hf & Hm)].
      - exists []. split; [constructor | reflexivity].
      - destruct (index_in_range args Hi) as (a & Ha & Hn).
        exists (a :: r). split; [constructor; assumption|].
        cbn [map_r]. rewrite Ha, Hm. reflexivity. }
    destruct Hsel as (r & Hf & Hm). exists r. split; [exact Hf|].
    destruct idx as [|i idx]; [contradiction|].
    cbn [length Nat.eqb negb rassert rbind]. rewrite Hck, Hm.
    cbn [rassert rbind]. apply tuple_or_first.
    inversion Hf; discriminate.
  - intros Hex.
    destruct idx as [|i idx]; [inversion Hex|].
    cbn [length Nat.eqb negb rassert rbind].
    assert (Hck : ArgIndex_check (i :: idx) args = false).
    { unfold ArgIndex_check. apply not_true_is_false. intros Hall.
      rewrite forallb_forall in Hall. apply Exists_exists in Hex.
      destruct Hex as (j & Hj & Hbad). specialize (Hall j Hj).
      apply andb_true_iff in Hall. destruct Hall as [H0 H1].
      apply Z.leb_le in H0. apply Z.leb_le in H1. lia. }
    rewrite Hck. reflexivity.
  - intros ->. reflexivity.
  - destruct (String.eqb_spec name EmptyString) as [->|Hn];
      cbn [negb rassert rbind].
    + split; [discriminate | intros [H _]; contradiction].
    + destruct idx as [|i idx]; cbn [length Nat.eqb negb rassert].
      * split; [discriminate | intros [_ H]; contradiction].
      * split; [intros _; split; [assumption | discriminate] | reflexivity].
Qed.

Lemma ArgIndex_selects_in_order_witness :
  (exists r,
     Forall2 (fun i a => nth_error firstn_demo_args (Z.to_nat i) = Some a)
             [2; 0; 2]%Z r /\
     ArgIndexLayer_FProp {| argindex_name := "pick"; argindex_idx := [2; 0; 2]%Z |}
       VNone firstn_demo_args = Ok (unwrap_single r)) /\
  ArgIndexLayer_FProp {| argindex_name := "pick"; argindex_idx := [0; -1]%Z |}
    VNone firstn_demo_args = Raise AssertionError /\
  ArgIndexLayer_FProp {| argindex_name := "pick"; argindex_idx := [] |}
    VNone firstn_demo_args = Raise AssertionError.
Proof.
  split; [|split].
  - apply (proj1 (@ArgIndex_selects_in_order nat
                    {| argindex_name := "pick"; argindex_idx := [2; 0; 2]%Z |}
                    VNone firstn_demo_args)).
    + discriminate.
    + repeat constructor; cbn; lia.
  - apply (proj1 (proj2 (@ArgIndex_selects_in_order nat
                    {| argindex_name := "pick"; argindex_idx := [0; -1]%Z |}
                    VNone firstn_demo_args))).
    apply Exists_cons_tl. apply Exists_cons_hd. left. lia.
  - apply (proj1 (proj2 (proj2 (@ArgIndex_selects_in_order nat
                    {| argindex_name := "pick"; argindex_idx := [] |}
                    VNone firstn_demo_args)))).
    reflexivity.
Defined.

(** X21.  Shape inference of [FirstN] does not count its arguments.  With
    [n > 1] it returns the first [n] shapes or, when there are fewer, all
    there are -- where the forward pass, given as few inputs, fails its
    assertion.  With [n <= 1] it returns the first shape, and raises
    [IndexError] when there is none.  The cost is 0 throughout. *)
Theorem FirstN_FPropMeta_does_not_count :
  forall (T : Type) (CheckShapes : list (value T) -> bool)
         (p : FirstNParams) (theta : value T) (args : list (value T)),
    CheckShapes args = true ->
    ((1 < firstn_n p)%Z ->
     FirstNLayer_FPropMeta CheckShapes p args
     = Ok (mkMeta 0 (firstn (Z.to_nat (firstn_n p)) args))) /\
    ((1 < firstn_n p)%Z -> (len args < firstn_n p)%Z ->
     FirstNLayer_FPropMeta CheckShapes p args = Ok (mkMeta 0 args) /\
     FirstNLayer_FProp p theta args = Raise AssertionError) /\
    ((firstn_n p <= 1)%Z ->
     FirstNLayer_FPropMeta CheckShapes p args
     = match args with
       | [] => Raise IndexError
       | a :: _ => Ok (mkMeta 0 [a])
       end).
Proof.
  intros T CheckShapes [name n] theta args Hck; cbn [firstn_n].
  unfold FirstNLayer_FPropMeta, FirstNLayer_FProp; cbn [firstn_n].
  rewrite Hck; cbn [rassert rbind].
  split; [|split].
  - intros Hn. destruct (Z.gtb_spec n 1); [reflexivity | lia].
  - intros Hn Hlen. destruct (Z.gtb_spec n 1); [|lia]. split.
    + cbn [rbind]. rewrite firstn_all2; [reflexivity|]. unfold len in Hlen. lia.
    + destruct (Z.geb_spec (len args) n); [lia | reflexivity].
  - intros Hn. destruct (Z.gtb_spec n 1); [lia|].
    destruct args; reflexivity.
Qed.

Lemma FirstN_FPropMeta_does_not_count_witness :
  FirstNLayer_FPropMeta (fun _ => true)
    {| firstn_name := "first"; firstn_n := 5 |} firstn_demo_args
    = Ok (mkMeta 0 firstn_demo_args) /\
  FirstNLayer_FProp {| firstn_name := "first"; firstn_n := 5 |} VNone
    firstn_demo_args = Raise AssertionError.
Proof.
  apply (proj1 (proj2 (@FirstN_FPropMeta_does_not_count nat (fun _ => true)
                  {| firstn_name := "first"; firstn_n := 5 |} VNone
                  firstn_demo_args eq_refl))); cbn; lia.
Defined.

(** ** More on Repeat and BatchParallel *)

Lemma flatten_items_values : forall T (v : value T) key,
  map snd (flatten_items key v) = Flatten v.
Proof.
  intros T. induction v as [| t | s | vs | m IHm] using value_map_ind;
    intros key; try reflexivity.
  rewrite flatten_items_map.
  change (Flatten (VMap m)) with (flat_map (fun kx => Flatten (snd kx)) m).
  induction IHm as [|[k x] m Hx _ IH]; [reflexivity|].
  cbn [flat_map fst snd] in *. rewrite map_app, Hx, IH. reflexivity.
Qed.

Lemma stack_extra_stacked : forall var_set repeat key value value',
  stack_extra var_set repeat (key, value) = Ok value' ->
  stacked repeat var_set (key, value) (key, value') /\
  (is_Map value = false -> is_Map value' = false).
Proof.
  intros vs repeat key value value' H. unfold stack_extra in H.
  unfold stacked; cbn [fst snd].
  destruct (negb (in_var_set vs key) && negb (is_None value)).
  - apply rbind_ok in H. destruct H as (t & Ht & H).
    apply rbind_ok in H. destruct H as (st & Hst & H).
    inversion H; subst value'.
    destruct value; try discriminate Ht. inversion Ht; subst.
    unfold tf_stack_copies in Hst.
    destruct (0 <? repeat)%Z; [|discriminate Hst]. inversion Hst; subst.
    split; [split; [reflexivity | eexists; split; reflexivity] | reflexivity].
  - inversion H; subst. split; [split; reflexivity | auto].
Qed.

Lemma stack_extra_values : forall var_set repeat items values,
  map_r (stack_extra var_set repeat) items = Ok values ->
  Forall (fun kx => is_Map (snd kx) = false) items ->
  length values = length items /\
  Forall (fun x => is_Map x = false) values /\
  Forall2 (stacked repeat var_set) items (combine (map fst items) values).
Proof.
  intros vs repeat items values H. apply map_r_ok_Forall2 in H.
  induction H as [|[k x] y items values Hs _ IH]; intros Hleaf.
  - repeat split; constructor.
  - apply Forall_cons_iff in Hleaf. destruct Hleaf as [Hx Hleaf].
    destruct (IH Hleaf) as (Hl & Hf & Hst).
    apply stack_extra_stacked in Hs. destruct Hs as [Hs Hm].
    cbn [length map fst combine]. rewrite Hl.
    split; [reflexivity|]. split; constructor; auto.
Qed.

Lemma stack_extra_variables : forall var_set repeat items,
  Forall (fun item => in_var_set var_set (fst item) = true \/
                      snd item = VNone) items ->
  map_r (stack_extra var_set repeat) items = Ok (map snd items).
Proof.
  intros vs repeat items H. induction H as [|[k x] items Hx _ IH];
    [reflexivity|].
  cbn [map_r map snd]. rewrite IH. unfold stack_extra at 1.
  cbn [fst snd] in Hx.
  assert (Hc : negb (in_var_set vs k) && negb (is_None x) = false).
  { destruct Hx as [-> | ->]; [reflexivity|].
    rewrite andb_false_r. reflexivity. }
  rewrite Hc. reflexivity.
Qed.

(** X22.  [_MaybeStackExtraTheta] keeps the tree and its variables: the
    result has the paths of [theta] in the same order; a leaf under the
    path of a variable of the body, or a leaf that is [None], is the leaf
    of [theta]; any other leaf, a tensor, is that tensor [repeat] times
    over under a new leading axis of size [repeat].  When every leaf is a
    variable or [None] the result is [theta] itself. *)
Theorem MaybeStackExtraTheta_keeps_variables :
  forall (m : NestedMap Tensor) (all_vars : value Tensor)
         (vars : list (string * value Tensor)) (repeat : Z),
    FlattenItems all_vars = Ok vars ->
    (forall theta',
       _MaybeStackExtraTheta (VMap m) all_vars repeat = Ok theta' ->
       Forall2 (stacked repeat (map fst vars))
               (flatten_items EmptyString (VMap m))
               (flatten_items EmptyString theta')) /\
    (Forall (fun item => in_var_set (map fst vars) (fst item) = true \/
                         snd item = VNone)
            (flatten_items EmptyString (VMap m)) ->
     _MaybeStackExtraTheta (VMap m) all_vars repeat = Ok (VMap m)).
Proof.
  intros m all_vars vars repeat Hvars. unfold _MaybeStackExtraTheta.
  rewrite Hvars; cbn [rbind FlattenItems]. split.
  - intros theta' H. apply rbind_ok in H. destruct H as (values & Hv & Hp).
    destruct (@stack_extra_values _ _ _ _ Hv
                (flatten_items_leaves (VMap m) EmptyString))
      as (Hlen & Hleaf & Hst).
    destruct (@Pack_flatten _ m values Hlen Hleaf) as (v' & Hp' & Hf).
    rewrite Hp in Hp'. inversion Hp'; subst v'. rewrite Hf. exact Hst.
  - intros Hall. rewrite (@stack_extra_variables _ repeat _ Hall); cbn [rbind].
    rewrite flatten_items_values. unfold Pack.
    pose proof (pack_Flatten (VMap m) []) as Hp. rewrite app_nil_r in Hp.
    rewrite Hp. reflexivity.
Qed.

Lemma MaybeStackExtraTheta_keeps_variables_witness :
  _MaybeStackExtraTheta (VMap [("b", VTensor (mkTensor [2; 1] [1%R; 3%R]))]%string)
    (rl_body_vars repeat_demo) 2
  = Ok (VMap [("b", VTensor (mkTensor [2; 1] [1%R; 3%R]))]%string).
Proof.
  apply (proj2 (@MaybeStackExtraTheta_keeps_variables
                  [("b", VTensor (mkTensor [2; 1] [1%R; 3%R]))]%string
                  (rl_body_vars repeat_demo)
                  [("b", VTensor (mkTensor [2; 1] [1%R; 3%R]))]%string 2
                  eq_refl)).
  repeat constructor.
Defined.

Lemma _CellFn_one_call : forall args body theta_stack state0 theta_i log state1,
  _CellFn args body theta_stack state0 theta_i = (log, Ok state1) ->
  length log = 1 /\ forallb (@is_body_call Tensor) log = true.
Proof.
  intros args body ts state0 theta_i log state1 H. unfold _CellFn in H.
  lifted_ok H ins Hins. lifted_ok H u Hu.
  unfold call_fprop in H.
  destruct (layer_FProp body theta_i ins) as [out|e]; [|discriminate H].
  cbn [bind] in H.
  destruct (len (_ToTuple out) =? len ins)%Z;
    cbn [bind assert_ raise ret lift] in H; [|discriminate H].
  destruct (_ArgsToState args (_ToTuple out)); cbn [app] in H;
    [|discriminate H].
  inversion H; subst. split; reflexivity.
Qed.

Lemma Recurrent_loop_calls : forall (l : list nat) inputs
    (cell_fn : NestedMap Tensor -> value Tensor ->
               M (fprop_event Tensor) (NestedMap Tensor)) state0 log state1,
  (forall s th lg s', cell_fn s th = (lg, Ok s') ->
     length lg = 1 /\ forallb (@is_body_call Tensor) lg = true) ->
  for_each l (fun state i =>
                slices <- lift (map_r (slice_leaf i) (Flatten inputs)) ;;
                inputs_i <- lift (Pack inputs slices) ;;
                cell_fn state inputs_i) state0 = (log, Ok state1) ->
  length log = length l /\ forallb (@is_body_call Tensor) log = true.
Proof.
  induction l as [|i l IH]; intros inputs cell_fn state0 log state1 Hcell H;
    cbn [for_each] in H.
  - inversion H; subst. split; reflexivity.
  - apply bind_ok in H. destruct H as (l1 & s1 & l2 & Hstep & Hrest & ->).
    lifted_ok Hstep slices Hs. lifted_ok Hstep inputs_i Hp.
    apply Hcell in Hstep. destruct Hstep as [H1 Hb1].
    apply (IH _ _ _ _ _ Hcell) in Hrest. destruct Hrest as [H2 Hb2].
    rewrite length_app, forallb_app, H1, H2, Hb1, Hb2. split; reflexivity.
Qed.

(** X23.  When the forward pass of [Repeat] returns, the body has been
    called once per slice of the stacked parameters and nothing else has
    been logged: the leaves of the stacked [theta.body] that are not
    [None] all have a leading axis of the same size [d], there is at least
    one such leaf, and the log holds exactly [d] calls, all of the
    body. *)
Theorem Repeat_FProp_calls_body_per_slice :
  forall (self : RepeatLayer) (theta : value Tensor)
         (args : list (value Tensor)) log v,
    RepeatLayer_FProp self theta args = (log, Ok v) ->
    exists theta_body theta_stack d ds,
      py_getattr "body" theta = Ok theta_body /\
      _MaybeStackExtraTheta theta_body (rl_body_vars self) (rl_repeat self)
        = Ok theta_stack /\
      map_r leading_dim
        (filter (fun x => negb (is_None x)) (Flatten theta_stack))
        = Ok (d :: ds) /\
      forallb (Nat.eqb d) ds = true /\
      length log = d /\
      forallb (@is_body_call Tensor) log = true.
Proof.
  intros self theta args log v H. unfold RepeatLayer_FProp in H.
  lifted_ok H tb Htb. lifted_ok H ts Hts. lifted_ok H state0 Hs0.
  apply bind_ok in H. destruct H as (l1 & state1 & l2 & Hrec & H & ->).
  lifted_ok H outs Houts.
  assert (Hl2 : l2 = []).
  { destruct (len args =? 1)%Z; [|inversion H; reflexivity].
    unfold lift in H. inversion H; reflexivity. }
  subst l2. rewrite app_nil_r. clear H.
  unfold Recurrent in Hrec.
  lifted_ok Hrec dims Hdims.
  destruct dims as [|d ds]; [discriminate Hrec|].
  destruct (forallb (Nat.eqb d) ds) eqn:Hall; [|discriminate Hrec].
  exists tb, ts, d, ds.
  split; [reflexivity|]. split; [exact Hts|]. split; [exact Hdims|].
  split; [exact Hall|].
  apply Recurrent_loop_calls in Hrec.
  - rewrite length_seq in Hrec. exact Hrec.
  - intros s th lg s' Hc. eapply _CellFn_one_call. exact Hc.
Qed.

Lemma Repeat_FProp_calls_body_per_slice_witness :
  exists theta_body theta_stack d ds,
    py_getattr "body" repeat_demo_theta = Ok theta_body /\
    _MaybeStackExtraTheta theta_body (rl_body_vars repeat_demo)
      (rl_repeat repeat_demo) = Ok theta_stack /\
    map_r leading_dim
      (filter (fun x => negb (is_None x)) (Flatten theta_stack))
      = Ok (d :: ds) /\
    forallb (Nat.eqb d) ds = true /\
    length (fst (RepeatLayer_FProp repeat_demo repeat_demo_theta [soft_inputs]))
      = d /\
    forallb (@is_body_call Tensor)
      (fst (RepeatLayer_FProp repeat_demo repeat_demo_theta [soft_inputs]))
      = true.
Proof.
  apply (@Repeat_FProp_calls_body_per_slice repeat_demo repeat_demo_theta
           [soft_inputs] _ (VTensor (mkTensor [1] [(0 + 1 + 3)%R]))).
  reflexivity.
Defined.

Section BatchParallelFacts.

Variable T : Type.
Variable num : Z.
Variable split_fn : list (value T) -> Z -> result (list (list (value T))).
Variable concat_fn : list (shard_output T) -> result (shard_output T).

Lemma BatchParallel_loop_run : forall sub theta th (inps : list (list (value T)))
    ys k outs,
  py_getattr "sub" theta = Ok th ->
  map_r (layer_FProp sub th) inps = Ok ys ->
  for_each (combine (seq k (length inps)) inps)
    (BatchParallel_shard sub theta) outs
  = (flat_map (shard_events sub th) (combine (seq k (length inps)) inps),
     Ok (outs ++ map (@shard_of T) ys)).
Proof.
  intros sub theta th inps ys k outs Hth H. apply map_r_ok_Forall2 in H.
  revert k outs. induction H as [|xs y inps ys Hy _ IH]; intros k outs;
    cbn [length seq combine for_each flat_map map].
  - rewrite app_nil_r. reflexivity.
  - unfold BatchParallel_shard at 1. unfold emit. cbn [bind].
    rewrite bind_lift, Hth. unfold call_fprop. rewrite Hy. cbn [bind ret app].
    rewrite IH. unfold shard_events; cbn [fst snd app].
    rewrite Hy, <- app_assoc. reflexivity.
Qed.

Lemma BatchParallel_loop_ok : forall sub theta th (inps : list (list (value T)))
    k outs log outs',
  py_getattr "sub" theta = Ok th ->
  for_each (combine (seq k (length inps)) inps)
    (BatchParallel_shard sub theta) outs = (log, Ok outs') ->
  exists ys, map_r (layer_FProp sub th) inps = Ok ys.
Proof.
  intros sub theta th inps. induction inps as [|xs inps IH];
    intros k outs log outs' Hth H; [exists []; reflexivity|].
  cbn [length seq combine for_each] in H.
  apply bind_ok in H. destruct H as (l1 & outs1 & l2 & Hstep & Hrest & _).
  apply (IH _ _ _ _ Hth) in Hrest. destruct Hrest as [ys Hys].
  unfold BatchParallel_shard, emit in Hstep. cbn [bind] in Hstep.
  rewrite bind_lift, Hth in Hstep. unfold call_fprop in Hstep.
  destruct (layer_FProp sub th xs) as [y|e] eqn:Hy;
    [|cbn in Hstep; discriminate Hstep].
  exists (y :: ys). cbn [map_r]. rewrite Hy, Hys. reflexivity.
Qed.

End BatchParallelFacts.

(** X24.  With more than one device per split, and inputs that are all
    tensors, [BatchParallel] splits the inputs once, calls the wrapped
    layer once per shard, in the order of the shards, each call on
    [theta.sub] and on the inputs of its shard, and concatenates once; the
    outputs handed to [ConcatRecursively] are those of the shards in
    order, a tuple as a list, and what it returns comes back as a tuple if
    it is a list.  A run that returns is such a run. *)
Theorem BatchParallel_calls_sub_per_shard :
  forall (T : Type) (num : Z)
         (split_fn : list (value T) -> Z -> result (list (list (value T))))
         (concat_fn : list (shard_output T) -> result (shard_output T))
         (sub : Layer T) (theta th : value T) (args : list (value T)) inps,
    forallb is_Tensor args = true ->
    num <> 1%Z ->
    split_fn args num = Ok inps ->
    py_getattr "sub" theta = Ok th ->
    (forall ys,
       map_r (layer_FProp sub th) inps = Ok ys ->
       BatchParallelLayer_FProp num split_fn concat_fn sub theta args
       = (Split args num
            :: flat_map (shard_events sub th) (enumerate inps)
            ++ [Concat (length inps)],
          rbind (concat_fn (map (@shard_of T) ys)) (fun joined =>
          Ok (joined_value joined)))) /\
    (forall log v,
       BatchParallelLayer_FProp num split_fn concat_fn sub theta args
       = (log, Ok v) ->
       exists ys joined,
         map_r (layer_FProp sub th) inps = Ok ys /\
         concat_fn (map (@shard_of T) ys) = Ok joined /\
         v = joined_value joined).
Proof.
  intros T num split_fn concat_fn sub theta th args inps Hall Hnum Hsplit Hth.
  assert (Hrun : forall ys,
            map_r (layer_FProp sub th) inps = Ok ys ->
            BatchParallelLayer_FProp num split_fn concat_fn sub theta args
            = (Split args num
                 :: flat_map (shard_events sub th) (enumerate inps)
                 ++ [Concat (length inps)],
               rbind (concat_fn (map (@shard_of T) ys)) (fun joined =>
               Ok (joined_value joined)))).
  { intros ys Hys. unfold BatchParallelLayer_FProp.
    rewrite Hall, bind_assert.
    destruct (Z.eqb_spec num 1) as [?|_]; [contradiction|].
    unfold emit at 1. cbn [bind]. rewrite bind_lift, Hsplit.
    unfold enumerate.
    rewrite (@BatchParallel_loop_run T sub theta th inps ys 0 [] Hth Hys).
    cbn [bind app]. unfold emit. cbn [bind].
    rewrite length_map. apply map_r_length in Hys. rewrite Hys.
    destruct (concat_fn (map (@shard_of T) ys)) as [[l|y]|e];
      cbn [lift bind ret rbind joined_value app];
      rewrite ?app_nil_r; reflexivity. }
  split; [exact Hrun|].
  intros log v H.
  assert (Hys : exists ys, map_r (layer_FProp sub th) inps = Ok ys).
  { unfold BatchParallelLayer_FProp in H.
    rewrite Hall, bind_assert in H.
    destruct (Z.eqb_spec num 1) as [?|_]; [contradiction|].
    unfold emit at 1 in H. cbn [bind] in H. rewrite bind_lift, Hsplit in H.
    destruct (for_each (enumerate inps) (BatchParallel_shard sub theta) [])
      as [l1 [outs|e]] eqn:Hloop; [|cbn in H; discriminate H].
    eapply BatchParallel_loop_ok; [exact Hth | exact Hloop]. }
  destruct Hys as [ys Hys]. rewrite (Hrun ys Hys) in H.
  destruct (concat_fn (map (@shard_of T) ys)) as [joined|e] eqn:Hc;
    [|discriminate H].
  inversion H; subst. exists ys, joined. auto.
Qed.

Lemma BatchParallel_calls_sub_per_shard_witness :
  BatchParallelLayer_FProp 2 halves_split halves_concat relu_layer
    (VMap [("sub", VMap [])]%string) [VTensor [-1; 2; -3; 4]%Z]
  = ([Split [VTensor [-1; 2; -3; 4]%Z] 2;
      OnDevice 0;
      FPropCall "sub" (VMap []) [VTensor [-1; 2]%Z] (Ok (VTensor [0; 2]%Z));
      OnDevice 1;
      FPropCall "sub" (VMap []) [VTensor [-3; 4]%Z] (Ok (VTensor [0; 4]%Z));
      Concat 2],
     Ok (VTensor [0; 2; 0; 4]%Z)).
Proof.
  apply (proj1 (@BatchParallel_calls_sub_per_shard _ 2 halves_split
                  halves_concat relu_layer (VMap [("sub", VMap [])]%string)
                  (VMap []) [VTensor [-1; 2; -3; 4]%Z]
                  [[VTensor [-1; 2]%Z]; [VTensor [-3; 4]%Z]]
                  eq_refl ltac:(discriminate) eq_refl eq_refl)
           [VTensor [0; 2]%Z; VTensor [0; 4]%Z] eq_refl).
Defined.

(** ** A chain written as a Graph *)

Lemma id_tail_no_dot : forall c, id_tail c = true -> other_than "." c = true.
Proof.
  intros [[] [] [] [] [] [] [] []] H; try discriminate H; reflexivity.
Qed.

Lemma id_head_tail : forall c, id_head c = true -> id_tail c = true.
Proof.
  intros c H. unfold id_tail. unfold id_head in H. rewrite H. reflexivity.
Qed.

Lemma identifier_path : forall x, identifier x -> path_names x = [x].
Proof.
  intros x Hx. unfold path_names.
  destruct (dotted_identifier_padded (dotted_one Hx)) as (Hs & _).
  rewrite Hs. unfold split. rewrite split_go_lacks; [reflexivity|].
  destruct Hx as [c s Hc Hs']. constructor.
  - apply id_tail_no_dot, id_head_tail, Hc.
  - eapply all_chars_impl; [|exact Hs']. apply id_tail_no_dot.
Qed.

Lemma chain_signature : forall x y,
  identifier x -> identifier y ->
  ParseSignature (String.append x (String.append "->" y)) = Ok ([x], [y]).
Proof.
  intros x y Hx Hy.
  pose proof (dotted_one Hx) as Hdx. pose proof (dotted_one Hy) as Hdy.
  apply (@ParseSignature_written [x] [y] [x] [y]); try discriminate.
  - apply Forall_cons; [exact Hdx | apply Forall_nil].
  - apply Forall_cons; [exact Hdy | apply Forall_nil].
  - apply Forall2_cons; [apply dotted_identifier_padded; exact Hdx
                        | apply Forall2_nil].
  - apply Forall2_cons; [apply dotted_identifier_padded; exact Hdy
                        | apply Forall2_nil].
Qed.

Lemma last_cons_default : forall A (l : list A) y x,
  last (y :: l) x = last l y.
Proof.
  intros A l. induction l as [|a l IH]; intros y x; [reflexivity|].
  change (last (y :: a :: l) x) with (last (a :: l) x).
  rewrite (IH a x), (IH a y). reflexivity.
Qed.

Section GraphChainFacts.

Variables T S : Type.
Variable p : GraphParams S.
Variable theta : value T.

Lemma Graph_chain_step : forall (m : NestedMap T) k name ch x y lp cur,
  nth_error (graph_sub p) k = Some (String.append x (String.append "->" y), lp) ->
  identifier x -> identifier y ->
  lookup x m = Some cur -> lookup y m = None ->
  Graph_FProp_step p theta (VMap m) (k, (name, ch))
  = (v <- Unary_FProp_step theta cur (name, ch) ;;
     ret (VMap (set_item y v m))).
Proof.
  intros m k name ch x y lp cur Hnth Hx Hy Hcur Hfresh.
  unfold Graph_FProp_step, Unary_FProp_step.
  rewrite bind_assoc, !bind_lift.
  destruct (py_getitem name theta) as [th|e]; [|reflexivity].
  unfold index. rewrite Nat2Z.id, Hnth, bind_lift. cbn [fst].
  rewrite (chain_signature Hx Hy), bind_lift.
  unfold GetNamedTensor, AddNamedTensor, add_all.
  cbn [map_r]. rewrite (identifier_path Hx). cbn [get_names].
  rewrite Hcur. cbn [rbind]. rewrite bind_lift.
  unfold call_fprop.
  destruct (layer_FProp ch th [cur]) as [yv|e]; [|reflexivity].
  rewrite !bind_call. cbn [len length Z.of_nat Pos.of_succ_nat Z.eqb Pos.eqb].
  cbn [py_len]. rewrite bind_lift.
  cbn [len length Z.of_nat Pos.of_succ_nat Z.eqb Pos.eqb].
  rewrite bind_assert. cbn [py_iter]. rewrite bind_lift.
  cbn [combine fold_r fst snd]. unfold AddNamedTensor.
  rewrite (identifier_path Hy), add_names_last.
  cbn [py_contains]. rewrite Hfresh. cbn [negb rassert rbind py_setitem].
  reflexivity.
Qed.

Lemma Graph_chain_loop : forall (layers : list (string * Layer T)) xs x
    (m : NestedMap T) cur k,
  length xs = length layers ->
  Forall identifier (x :: xs) -> NoDup (x :: xs) ->
  lookup x m = Some cur ->
  (forall y, In y xs -> lookup y m = None) ->
  (forall i sig,
     nth_error (chain_sigs (x :: xs)) i = Some sig ->
     exists lp, nth_error (graph_sub p) (k + i) = Some (sig, lp)) ->
  (nt <- for_each (combine (seq k (length layers)) layers)
           (Graph_FProp_step p theta) (VMap m) ;;
   layer_out <- lift (map_r (GetNamedTensor nt) [last xs x]) ;;
   if (len layer_out =? 1)%Z then lift (index layer_out 0)
   else ret (VTuple layer_out))
  = for_each layers (Unary_FProp_step theta) cur.
Proof.
  induction layers as [|[name ch] layers IH];
    intros [|y xs] x m cur k Hlen Hid Hnd Hcur Hfresh Hsigs;
    try discriminate Hlen.
  - cbn [length seq combine for_each last]. rewrite bind_ret_l.
    unfold GetNamedTensor. cbn [map_r].
    apply Forall_cons_iff in Hid. destruct Hid as [Hx _].
    rewrite (identifier_path Hx). cbn [get_names]. rewrite Hcur.
    reflexivity.
  - cbn [length seq combine for_each].
    apply Forall_cons_iff in Hid. destruct Hid as [Hx Hid].
    pose proof Hid as Hid'.
    apply Forall_cons_iff in Hid'. destruct Hid' as [Hy _].
    destruct (Hsigs 0 _ eq_refl) as [lp Hnth]. rewrite Nat.add_0_r in Hnth.
    rewrite (@Graph_chain_step m k name ch x y lp cur Hnth Hx Hy Hcur
               (Hfresh y (or_introl eq_refl))).
    rewrite !bind_assoc.
    destruct (Unary_FProp_step theta cur (name, ch)) as [l [v|e]];
      [|reflexivity].
    rewrite !bind_call, bind_ret_l, last_cons_default.
    rewrite (IH xs y (set_item y v m) v (Datatypes.S k)); [reflexivity | ..].
    + cbn [length] in Hlen. lia.
    + exact Hid.
    + inversion Hnd; assumption.
    + apply lookup_set_item_eq.
    + intros z Hz. rewrite lookup_set_item_ne.
      * apply Hfresh. right. exact Hz.
      * intros ->. inversion Hnd as [|? ? _ Hnd']. inversion Hnd'.
        contradiction.
    + intros i sig Hi.
      destruct (Hsigs (Datatypes.S i) sig) as [lp' Hlp]; [exact Hi|].
      exists lp'. rewrite <- Hlp. f_equal. lia.
Qed.

End GraphChainFacts.

Lemma Graph_chain_run :
  forall (T S : Type) (p : GraphParams S) (_seq : list (string * Layer T))
         (x0 : string) (xs : list string) (theta a : value T),
    Forall identifier (x0 :: xs) ->
    NoDup (x0 :: xs) ->
    length xs = length _seq ->
    input_endpoints p = [x0] ->
    output_endpoints p = [last xs x0] ->
    map fst (graph_sub p) = chain_sigs (x0 :: xs) ->
    graph_input_ok a = true ->
    GraphLayer_FProp {| graph_params := p; graph_seq := _seq |} theta [a]
    = UnarySequentialLayer_FProp _seq theta a.
Proof.
  intros T S p _seq x0 xs theta a Hid Hnd Hlen Hin Hout Hsigs Ha.
  unfold GraphLayer_FProp, UnarySequentialLayer_FProp.
  cbn [graph_params graph_seq]. rewrite Hin, Hout, bind_assert.
  cbn [len length Z.of_nat Pos.of_succ_nat Z.eqb Pos.eqb].
  cbn [combine fold_r]. rewrite add_input_checks, Ha. cbn [rassert rbind].
  pose proof Hid as Hid'.
  apply Forall_cons_iff in Hid'. destruct Hid' as [Hx0 _].
  unfold AddNamedTensor. rewrite (identifier_path Hx0), add_names_last.
  cbn [py_contains lookup negb rassert rbind py_setitem set_item].
  rewrite bind_lift. unfold enumerate.
  apply Graph_chain_loop; try assumption.
  - cbn [lookup]. rewrite String.eqb_refl. reflexivity.
  - intros y Hy. cbn [lookup].
    destruct (String.eqb_spec y x0) as [->|_]; [|reflexivity].
    inversion Hnd; contradiction.
  - intros i sig Hi. rewrite <- Hsigs, nth_error_map in Hi. cbn [Nat.add].
    destruct (nth_error (graph_sub p) i) as [[s lp]|]; [|discriminate Hi].
    inversion Hi; subst. exists lp. reflexivity.
Qed.

(** X25.  A [Graph] that is a chain computes what [UnarySequential]
    computes: with one input endpoint, each sub-layer reading the name the
    one before it wrote, and the last name written as the one output
    endpoint -- the names being identifiers without dots, all different --
    whenever the forward pass of the [Graph] on a tensor, or on a NestedMap
    of tensors, returns, the forward pass of [UnarySequential] over the same
    sub-layers returns the same result after the same calls with the same
    arguments.  (The [Graph] keeps the names as keys of a NestedMap and
    fails where that refuses one; [UnarySequential] uses no names.) *)
Theorem Graph_chain_returns_as_UnarySequential :
  forall (T S : Type) (p : GraphParams S) (_seq : list (string * Layer T))
         (x0 : string) (xs : list string) (theta a : value T) log v,
    Forall identifier (x0 :: xs) ->
    NoDup (x0 :: xs) ->
    length xs = length _seq ->
    input_endpoints p = [x0] ->
    output_endpoints p = [last xs x0] ->
    map fst (graph_sub p) = chain_sigs (x0 :: xs) ->
    graph_input_ok a = true ->
    GraphLayer_FProp {| graph_params := p; graph_seq := _seq |} theta [a]
    = (log, Ok v) ->
    UnarySequentialLayer_FProp _seq theta a = (log, Ok v).
Proof.
  intros T S p _seq x0 xs theta a log v Hid Hnd Hlen Hin Hout Hsigs Ha Hrun.
  rewrite <- Hrun. symmetry.
  eapply Graph_chain_run; eassumption.
Qed.

Lemma Graph_chain_returns_as_UnarySequential_witness :
  UnarySequentialLayer_FProp
    [("relu", relu_layer); ("again", relu_layer)]%string
    (VMap [("relu", VMap []); ("again", VMap [])]%string)
    (VTensor [-1; 2]%Z)
  = ([FPropCall "relu" (VMap []) [VTensor [-1; 2]%Z] (Ok (VTensor [0; 2]%Z));
      FPropCall "again" (VMap []) [VTensor [0; 2]%Z] (Ok (VTensor [0; 2]%Z))],
     Ok (VTensor [0; 2]%Z)).
Proof.
  apply (@Graph_chain_returns_as_UnarySequential _ _
           {| graph_name := "graph";
              input_endpoints := ["a"]%string;
              output_endpoints := ["c"]%string;
              graph_sub := [("a->b", relu_params); ("b->c", relu_params)]%string |}
           [("relu", relu_layer); ("again", relu_layer)]%string
           "a"%string ["b"; "c"]%string);
    try reflexivity.
  - repeat (apply Forall_cons; [repeat constructor|]). apply Forall_nil.
  - repeat (apply NoDup_cons; [cbn; intuition discriminate|]). apply NoDup_nil.
Defined.

(** ** Forward pass and shape inference side by side *)

Lemma Unary_FProp_names : forall T theta (_seq : list (string * Layer T))
    x log v,
  for_each _seq (Unary_FProp_step theta) x = (log, Ok v) ->
  map (@fprop_call_name T) log = map (fun e => Some (fst e)) _seq.
Proof.
  intros T theta. induction _seq as [|[name ch] _seq IH]; intros x log v H;
    cbn [for_each] in H.
  - inversion H; subst. reflexivity.
  - apply bind_ok in H. destruct H as (l1 & y & l2 & Hstep & Hrest & ->).
    apply IH in Hrest. unfold Unary_FProp_step in Hstep.
    lifted_ok Hstep th Hth. unfold call_fprop in Hstep.
    inversion Hstep; subst. cbn [app map fprop_call_name fst].
    f_equal. exact Hrest.
Qed.

Lemma unary_meta_chain_names : forall S (subs : list (LayerParams S)) x log z,
  unary_meta_chain subs x log z ->
  map (@meta_call_name S) log = map (@lp_name S) subs.
Proof.
  induction 1; cbn [map meta_call_name]; [reflexivity | f_equal; assumption].
Qed.

Lemma parallel_calls_names : forall T theta args (_seq : list (string * Layer T))
    log outs,
  parallel_calls theta args _seq log outs ->
  map (@fprop_call_name T) log = map (fun e => Some (fst e)) _seq.
Proof.
  induction 1; cbn [map fprop_call_name fst]; [reflexivity | f_equal; assumption].
Qed.

(** X26.  [UnarySequential] and [Parallel] visit their sub-layers in the
    order in which they are declared, in the forward pass as in shape
    inference: the constructor, which refuses an empty layer name, creates
    one child per entry of [p.sub] under the name of that entry, and when a
    forward pass of the constructed layer and a shape inference over the
    same parameters both return, they have called the same sub-layers --
    all of [p.sub], once each -- in the same order. *)
Theorem Chains_visit_sub_layers_in_declared_order :
  forall (T S : Type) (CheckShapes : list (value S) -> bool)
         (CreateChild : list (string * Layer T) -> string -> LayerParams S ->
                        result (Layer T)),
    (forall (p : UnarySequentialParams S) _seq theta x log v s mlog m,
       UnarySequentialLayer_init CreateChild p = Ok _seq ->
       UnarySequentialLayer_FProp _seq theta x = (log, Ok v) ->
       UnarySequentialLayer_FPropMeta p s = (mlog, Ok m) ->
       useq_name p <> EmptyString /\
       map fst _seq = map (@lp_name S) (useq_sub p) /\
       map (@fprop_call_name T) log
       = map (fun ev => Some (meta_call_name ev)) mlog) /\
    (forall (p : ParallelParams T S) _seq theta args log v shapes mlog m,
       ParallelLayer_init CreateChild p = Ok _seq ->
       ParallelLayer_FProp p _seq theta args = (log, Ok v) ->
       ParallelLayer_FPropMeta CheckShapes p shapes = (mlog, Ok m) ->
       par_name p <> EmptyString /\
       map fst _seq = map (@lp_name S) (par_sub p) /\
       map (@fprop_call_name T) log
       = map (fun ev => Some (meta_call_name ev)) mlog).
Proof.
  intros T S CheckShapes CreateChild. split.
  - intros p _seq theta x log v s mlog m Hinit Hrun Hmeta.
    unfold UnarySequentialLayer_init in Hinit.
    apply rbind_ok in Hinit. destruct Hinit as (u & Hname & Hseq).
    apply rassert_ok in Hname. apply make_seq_names in Hseq.
    split; [|split; [exact Hseq|]].
    + destruct (String.eqb_spec (useq_name p) EmptyString);
        [discriminate Hname | assumption].
    + unfold UnarySequentialLayer_FProp in Hrun.
      apply Unary_FProp_names in Hrun.
      unfold UnarySequentialLayer_FPropMeta in Hmeta.
      apply bind_ok in Hmeta.
      destruct Hmeta as (l1 & [total z] & l2 & Hloop & Hret & ->).
      inversion Hret; subst. rewrite app_nil_r.
      apply run_unary_chain in Hloop. destruct Hloop as [Hch _].
      apply unary_meta_chain_names in Hch.
      rewrite Hrun, <- (map_map fst Some), Hseq.
      rewrite <- (map_map (@meta_call_name S) Some), Hch, map_map.
      reflexivity.
  - intros p _seq theta args log v shapes mlog m Hinit Hrun Hmeta.
    unfold ParallelLayer_init in Hinit.
    apply rbind_ok in Hinit. destruct Hinit as (u & Hname & Hseq).
    apply rassert_ok in Hname. apply make_seq_names in Hseq.
    split; [|split; [exact Hseq|]].
    + destruct (String.eqb_spec (par_name p) EmptyString);
        [discriminate Hname | assumption].
    + unfold ParallelLayer_FProp in Hrun.
      apply bind_ok in Hrun.
      destruct Hrun as (l1 & outputs & l2 & Hloop & Hrest & ->).
      apply run_parallel_calls in Hloop. destruct Hloop as (outs & Hc & _).
      apply parallel_calls_names in Hc.
      assert (Hl2 : l2 = []).
      { lifted_ok Hrest rets Hm.
        destruct (len rets >? 1)%Z; [inversion Hrest; reflexivity|].
        unfold lift in Hrest. inversion Hrest; reflexivity. }
      subst l2. rewrite app_nil_r.
      unfold ParallelLayer_FPropMeta in Hmeta.
      asserted_ok Hmeta Hck. apply bind_ok in Hmeta.
      destruct Hmeta as (m1 & [total outs'] & m2 & Hmloop & Hmrest & ->).
      apply parallel_meta_run in Hmloop.
      destruct Hmloop as (_ & _ & Hn & _).
      assert (Hm2 : m2 = []).
      { cbn [snd fst] in Hmrest. lifted_ok Hmrest merged Hmm.
        asserted_ok Hmrest Hck'. inversion Hmrest; reflexivity. }
      subst m2. rewrite app_nil_r.
      rewrite Hc, <- (map_map fst Some), Hseq.
      rewrite <- (map_map (@meta_call_name S) Some), Hn, map_map.
      reflexivity.
Qed.

Lemma Chains_visit_sub_layers_in_declared_order_witness :
  par_name par_demo <> EmptyString /\
  map fst par_demo_seq = map (@lp_name (list Z)) (par_sub par_demo) /\
  map (@fprop_call_name (list Z))
    (fst (ParallelLayer_FProp par_demo par_demo_seq chain_demo_theta
            [VTensor [-1; 2]%Z]))
  = map (fun ev => Some (meta_call_name ev))
      (fst (ParallelLayer_FPropMeta any_dims par_demo [VTensor [2]%Z])).
Proof.
  apply (proj2 (@Chains_visit_sub_layers_in_declared_order _ _ any_dims
                  chain_CreateChild)
           par_demo par_demo_seq chain_demo_theta [VTensor [-1; 2]%Z]
           _ (VTuple [VTensor [0; 2]%Z; VTensor [-1; 2]%Z; VTensor [-1; 2]%Z])
           [VTensor [2]%Z] _
           (mkMeta 3 [VTensor [2]%Z; VTensor [2]%Z; VTensor [2]%Z]));
    reflexivity.
Defined.

Section RepeatedCostFacts.

Variable S : Type.
Variable CheckShapes : list (value S) -> bool.

Lemma Sequential_pass_again : forall (subs : list (LayerParams S)) args log f out,
  for_each subs (Sequential_meta_step CheckShapes) (0%Z, args)
    = (log, Ok (f, out)) ->
  forall total,
    for_each subs (Sequential_meta_step CheckShapes) (total, args)
    = (log, Ok ((total + f)%Z, out)).
Proof.
  intros subs args log f out H total.
  pose proof H as H0.
  apply run_threads in H. destruct H as (metas & Hth & ->).
  rewrite (threads_run Hth 0) in H0. inversion H0; subst log.
  rewrite (threads_run Hth total). rewrite Z.add_0_l. reflexivity.
Qed.

Lemma Sequential_passes_keep_shapes : forall (subs : list (LayerParams S))
    args log f,
  for_each subs (Sequential_meta_step CheckShapes) (0%Z, args)
    = (log, Ok (f, args)) ->
  forall (l : list Z) total,
    snd (for_each l (fun st _ =>
                       for_each subs (Sequential_meta_step CheckShapes) st)
           (total, args))
    = Ok ((total + f * Z.of_nat (length l))%Z, args).
Proof.
  intros subs args log f H. induction l as [|z l IH]; intros total;
    cbn [for_each length].
  - cbn. f_equal. f_equal. lia.
  - rewrite snd_bind, (@Sequential_pass_again subs args log f args H total). cbn [snd].
    rewrite IH. f_equal. f_equal. lia.
Qed.

End RepeatedCostFacts.

(** X27.  Repeating by [Sequential] and repeating by [Repeat] cost the
    same when a pass keeps the shapes: if one pass of shape inference over
    the sub-layers of a [Sequential] returns the shapes it was given, then
    for every repeat count [r >= 0] the [Sequential] with [repeat = r]
    reports [r] times the cost of one pass and these shapes, and so does a
    [Repeat] with [repeat = r] around the [Sequential] with
    [repeat = 1]. *)
Theorem Sequential_repeat_costs_as_Repeat :
  forall (S : Type) (CheckShapes : list (value S) -> bool)
         (p : SequentialParams S) (args : list (value S)) log1 m1,
    (0 <= seq_repeat p)%Z ->
    SequentialLayer_FPropMeta CheckShapes (with_repeat p 1) args
      = (log1, Ok m1) ->
    out_shapes m1 = args ->
    snd (SequentialLayer_FPropMeta CheckShapes p args)
      = Ok (mkMeta (flops m1 * seq_repeat p) args) /\
    snd (RepeatLayer_FPropMeta CheckShapes
           {| rep_name := seq_name p;
              rep_body := sequential_as_sub CheckShapes (with_repeat p 1);
              rep_repeat := seq_repeat p |} args)
      = Ok (mkMeta (flops m1 * seq_repeat p) args).
Proof.
  intros S CheckShapes p args log1 m1 Hrep Hone Hkeep.
  pose proof Hone as Hone'.
  unfold SequentialLayer_FPropMeta in Hone.
  asserted_ok Hone Hck. cbn [with_repeat seq_repeat seq_sub] in Hone.
  apply bind_ok in Hone.
  destruct Hone as (l1 & [f out] & l2 & Hloop & Hret & _).
  inversion Hret; subst m1. cbn [flops out_shapes fst snd] in *. subst out.
  change (range 1) with [0%Z] in Hloop. cbn [for_each] in Hloop.
  assert (Hpass : exists lg,
             for_each (seq_sub p) (Sequential_meta_step CheckShapes)
               (0%Z, args) = (lg, Ok (f, args))).
  { destruct (for_each (seq_sub p) _ (0%Z, args)) as [lg [st|e]];
      cbn [bind ret] in Hloop; [|discriminate Hloop].
    inversion Hloop; subst. eauto. }
  destruct Hpass as [lg Hpass]. split.
  - unfold SequentialLayer_FPropMeta. rewrite Hck, bind_assert, snd_bind.
    rewrite (@Sequential_passes_keep_shapes S CheckShapes (seq_sub p) args lg f Hpass
               (range (seq_repeat p)) 0%Z). cbn [snd fst ret].
    rewrite range_length, Z2Nat.id by exact Hrep.
    rewrite Z.add_0_l. reflexivity.
  - unfold RepeatLayer_FPropMeta, call_meta, sequential_as_sub.
    cbn [rep_body rep_repeat lp_name lp_FPropMeta].
    rewrite Hck, bind_assert, Hone'. cbn [snd bind out_shapes].
    rewrite Hck. reflexivity.
Qed.

Lemma Sequential_repeat_costs_as_Repeat_witness :
  snd (SequentialLayer_FPropMeta any_shapes
         {| seq_name := "seq"; seq_sub := [keep_meta; keep_meta];
            seq_repeat := 3 |} [VTensor 7])
    = Ok (mkMeta 18 [VTensor 7]) /\
  snd (RepeatLayer_FPropMeta any_shapes
         {| rep_name := "seq";
            rep_body := sequential_as_sub any_shapes
                          {| seq_name := "seq";
                             seq_sub := [keep_meta; keep_meta];
                             seq_repeat := 1 |};
            rep_repeat := 3 |} [VTensor 7])
    = Ok (mkMeta 18 [VTensor 7]).
Proof.
  apply (@Sequential_repeat_costs_as_Repeat _ any_shapes
           {| seq_name := "seq"; seq_sub := [keep_meta; keep_meta];
              seq_repeat := 3 |} [VTensor 7]
           (fst (SequentialLayer_FPropMeta any_shapes
                   {| seq_name := "seq"; seq_sub := [keep_meta; keep_meta];
                      seq_repeat := 1 |} [VTensor 7]))
           (mkMeta 6 [VTensor 7]));
    [cbn; lia | reflexivity | reflexivity].
Defined.

(** ** The state of the Repeat layer *)












(** ** The namespace of the Graph layer, with NestedMaps as objects *)

Module StoreFacts.

Import Store.

Section ObjectFacts.

Context {T : Type}.
Variable check_key : string -> result unit.
Implicit Types (h : heap T) (m : list (string * ovalue T))
               (v t cur nt : ovalue T) (names q : list string).












Lemma grows_refl : forall h, grows h h.
Proof. intros h a m H. exists m. auto. Qed.
















(** *** While no NestedMap is written, the namespace is a tree *)

Section Frame.

Variables (h : heap T) (nt : ovalue T).
Variables (a : nat) (m : list (string * ovalue T)) (n : string) (v : ovalue T).
Variable made : heap T.

Hypothesis Hclosed : forall q b,
  get_names h q nt = Ok (ORef b) -> b < length h.
Hypothesis Hm : nth_error h a = Some m.


End Frame.














End ObjectFacts.

Section RunFacts.

Variables T S : Type.
Variable check_key : string -> result unit.
Variable Flatten : heap T -> nat -> result (list (ovalue T)).
Variable CheckShapes : heap S -> list (ovalue S) -> bool.














End RunFacts.

End StoreFacts.



